(** * Translation chat: thread store, persistence and translate route

    A shallow embedding of [src/app/page.tsx] (the [TranslatorPage]
    component) and of the [POST] handler of the translate route that is
    appended to it.

    - JavaScript strings are sequences of UTF-16 code units ([list N]).
    - React state is a record; an event handler reads the state of the
      render it closes over and emits an ordered list of actions (queued
      state updates and immediate side effects), which [commit] applies
      before it runs the save effect.
    - [Date.now()] is an input of every handler that reads the clock.
    - [localStorage] is a finite map from keys to string values; the
      console, the alerts shown and the requests in flight are part of
      the state.
    - [JSON.stringify] and [JSON.parse] follow ECMAScript on the JSON
      grammar.
    - Rendering and speech synthesis do not touch this state and are
      left out; the mark of the copied message is modelled apart. *)

From Stdlib Require Import ZArith NArith List String Ascii Lia.
From Stdlib Require Import DecimalFacts DecimalPos DecimalZ.
From stdpp Require Import base option list gmap.

Local Open Scope Z_scope.

(** ** JavaScript strings *)

Definition jsstring : Type := list N.

(** An ASCII literal of the source, as code units. *)
Definition lit (s : string) : jsstring :=
  map N_of_ascii (list_ascii_of_string s).

(** A string is falsy exactly when it is empty. *)
Definition truthy (s : jsstring) : bool :=
  match s with [] => false | _ :: _ => true end.

(** [WhiteSpace] and [LineTerminator] code units, the ones
    [String.prototype.trim] strips. *)
Definition is_white_space (c : N) : bool :=
  ((9 <=? c) && (c <=? 13) || (c =? 32) || (c =? 160) || (c =? 5760)
   || (8192 <=? c) && (c <=? 8202) || (c =? 8232) || (c =? 8233)
   || (c =? 8239) || (c =? 8287) || (c =? 12288) || (c =? 65279))%N.

Fixpoint trimStart (s : jsstring) : jsstring :=
  match s with
  | c :: r => if is_white_space c then trimStart r else s
  | [] => []
  end.

Definition trim (s : jsstring) : jsstring :=
  rev (trimStart (rev (trimStart s))).

(** [s.slice(0, n)] for a non-negative [n]. *)
Definition slice0 (n : nat) (s : jsstring) : jsstring := take n s.

(** [s.split(sep)] for a separator of one code unit. *)
Fixpoint split (sep : N) (s : jsstring) : list jsstring :=
  match s with
  | [] => [[]]
  | c :: r =>
      if (c =? sep)%N then [] :: split sep r
      else match split sep r with
           | h :: t => (c :: h) :: t
           | [] => [[c]]
           end
  end.

Fixpoint uint_units (d : Decimal.uint) : jsstring :=
  match d with
  | Decimal.Nil => []
  | Decimal.D0 d => 48%N :: uint_units d
  | Decimal.D1 d => 49%N :: uint_units d
  | Decimal.D2 d => 50%N :: uint_units d
  | Decimal.D3 d => 51%N :: uint_units d
  | Decimal.D4 d => 52%N :: uint_units d
  | Decimal.D5 d => 53%N :: uint_units d
  | Decimal.D6 d => 54%N :: uint_units d
  | Decimal.D7 d => 55%N :: uint_units d
  | Decimal.D8 d => 56%N :: uint_units d
  | Decimal.D9 d => 57%N :: uint_units d
  end.

(** [n.toString()] of an integer-valued number below 10^21 in absolute
    value: its decimal digits, with a minus sign when negative. *)
Definition Number_toString (n : Z) : jsstring :=
  match Z.to_int n with
  | Decimal.Pos d => uint_units d
  | Decimal.Neg d => 45%N :: uint_units d
  end.

(** ** Types *)

Inductive Role := user | assistant.

Module Message.
Record t := mk {
  id : jsstring;
  role : Role;
  text : jsstring;
  langLabel : jsstring;
  langCode : jsstring
}.
End Message.

Module ChatSession.
Record t := mk {
  id : jsstring;
  title : jsstring;
  messages : list Message.t;
  createdAt : Z
}.
End ChatSession.

(** ** Language options *)

Record Language := mkLanguage {
  code : jsstring;
  name : jsstring;
  label : jsstring
}.

Definition LANGUAGES : list Language := [
  mkLanguage (lit "en-US") (lit "English") (lit "English");
  mkLanguage (lit "es-ES") (lit "Spanish")
    (lit "Espa" ++ [241%N] ++ lit "ol");
  mkLanguage (lit "fr-FR") (lit "French")
    (lit "Fran" ++ [231%N] ++ lit "ais");
  mkLanguage (lit "de-DE") (lit "German") (lit "Deutsch");
  mkLanguage (lit "zh-CN") (lit "Chinese") [20013%N; 25991%N];
  mkLanguage (lit "hi-IN") (lit "Hindi")
    [2361%N; 2367%N; 2344%N; 2381%N; 2342%N; 2368%N];
  mkLanguage (lit "ar-SA") (lit "Arabic")
    [1575%N; 1604%N; 1593%N; 1585%N; 1576%N; 1610%N; 1577%N]
].

(** [LANGUAGES[i]] for an index inside the table. *)
Definition LANGUAGES_at (i : nat) : Language :=
  nth i LANGUAGES (mkLanguage [] [] []).

(** [LANGUAGES.find(l => l.code === c)] *)
Definition find_language (c : jsstring) : option Language :=
  List.find (fun l => bool_decide (code l = c)) LANGUAGES.

(** ** Component state and its environment *)

(** The body of the request [fetch] posts to the translate route. *)
Record TranslateBody := mkBody {
  body_text : option jsstring;
  body_targetLang : option jsstring;
  body_sourceLang : option jsstring
}.

(** A [handleTranslate] call suspended at its [await]: the request it
    sent and the variables its continuation closes over. *)
Record Pending := mkPending {
  activeChatId : jsstring;
  targetObj : Language;
  request : TranslateBody
}.

Record State := mkState {
  chats : list ChatSession.t;
  currentChatId : option jsstring;
  isSidebarOpen : bool;
  inputText : jsstring;
  isTranslating : bool;
  isListening : bool;
  sourceLang : jsstring;
  targetLang : jsstring;
  (* environment *)
  localStorage : gmap jsstring jsstring;
  console : list jsstring;
  alerts : list jsstring;
  inflight : list Pending
}.

(** What a handler does, in program order: queued state updates
    ([Set...]) and side effects on the environment. *)
Inductive Action :=
| SetChats (f : list ChatSession.t -> list ChatSession.t)
| SetCurrentChatId (v : option jsstring)
| SetIsSidebarOpen (v : bool)
| SetInputText (f : jsstring -> jsstring)
| SetIsTranslating (v : bool)
| SetIsListening (v : bool)
| SetSourceLang (v : jsstring)
| SetTargetLang (v : jsstring)
| StorageSetItem (k v : jsstring)
| ConsoleError (msg : jsstring)
| Alert (msg : jsstring)
| Fetch (p : Pending).

Definition apply_action (a : Action) (s : State) : State :=
  match s with
  | mkState c cur sb inp tr li sl tl ls con al fl =>
      match a with
      | SetChats f => mkState (f c) cur sb inp tr li sl tl ls con al fl
      | SetCurrentChatId v => mkState c v sb inp tr li sl tl ls con al fl
      | SetIsSidebarOpen v => mkState c cur v inp tr li sl tl ls con al fl
      | SetInputText f => mkState c cur sb (f inp) tr li sl tl ls con al fl
      | SetIsTranslating v => mkState c cur sb inp v li sl tl ls con al fl
      | SetIsListening v => mkState c cur sb inp tr v sl tl ls con al fl
      | SetSourceLang v => mkState c cur sb inp tr li v tl ls con al fl
      | SetTargetLang v => mkState c cur sb inp tr li sl v ls con al fl
      | StorageSetItem k v =>
          mkState c cur sb inp tr li sl tl (<[k:=v]> ls) con al fl
      | ConsoleError m =>
          mkState c cur sb inp tr li sl tl ls (con ++ [m]) al fl
      | Alert m => mkState c cur sb inp tr li sl tl ls con (al ++ [m]) fl
      | Fetch p => mkState c cur sb inp tr li sl tl ls con al (fl ++ [p])
      end
  end.

Definition apply_actions (acts : list Action) (s : State) : State :=
  fold_left (fun st a => apply_action a st) acts s.

(** A handler: given the state of the render it closes over, the actions
    it performs and its return value. *)
Definition Handler (A : Type) : Type := State -> list Action * A.

Global Instance handler_ret : MRet Handler := fun A a _ => ([], a).

Global Instance handler_bind : MBind Handler := fun A B k m snap =>
  let '(acts1, a) := m snap in
  let '(acts2, b) := k a snap in
  (acts1 ++ acts2, b).

Definition read {A} (f : State -> A) : Handler A := fun snap => ([], f snap).

Definition act (a : Action) : Handler unit := fun _ => ([a], tt).

(** ** Chat management helpers *)

Definition createNewChat (now_id now_created : Z) : Handler jsstring :=
  chats ← read chats;
  let fresh : Handler jsstring :=
    let newChat :=
      ChatSession.mk (Number_toString now_id) (lit "New Translation") []
        now_created in
    act (SetChats (fun prev => newChat :: prev)) ;;
    act (SetCurrentChatId (Some (ChatSession.id newChat))) ;;
    act (SetIsSidebarOpen false) ;;
    mret (ChatSession.id newChat) in
  match chats with
  | mostRecent :: _ =>
      if (length (ChatSession.messages mostRecent) =? 0)%nat then
        act (SetCurrentChatId (Some (ChatSession.id mostRecent))) ;;
        act (SetIsSidebarOpen false) ;;
        mret (ChatSession.id mostRecent)
      else fresh
  | [] => fresh
  end.

Definition deleteChat (id : jsstring) : Handler unit :=
  chats ← read chats;
  currentChatId ← read currentChatId;
  let newChats := filter (fun c => ChatSession.id c <> id) chats in
  act (SetChats (fun _ => newChats)) ;;
  if bool_decide (currentChatId = Some id) then
    act (SetCurrentChatId
           (match newChats with
            | c :: _ => Some (ChatSession.id c)
            | [] => None
            end))
  else mret tt.

(** ** JSON values, [JSON.stringify] and [JSON.parse]

    The values are those of the JSON grammar.  A number written without
    fraction and exponent is the integer it denotes; any other numeral
    is carried as its text ([JNumeral]): rounding to a double is not
    modelled, and no thread field holds such a number.  Object members
    are kept in the order of the text. *)

#[warnings="-register-all"]
Inductive json :=
| JNull
| JBool (b : bool)
| JNumber (n : Z)
| JNumeral (numeral : jsstring)
| JString (s : jsstring)
| JArray (items : list json)
| JObject (members : list (jsstring * json)).

Definition hex_digit (d : N) : N :=
  (if d <? 10 then 48 + d else 87 + d)%N.

(** [\uXXXX] with lowercase hexadecimal digits. *)
Definition unicode_escape (c : N) : jsstring :=
  [92; 117; hex_digit (c / 4096 mod 16); hex_digit (c / 256 mod 16);
   hex_digit (c / 16 mod 16); hex_digit (c mod 16)]%N.

Definition is_high_surrogate (c : N) : bool :=
  ((55296 <=? c) && (c <=? 56319))%N.
Definition is_low_surrogate (c : N) : bool :=
  ((56320 <=? c) && (c <=? 57343))%N.

(** The two-character escapes of [QuoteJSONString]. *)
Definition short_escape (c : N) : option N :=
  (if c =? 8 then Some 98 else if c =? 9 then Some 116
   else if c =? 10 then Some 110 else if c =? 12 then Some 102
   else if c =? 13 then Some 114 else if c =? 34 then Some 34
   else if c =? 92 then Some 92 else None)%N.

Fixpoint quote_units (s : jsstring) : jsstring :=
  match s with
  | [] => []
  | c :: r =>
      match short_escape c with
      | Some e => 92%N :: e :: quote_units r
      | None =>
          if (c <? 32)%N then unicode_escape c ++ quote_units r
          else if is_high_surrogate c then
            match r with
            | d :: r' =>
                if is_low_surrogate d then c :: d :: quote_units r'
                else unicode_escape c ++ quote_units r
            | [] => unicode_escape c
            end
          else if is_low_surrogate c then unicode_escape c ++ quote_units r
          else c :: quote_units r
      end
  end.

Definition QuoteJSONString (s : jsstring) : jsstring :=
  34%N :: quote_units s ++ [34%N].

Fixpoint join_comma (parts : list jsstring) : jsstring :=
  match parts with
  | [] => []
  | [p] => p
  | p :: ps => p ++ 44%N :: join_comma ps
  end.

Fixpoint stringify_value (v : json) : jsstring :=
  match v with
  | JNull => lit "null"
  | JBool true => lit "true"
  | JBool false => lit "false"
  | JNumber n => Number_toString n
  | JNumeral t => t
  | JString s => QuoteJSONString s
  | JArray items =>
      91%N :: join_comma (map stringify_value items) ++ [93%N]
  | JObject members =>
      123%N ::
      join_comma
        (map (fun m => QuoteJSONString (fst m) ++ 58%N :: stringify_value (snd m))
           members) ++ [125%N]
  end.

Definition is_json_ws (c : N) : bool :=
  ((c =? 32) || (c =? 9) || (c =? 10) || (c =? 13))%N.

Fixpoint skip_ws (s : jsstring) : jsstring :=
  match s with
  | c :: r => if is_json_ws c then skip_ws r else s
  | [] => []
  end.

Definition is_digit (c : N) : bool := ((48 <=? c) && (c <=? 57))%N.

Definition hex_value (c : N) : option N :=
  (if is_digit c then Some (c - 48)
   else if (97 <=? c) && (c <=? 102) then Some (c - 87)
   else if (65 <=? c) && (c <=? 70) then Some (c - 55)
   else None)%N.

Definition simple_escape (e : N) : option N :=
  (if e =? 34 then Some 34 else if e =? 92 then Some 92
   else if e =? 47 then Some 47 else if e =? 98 then Some 8
   else if e =? 102 then Some 12 else if e =? 110 then Some 10
   else if e =? 114 then Some 13 else if e =? 116 then Some 9
   else None)%N.

(** The characters of a string literal after its opening quote: the
    decoded string and the text after the closing quote. *)
Fixpoint parse_chars (s : jsstring) : option (jsstring * jsstring) :=
  match s with
  | [] => None
  | c :: r =>
      if (c =? 34)%N then Some ([], r)
      else if (c =? 92)%N then
        match r with
        | [] => None
        | e :: r1 =>
            if (e =? 117)%N then
              match r1 with
              | h3 :: h2 :: h1 :: h0 :: r2 =>
                  d3 ← hex_value h3; d2 ← hex_value h2;
                  d1 ← hex_value h1; d0 ← hex_value h0;
                  '(str, rest) ← parse_chars r2;
                  Some ((((d3 * 16 + d2) * 16 + d1) * 16 + d0)%N :: str, rest)
              | _ => None
              end
            else
              u ← simple_escape e;
              '(str, rest) ← parse_chars r1;
              Some (u :: str, rest)
        end
      else if (c <? 32)%N then None
      else '(str, rest) ← parse_chars r; Some (c :: str, rest)
  end.

(** The longest prefix of digits, and what follows it. *)
Fixpoint span_digits (s : jsstring) : jsstring * jsstring :=
  match s with
  | c :: r =>
      if is_digit c then let '(ds, rest) := span_digits r in (c :: ds, rest)
      else ([], s)
  | [] => ([], [])
  end.

(** A run of digit characters as a decimal numeral. *)
Fixpoint units_uint (ds : jsstring) : Decimal.uint :=
  match ds with
  | [] => Decimal.Nil
  | c :: r =>
      (if c =? 48 then Decimal.D0 else if c =? 49 then Decimal.D1
       else if c =? 50 then Decimal.D2 else if c =? 51 then Decimal.D3
       else if c =? 52 then Decimal.D4 else if c =? 53 then Decimal.D5
       else if c =? 54 then Decimal.D6 else if c =? 55 then Decimal.D7
       else if c =? 56 then Decimal.D8 else Decimal.D9)%N (units_uint r)
  end.

Definition digits_value (ds : jsstring) : Z := Z.of_uint (units_uint ds).

(** An optional fraction: a dot and at least one digit. *)
Definition parse_fraction (s : jsstring) : option (jsstring * jsstring) :=
  match s with
  | c :: r =>
      if (c =? 46)%N then
        let '(fs, rest) := span_digits r in
        if truthy fs then Some (c :: fs, rest) else None
      else Some ([], s)
  | [] => Some ([], s)
  end.

(** An optional exponent: e or E, an optional sign, at least one digit. *)
Definition parse_exponent (s : jsstring) : option (jsstring * jsstring) :=
  match s with
  | c :: r =>
      if (c =? 101)%N || (c =? 69)%N then
        let '(sign, r1) :=
          match r with
          | g :: r' =>
              if (g =? 43)%N || (g =? 45)%N then ([g], r') else ([], r)
          | [] => ([], r)
          end in
        let '(es, rest) := span_digits r1 in
        if truthy es then Some (c :: sign ++ es, rest) else None
      else Some ([], s)
  | [] => Some ([], s)
  end.

(** A numeral after its optional minus sign: an integer part, which is
    a single 0 or starts with a non-zero digit, then the optional
    fraction and exponent. *)
Definition parse_numeral (neg : bool) (s : jsstring) : option (json * jsstring) :=
  let '(int, s2) := span_digits s in
  match int with
  | [] => None
  | d :: ds =>
      if (d =? 48)%N && truthy ds then None
      else
        '(fr, s3) ← parse_fraction s2;
        '(ex, s4) ← parse_exponent s3;
        if truthy fr || truthy ex then
          Some (JNumeral ((if neg then [45%N] else []) ++ int ++ fr ++ ex), s4)
        else
          Some (JNumber (if neg then - digits_value int else digits_value int),
                s4)
  end.

Definition parse_number (s : jsstring) : option (json * jsstring) :=
  match s with
  | c :: r => if (c =? 45)%N then parse_numeral true r else parse_numeral false s
  | [] => None
  end.

(** [strip_prefix p s] is the rest of [s] after the prefix [p]. *)
Fixpoint strip_prefix (p s : jsstring) : option jsstring :=
  match p, s with
  | [], _ => Some s
  | a :: p', b :: s' => if (a =? b)%N then strip_prefix p' s' else None
  | _ :: _, [] => None
  end.

Fixpoint parse_value (fuel : nat) (s : jsstring) : option (json * jsstring) :=
  match fuel with
  | O => None
  | S fuel =>
      match skip_ws s with
      | [] => None
      | c :: r =>
          if (c =? 110)%N then
            rest ← strip_prefix (lit "ull") r; Some (JNull, rest)
          else if (c =? 116)%N then
            rest ← strip_prefix (lit "rue") r; Some (JBool true, rest)
          else if (c =? 102)%N then
            rest ← strip_prefix (lit "alse") r; Some (JBool false, rest)
          else if (c =? 34)%N then
            '(str, rest) ← parse_chars r; Some (JString str, rest)
          else if (c =? 91)%N then
            match skip_ws r with
            | [] => None
            | c' :: r' =>
                if (c' =? 93)%N then Some (JArray [], r')
                else '(items, rest) ← parse_elements fuel r;
                     Some (JArray items, rest)
            end
          else if (c =? 123)%N then
            match skip_ws r with
            | [] => None
            | c' :: r' =>
                if (c' =? 125)%N then Some (JObject [], r')
                else '(members, rest) ← parse_members fuel r;
                     Some (JObject members, rest)
            end
          else parse_number (c :: r)
      end
  end
with parse_elements (fuel : nat) (s : jsstring)
  : option (list json * jsstring) :=
  match fuel with
  | O => None
  | S fuel =>
      '(v, r) ← parse_value fuel s;
      match skip_ws r with
      | [] => None
      | c :: r' =>
          if (c =? 44)%N then
            '(vs, rest) ← parse_elements fuel r'; Some (v :: vs, rest)
          else if (c =? 93)%N then Some ([v], r')
          else None
      end
  end
with parse_members (fuel : nat) (s : jsstring)
  : option (list (jsstring * json) * jsstring) :=
  match fuel with
  | O => None
  | S fuel =>
      match skip_ws s with
      | [] => None
      | q :: r0 =>
          if (q =? 34)%N then
            '(key, r1) ← parse_chars r0;
            match skip_ws r1 with
            | [] => None
            | colon :: r2 =>
                if (colon =? 58)%N then
                  '(v, r) ← parse_value fuel r2;
                  match skip_ws r with
                  | [] => None
                  | c :: r' =>
                      if (c =? 44)%N then
                        '(ms, rest) ← parse_members fuel r';
                        Some ((key, v) :: ms, rest)
                      else if (c =? 125)%N then Some ([(key, v)], r')
                      else None
                  end
                else None
            end
          else None
      end
  end.

(** [JSON.stringify(v)] *)
Definition JSON_stringify (v : json) : jsstring := stringify_value v.

(** [JSON.parse(text)]; [None] is the [SyntaxError] it throws. *)
Definition JSON_parse (text : jsstring) : option json :=
  '(v, rest) ← parse_value (2 * length text + 2) text;
  match skip_ws rest with
  | [] => Some v
  | _ :: _ => None
  end.

(** ** Threads as JSON values

    [encode_chats] is the value [JSON.stringify] sees for a thread list:
    the objects are built by the literals of [createNewChat] and
    [handleTranslate] and copied by spreads, so their keys are in the
    order of the type declarations. *)

Definition Role_string (r : Role) : jsstring :=
  match r with user => lit "user" | assistant => lit "assistant" end.

Definition encode_message (m : Message.t) : json :=
  JObject [
    (lit "id", JString (Message.id m));
    (lit "role", JString (Role_string (Message.role m)));
    (lit "text", JString (Message.text m));
    (lit "langLabel", JString (Message.langLabel m));
    (lit "langCode", JString (Message.langCode m))
  ].

Definition encode_chat (c : ChatSession.t) : json :=
  JObject [
    (lit "id", JString (ChatSession.id c));
    (lit "title", JString (ChatSession.title c));
    (lit "messages", JArray (encode_message <$> ChatSession.messages c));
    (lit "createdAt", JNumber (ChatSession.createdAt c))
  ].

Definition encode_chats (l : list ChatSession.t) : json :=
  JArray (encode_chat <$> l).

(** Reading a parsed value as [ChatSession[]].  Only values of exactly
    the shape [encode_chats] produces are read; any other value is not a
    [ChatSession[]] as the state is declared. *)

Definition decode_role (s : jsstring) : option Role :=
  if bool_decide (s = lit "user") then Some user
  else if bool_decide (s = lit "assistant") then Some assistant
  else None.

Definition decode_message (v : json) : option Message.t :=
  match v with
  | JObject [(k1, JString i); (k2, JString r); (k3, JString t);
             (k4, JString ll); (k5, JString lc)] =>
      if bool_decide ([k1; k2; k3; k4; k5] =
                      [lit "id"; lit "role"; lit "text"; lit "langLabel";
                       lit "langCode"])
      then ro ← decode_role r; Some (Message.mk i ro t ll lc)
      else None
  | _ => None
  end.

Definition decode_chat (v : json) : option ChatSession.t :=
  match v with
  | JObject [(k1, JString i); (k2, JString t); (k3, JArray ms);
             (k4, JNumber n)] =>
      if bool_decide ([k1; k2; k3; k4] =
                      [lit "id"; lit "title"; lit "messages"; lit "createdAt"])
      then msgs ← mapM decode_message ms; Some (ChatSession.mk i t msgs n)
      else None
  | _ => None
  end.

Definition decode_chats (v : json) : option (list ChatSession.t) :=
  match v with
  | JArray items => mapM decode_chat items
  | _ => None
  end.

(** ** 1. Load/Save from LocalStorage *)

Definition storage_key : jsstring := lit "translation-chats".

(** [localStorage.getItem(k)] used as a condition. *)
Definition item_truthy (saved : option jsstring) : bool :=
  match saved with Some v => truthy v | None => false end.

(** The first effect, run once after the first render.  [inr parsed]:
    the blob parsed to a value that is not a [ChatSession[]]. *)
Definition load_effect (snap : State) : list Action + json :=
  let saved := localStorage snap !! storage_key in
  match saved with
  | Some blob =>
      if truthy blob then
        match JSON_parse blob with
        | Some parsed =>
            match decode_chats parsed with
            | Some l =>
                inl (SetChats (fun _ => l) ::
                     match l with
                     | c :: _ => [SetCurrentChatId (Some (ChatSession.id c))]
                     | [] => []
                     end)
            | None => inr parsed
            end
        | None => inl [ConsoleError (lit "Failed to load chats")]
        end
      else inl []
  | None => inl []
  end.

(** The second effect, run after every render in which [chats] is a new
    array. *)
Definition save_effect : Handler unit :=
  chats ← read chats;
  saved ← read (fun s => localStorage s !! storage_key);
  if (0 <? length chats)%nat
     || ((length chats =? 0)%nat && item_truthy saved)
  then act (StorageSetItem storage_key (JSON_stringify (encode_chats chats)))
  else mret tt.

Definition sets_chats (acts : list Action) : bool :=
  existsb (fun a => match a with SetChats _ => true | _ => false end) acts.

(** One handler run: its actions are applied in order, the component
    re-renders, and the save effect runs when [setChats] was called. *)
Definition commit {A} (h : Handler A) (s : State) : A * State :=
  let '(acts, a) := h s in
  let s1 := apply_actions acts s in
  (a, if sets_chats acts then apply_actions (fst (save_effect s1)) s1 else s1).

Definition initial (storage : gmap jsstring jsstring) : State :=
  mkState [] None false [] false false (lit "en-US") (lit "fr-FR")
    storage [] [] [].

Inductive Mount :=
| Mounted (s : State)
| IllTyped (parsed : json).

(** The first render and its two effects, both closing over the initial
    state, then the re-render the load may have queued. *)
Definition mount (storage : gmap jsstring jsstring) : Mount :=
  let s0 := initial storage in
  match load_effect s0 with
  | inr parsed => IllTyped parsed
  | inl acts1 =>
      let s1 := apply_actions (acts1 ++ fst (save_effect s0)) s0 in
      Mounted (if sets_chats acts1
               then apply_actions (fst (save_effect s1)) s1 else s1)
  end.

(** ** 3. Speech *)

Definition toggleListening (supported : bool) : Handler unit :=
  isListening ← read isListening;
  if isListening : bool then act (SetIsListening false)
  else if negb supported then
    act (Alert (lit "Browser not supported for Voice Input."))
  else mret tt.

Definition onresult (transcript : jsstring) : Handler unit :=
  act (SetInputText (fun prev =>
         if truthy prev then prev ++ lit " " ++ transcript else transcript)).

(** ** 4. Core translation logic *)

(** The three [NextResponse.json] calls of the route. *)
Inductive NextResponse :=
| Ok200 (translatedText : jsstring)
| Error400 (error : jsstring)
| Error500 (error : jsstring).

Definition status (r : NextResponse) : Z :=
  match r with Ok200 _ => 200 | Error400 _ => 400 | Error500 _ => 500 end.

(** How the awaited [fetch] and [response.json()] end. *)
Inductive FetchOutcome :=
| FetchRejected
| JsonRejected
| Resolved (response : NextResponse).

Inductive Exn :=
| TypeError (message : jsstring)
| SyntaxError (message : jsstring)
| Error (message : jsstring).

Definition or_else (s dflt : jsstring) : jsstring :=
  if truthy s then s else dflt.

Definition fallback_error_text : jsstring :=
  [9888%N; 65039%N]
  ++ lit " Error: Could not translate. The free API might be busy.".

Definition append_message (activeChatId : jsstring) (m : Message.t)
    (chat : ChatSession.t) : ChatSession.t :=
  if bool_decide (ChatSession.id chat = activeChatId) then
    ChatSession.mk (ChatSession.id chat) (ChatSession.title chat)
      (ChatSession.messages chat ++ [m]) (ChatSession.createdAt chat)
  else chat.

(** The updater that adds the user message. *)
Definition append_user_message (activeChatId currentText : jsstring)
    (userMsg : Message.t) (chat : ChatSession.t) : ChatSession.t :=
  if bool_decide (ChatSession.id chat = activeChatId) then
    let newTitle :=
      if (length (ChatSession.messages chat) =? 0)%nat
      then slice0 30 currentText ++ lit "..."
      else ChatSession.title chat in
    ChatSession.mk (ChatSession.id chat) newTitle
      (ChatSession.messages chat ++ [userMsg]) (ChatSession.createdAt chat)
  else chat.

Definition userMsg_of (now_msg : Z) (currentText sourceLang : jsstring)
  : Message.t :=
  let sourceObj := default (LANGUAGES_at 0) (find_language sourceLang) in
  Message.mk (Number_toString now_msg) user currentText
    (label sourceObj) (code sourceObj).

(** [let activeChatId = currentChatId;
     if (!activeChatId) activeChatId = createNewChat();] *)
Definition ensure_active_chat (now_chat_id now_chat_created : Z)
  : Handler jsstring :=
  currentChatId ← read currentChatId;
  match currentChatId with
  | Some id =>
      if truthy id then mret id
      else createNewChat now_chat_id now_chat_created
  | None => createNewChat now_chat_id now_chat_created
  end.

Definition handleTranslate (now_chat_id now_chat_created now_msg : Z)
  : Handler unit :=
  inputText ← read inputText;
  if negb (truthy (trim inputText)) then mret tt
  else
    activeChatId ← ensure_active_chat now_chat_id now_chat_created;
    sourceLang ← read sourceLang;
    targetLang ← read targetLang;
    let currentText := inputText in
    let targetObj := default (LANGUAGES_at 1) (find_language targetLang) in
    let userMsg := userMsg_of now_msg currentText sourceLang in
    act (SetChats (fmap (append_user_message activeChatId currentText userMsg)));;
    act (SetInputText (fun _ => []));;
    act (SetIsTranslating true);;
    act (Fetch (mkPending activeChatId targetObj
                  (mkBody (Some currentText) (Some targetLang)
                     (Some sourceLang)))).

(** The [try] block after the awaits, up to its last [throw]. *)
Definition try_response (o : FetchOutcome) : Exn + jsstring :=
  match o with
  | FetchRejected => inl (TypeError (lit "Failed to fetch"))
  | JsonRejected => inl (SyntaxError (lit "Unexpected token"))
  | Resolved (Ok200 translatedText) => inr translatedText
  | Resolved (Error400 error) | Resolved (Error500 error) =>
      inl (Error (or_else error (lit "Translation request failed")))
  end.

(** [try { body } catch (e) { handler } finally { fin }]: the actions of
    the body up to its throw are kept; the result is an exception only
    when the handler throws one. *)
Definition try_catch_finally {A} (body : Handler (Exn + A))
    (handler : Exn -> Handler (Exn + A)) (fin : Handler unit)
  : Handler (Exn + A) :=
  r ← body;
  r' ← match r return Handler (Exn + A) with
       | inl e => handler e
       | inr a => mret (inr a)
       end;
  fin;;
  mret r'.

Definition aiMsg_of (now : Z) (translatedText : jsstring) (targetObj : Language)
  : Message.t :=
  Message.mk (Number_toString (now + 1)) assistant translatedText
    (label targetObj) (code targetObj).

Definition errorMsg_of (now : Z) : Message.t :=
  Message.mk (Number_toString (now + 1)) assistant fallback_error_text
    (lit "System") (lit "en-US").

(** [handleTranslate] from the point where its awaits settle: the rest
    of [try], then [catch] and [finally]. *)
Definition handleTranslate_settled (p : Pending) (o : FetchOutcome) (now : Z)
  : Handler (Exn + unit) :=
  try_catch_finally
    (match try_response o return Handler (Exn + unit) with
     | inl error => mret (inl error)
     | inr translatedText =>
         let aiMsg := aiMsg_of now translatedText (targetObj p) in
         act (SetChats (fmap (append_message (activeChatId p) aiMsg)));;
         mret (inr tt)
     end)
    (fun error =>
       act (ConsoleError (lit "Translation failed:"));;
       let errorMsg := errorMsg_of now in
       act (SetChats (fmap (append_message (activeChatId p) errorMsg)));;
       mret (inr tt))
    (act (SetIsTranslating false)).

(** ** The translate route *)

Record AxiosRequest := mkRequest {
  url : jsstring;
  q : jsstring;
  langpair : jsstring
}.

(** How [axios.get] ends: it rejects, or resolves with [response.data],
    read through the fields the route uses.  [responseData] is
    [Some translatedText] when [response.data.responseData] is there and
    holds the translation, and [None] when it is absent, in which case
    reading its [translatedText] throws. *)
Inductive AxiosResult :=
| AxiosRejected
| AxiosResolved (responseStatus : Z) (responseDetails : jsstring)
    (responseData : option jsstring).

(** [POST]: the upstream requests it issues and its response. *)
Definition POST (axios_get : AxiosRequest -> AxiosResult) (body : TranslateBody)
  : list AxiosRequest * NextResponse :=
  let failed :=
    Error500 (lit "Translation failed. The free API might be busy.") in
  match body_text body, body_targetLang body with
  | Some text, Some targetLang =>
      if negb (truthy text) || negb (truthy targetLang) then
        ([], Error400 (lit "Missing required fields"))
      else
        match body_sourceLang body with
        | None => ([], failed)
        | Some sourceLang =>
            let source :=
              if bool_decide (sourceLang = lit "auto") then lit "en"
              else nth 0 (split 45 sourceLang) [] in
            let target := nth 0 (split 45 targetLang) [] in
            let langPair := source ++ lit "|" ++ target in
            let req :=
              mkRequest (lit "https://api.mymemory.translated.net/get")
                text langPair in
            match axios_get req with
            | AxiosRejected => ([req], failed)
            | AxiosResolved responseStatus _ responseData =>
                if bool_decide (responseStatus <> 200) then ([req], failed)
                else
                  match responseData with
                  | Some translatedText => ([req], Ok200 translatedText)
                  | None => ([req], failed)
                  end
            end
        end
  | _, _ => ([], Error400 (lit "Missing required fields"))
  end.

(** ** Events of the page *)

Inductive Event :=
| ClickNewChat (now_id now_created : Z)
| ClickChat (id : jsstring)
| ClickDelete (id : jsstring)
| ChangeInput (value : jsstring)
| KeyDown (key : jsstring) (shiftKey : bool)
    (now_chat_id now_chat_created now_msg : Z)
| ClickSend (now_chat_id now_chat_created now_msg : Z)
| ChangeSourceLang (value : jsstring)
| ChangeTargetLang (value : jsstring)
| ClickMic (supported : bool)
| SpeechStart
| SpeechEnd
| SpeechError
| SpeechResult (transcript : jsstring)
| ClickMenu
| ClickCloseSidebar
| Settle (i : nat) (outcome : FetchOutcome) (now : Z).

(** A sidebar row exists for every thread, and only for those. *)
Definition has_row (id : jsstring) (s : State) : bool :=
  bool_decide (id ∈ ChatSession.id <$> chats s).

Definition has_option (value : jsstring) : bool :=
  bool_decide (value ∈ code <$> LANGUAGES).

(** The [disabled] attribute of the send button. *)
Definition send_disabled (s : State) : bool :=
  negb (truthy (trim (inputText s))) || isTranslating s.

Definition set_inflight (fl : list Pending) (s : State) : State :=
  mkState (chats s) (currentChatId s) (isSidebarOpen s) (inputText s)
    (isTranslating s) (isListening s) (sourceLang s) (targetLang s)
    (localStorage s) (console s) (alerts s) fl.

Definition step (s : State) (e : Event) : State :=
  match e with
  | ClickNewChat now_id now_created =>
      (commit (createNewChat now_id now_created) s).2
  | ClickChat id =>
      if has_row id s then
        (commit (act (SetCurrentChatId (Some id));;
                 act (SetIsSidebarOpen false)) s).2
      else s
  | ClickDelete id =>
      if has_row id s then (commit (deleteChat id) s).2 else s
  | ChangeInput value => (commit (act (SetInputText (fun _ => value))) s).2
  | KeyDown key shiftKey t1 t2 t3 =>
      if bool_decide (key = lit "Enter") && negb shiftKey
      then (commit (handleTranslate t1 t2 t3) s).2 else s
  | ClickSend t1 t2 t3 =>
      if send_disabled s then s else (commit (handleTranslate t1 t2 t3) s).2
  | ChangeSourceLang value =>
      if has_option value then (commit (act (SetSourceLang value)) s).2 else s
  | ChangeTargetLang value =>
      if has_option value then (commit (act (SetTargetLang value)) s).2 else s
  | ClickMic supported => (commit (toggleListening supported) s).2
  | SpeechStart => (commit (act (SetIsListening true)) s).2
  | SpeechEnd => (commit (act (SetIsListening false)) s).2
  | SpeechError =>
      (commit (act (ConsoleError (lit "Speech error"));;
               act (SetIsListening false)) s).2
  | SpeechResult transcript => (commit (onresult transcript) s).2
  | ClickMenu => (commit (act (SetIsSidebarOpen true)) s).2
  | ClickCloseSidebar => (commit (act (SetIsSidebarOpen false)) s).2
  | Settle i outcome now =>
      match inflight s !! i with
      | Some p =>
          (commit (handleTranslate_settled p outcome now)
             (set_inflight (delete i (inflight s)) s)).2
      | None => s
      end
  end.

Definition run (s : State) (events : list Event) : State :=
  fold_left step events s.

(** ** Definitions used by the statements *)

(** One member of a printed object. *)
Definition stringify_member (m : jsstring * json) : jsstring :=
  QuoteJSONString m.1 ++ 58%N :: stringify_value m.2.

(** Values without a [JNumeral]: the ones whose printed form is fixed by
    the model. *)
Fixpoint plain (v : json) : bool :=
  match v with
  | JNumeral _ => false
  | JArray items => forallb plain items
  | JObject members => forallb (fun m => plain m.2) members
  | _ => true
  end.

(** Fuel that [parse_value] needs for the printed form of a value. *)
Fixpoint cost (v : json) : nat :=
  match v with
  | JArray items => S (fold_right (fun x acc => S (cost x + acc)) 0%nat items)
  | JObject members =>
      S (fold_right (fun m acc => S (cost m.2 + acc)) 0%nat members)
  | _ => 1%nat
  end.

(** Text after which a numeral cannot continue. *)
Definition number_terminated (rest : jsstring) : bool :=
  match rest with
  | [] => true
  | c :: _ => negb (is_digit c || (c =? 46) || (c =? 101) || (c =? 69))%N
  end.

Definition roundtrips (v : json) : Prop :=
  plain v = true ->
  forall fuel rest, (cost v <= fuel)%nat -> number_terminated rest = true ->
  parse_value fuel (stringify_value v ++ rest) = Some (v, rest).

(** The parsers do not depend on their fuel once it covers the text
    they consume. *)
Definition value_fuel (f : nat) : Prop :=
  forall s v r, parse_value f s = Some (v, r) ->
    (length r < length s)%nat /\
    forall f', (2 * (length s - length r) <= f')%nat ->
               parse_value f' s = Some (v, r).

Definition elements_fuel (f : nat) : Prop :=
  forall s vs r, parse_elements f s = Some (vs, r) ->
    (length r < length s)%nat /\
    forall f', (2 * (length s - length r) + 1 <= f')%nat ->
               parse_elements f' s = Some (vs, r).

Definition members_fuel (f : nat) : Prop :=
  forall s ms r, parse_members f s = Some (ms, r) ->
    (length r < length s)%nat /\
    forall f', (2 * (length s - length r) + 1 <= f')%nat ->
               parse_members f' s = Some (ms, r).

(** A thread list whose strings are UTF-16 and whose timestamps are
    integers a double holds exactly. *)
Definition code_units (s : jsstring) : bool := forallb (fun c => c <? 65536)%N s.

Definition safe_integer (n : Z) : bool :=
  (- 9007199254740991 <=? n) && (n <=? 9007199254740991).

Definition valid_message (m : Message.t) : bool :=
  code_units (Message.id m) && code_units (Message.text m)
  && code_units (Message.langLabel m) && code_units (Message.langCode m).

Definition valid_chat (c : ChatSession.t) : bool :=
  code_units (ChatSession.id c) && code_units (ChatSession.title c)
  && forallb valid_message (ChatSession.messages c)
  && safe_integer (ChatSession.createdAt c).

Definition valid_chats (l : list ChatSession.t) : bool := forallb valid_chat l.

(** Actions that leave [localStorage] alone. *)
Definition storage_free (acts : list Action) : bool :=
  forallb (fun a => match a with StorageSetItem _ _ => false | _ => true end)
    acts.

(** The condition of the save effect. *)
Definition save_cond (chats : list ChatSession.t) (saved : option jsstring)
  : bool :=
  (0 <? length chats)%nat || ((length chats =? 0)%nat && item_truthy saved).

(** What one handler run does to the persisted slot: nothing, when the
    thread list was not set; otherwise the save effect ran on the new
    list. *)
Definition persisted (s s' : State) : Prop :=
  (chats s' = chats s /\ localStorage s' = localStorage s) \/
  localStorage s' =
    if save_cond (chats s') (localStorage s !! storage_key)
    then <[storage_key := JSON_stringify (encode_chats (chats s'))]>
           (localStorage s)
    else localStorage s.

(** The slot holds a blob written by the save effect. *)
Definition saved_once (s : State) : Prop :=
  exists l,
    localStorage s !! storage_key = Some (JSON_stringify (encode_chats l)).

(** The translation call failed: every outcome but a 200 response. *)
Definition is_failure (o : FetchOutcome) : Prop :=
  match o with Resolved (Ok200 _) => False | _ => True end.

(** The primary subtag of a locale code, in the words of the
    specification: the portion before the first hyphen. *)
Fixpoint primary_subtag (code : jsstring) : jsstring :=
  match code with
  | [] => []
  | c :: r => if (c =? 45)%N then [] else c :: primary_subtag r
  end.

Definition is_primary_subtag_of (sub code : jsstring) : Prop :=
  (45%N ∉ sub) /\ (code = sub \/ exists rest, code = sub ++ 45%N :: rest).

(** *** Scenarios *)

Definition hello_events : list Event :=
  [ChangeInput (lit "Hello"); KeyDown (lit "Enter") false 1000 1000 1001].

(** A first message is in flight and a second text has been typed. *)
Definition two_enter_events : list Event :=
  [ChangeInput (lit "a"); KeyDown (lit "Enter") false 1000 1000 1000;
   ChangeInput (lit "b")].

(** The reply to the first message arrives at 1200; the second message
    is sent at 1201. *)
Definition collision_events : list Event :=
  [ChangeInput (lit "a"); KeyDown (lit "Enter") false 1000 1000 1000;
   Settle 0 (Resolved (Ok200 (lit "x"))) 1200;
   ChangeInput (lit "b"); KeyDown (lit "Enter") false 1201 1201 1201].

(** A thread is created and deleted again. *)
Definition empty_list_events : list Event :=
  [ClickNewChat 1000 1000; ClickDelete (lit "1000")].

Definition empty_chat : ChatSession.t :=
  ChatSession.mk (lit "1000") (lit "New Translation") [] 1000.

Definition hello_chat : ChatSession.t :=
  ChatSession.mk (lit "900") (lit "Hello...")
    [Message.mk (lit "901") user (lit "Hello") (lit "English") (lit "en-US")]
    900.

(** A state with an empty newest thread and an older thread. *)
Definition two_chats : State :=
  mkState [empty_chat; hello_chat] (Some (lit "900")) false (lit "Hi") false
    false (lit "en-US") (lit "fr-FR") ∅ [] [] [].

(** A state with one request in flight. *)
Definition one_in_flight : State :=
  run (initial ∅) [ChangeInput (lit "a");
                   KeyDown (lit "Enter") false 1000 1000 1000].

Definition in_flight_request : Pending :=
  mkPending (lit "1000") (LANGUAGES_at 2)
    (mkBody (Some (lit "a")) (Some (lit "fr-FR")) (Some (lit "en-US"))).

Definition corrupt_storage : gmap jsstring jsstring :=
  {[ storage_key := lit "{not json" ]}.

(** ** Further definitions used by the statements *)

(** *** Render helpers *)

(** [chats.find(c => c.id === currentChatId)] *)
Definition getCurrentChat (s : State) : option ChatSession.t :=
  List.find (fun c => bool_decide (Some (ChatSession.id c) = currentChatId s))
    (chats s).

(** [getCurrentChat()?.messages || []] *)
Definition activeMessages (s : State) : list Message.t :=
  match getCurrentChat s with
  | Some c => ChatSession.messages c
  | None => []
  end.

(** [activeMessages.length > 0] *)
Definition hasMessages (s : State) : bool :=
  (0 <? length (activeMessages s))%nat.

(** A field of the request body used as a condition. *)
Definition field_truthy (field : option jsstring) : bool :=
  match field with Some v => truthy v | None => false end.

(** The ids of the threads, newest first. *)
Definition thread_ids (s : State) : list jsstring :=
  ChatSession.id <$> chats s.

(** The current thread, when there is one, is in the list. *)
Definition current_valid (s : State) : Prop :=
  match currentChatId s with
  | Some id => id ∈ thread_ids s
  | None => True
  end.

(** The slot holds the thread list, or the list is empty and the slot
    holds nothing the load effect would read. *)
Definition synced (s : State) : Prop :=
  localStorage s !! storage_key
  = Some (JSON_stringify (encode_chats (chats s))) \/
  (chats s = [] /\ item_truthy (localStorage s !! storage_key) = false).

(** Both selected languages are options of the selectors. *)
Definition languages_selected (s : State) : bool :=
  has_option (sourceLang s) && has_option (targetLang s).

(** [c'] is [c] with messages added at the end; the title is kept once
    the thread has a message. *)
Definition extends (c c' : ChatSession.t) : Prop :=
  ChatSession.id c' = ChatSession.id c /\
  ChatSession.createdAt c' = ChatSession.createdAt c /\
  ChatSession.messages c `prefix_of` ChatSession.messages c' /\
  (ChatSession.messages c <> [] ->
   ChatSession.title c' = ChatSession.title c).

(** A title as the page writes it: not empty and at most 33 code
    units. *)
Definition title_ok (c : ChatSession.t) : Prop :=
  (0 < length (ChatSession.title c) <= 33)%nat.

(** The two error responses of the route. *)
Definition route_failed : NextResponse :=
  Error500 (lit "Translation failed. The free API might be busy.").

Definition route_missing : NextResponse :=
  Error400 (lit "Missing required fields").

(** The request and continuation a submission leaves in flight. *)
Definition pending_of (t1 t2 : Z) (s : State) : Pending :=
  mkPending (ensure_active_chat t1 t2 s).2
    (default (LANGUAGES_at 1) (find_language (targetLang s)))
    (mkBody (Some (inputText s)) (Some (targetLang s)) (Some (sourceLang s))).

(** Actions that only set the thread list, the selection or the
    sidebar. *)
Definition selecting (acts : list Action) : bool :=
  forallb (fun a => match a with
                    | SetChats _ | SetCurrentChatId _ | SetIsSidebarOpen _ => true
                    | _ => false
                    end) acts.

(** The fields of the state; every action writes exactly one. *)
Inductive Field :=
| FChats | FCurrentChatId | FIsSidebarOpen | FInputText | FIsTranslating
| FIsListening | FSourceLang | FTargetLang | FLocalStorage | FConsole
| FAlerts | FInflight.

#[global] Instance Field_eq_dec : EqDecision Field :=
  ltac:(solve_decision).

(** The field an action writes. *)
Definition written (a : Action) : Field :=
  match a with
  | SetChats _ => FChats
  | SetCurrentChatId _ => FCurrentChatId
  | SetIsSidebarOpen _ => FIsSidebarOpen
  | SetInputText _ => FInputText
  | SetIsTranslating _ => FIsTranslating
  | SetIsListening _ => FIsListening
  | SetSourceLang _ => FSourceLang
  | SetTargetLang _ => FTargetLang
  | StorageSetItem _ _ => FLocalStorage
  | ConsoleError _ => FConsole
  | Alert _ => FAlerts
  | Fetch _ => FInflight
  end.

(** No action of the list writes the field. *)
Definition untouched (fld : Field) (acts : list Action) : bool :=
  forallb (fun a => negb (bool_decide (written a = fld))) acts.

(** [s'] agrees with [s] on a field. *)
Definition same_on (fld : Field) (s s' : State) : Prop :=
  match fld with
  | FChats => chats s' = chats s
  | FCurrentChatId => currentChatId s' = currentChatId s
  | FIsSidebarOpen => isSidebarOpen s' = isSidebarOpen s
  | FInputText => inputText s' = inputText s
  | FIsTranslating => isTranslating s' = isTranslating s
  | FIsListening => isListening s' = isListening s
  | FSourceLang => sourceLang s' = sourceLang s
  | FTargetLang => targetLang s' = targetLang s
  | FLocalStorage => localStorage s' = localStorage s
  | FConsole => console s' = console s
  | FAlerts => alerts s' = alerts s
  | FInflight => inflight s' = inflight s
  end.

(** The thread an event deletes. *)
Definition deleted (e : Event) : option jsstring :=
  match e with ClickDelete id => Some id | _ => None end.

(** The two clock readings [createNewChat] takes when an event reaches
    its fresh branch. *)
Definition new_thread_clocks (e : Event) : option (Z * Z) :=
  match e with
  | ClickNewChat now_id now_created => Some (now_id, now_created)
  | KeyDown _ _ now_chat_id now_chat_created _ =>
      Some (now_chat_id, now_chat_created)
  | ClickSend now_chat_id now_chat_created _ =>
      Some (now_chat_id, now_chat_created)
  | _ => None
  end.

(** The [newChat] literal of [createNewChat]. *)
Definition newChat_of (now_id now_created : Z) : ChatSession.t :=
  ChatSession.mk (Number_toString now_id) (lit "New Translation") []
    now_created.

(** The condition under which [createNewChat] builds a thread: the list
    is empty or its newest thread has messages. *)
Definition newest_in_use (s : State) : bool :=
  match chats s with
  | [] => true
  | mostRecent :: _ =>
      negb (length (ChatSession.messages mostRecent) =? 0)%nat
  end.

(** The threads an event may put in front of the list. *)
Definition fresh_threads (e : Event) (new : list ChatSession.t) : Prop :=
  new = [] \/
  exists t1 t2, new_thread_clocks e = Some (t1, t2) /\ new = [newChat_of t1 t2].

(** The functions the [setChats(prev => prev.map(...))] updaters apply
    to a thread. *)
Inductive appends : (ChatSession.t -> ChatSession.t) -> Prop :=
| appends_nothing : appends (fun chat => chat)
| appends_user activeChatId currentText userMsg :
    appends (append_user_message activeChatId currentText userMsg)
| appends_reply activeChatId m : appends (append_message activeChatId m).

(** No clock reading of the event is the id of a thread. *)
Definition fresh_clock (s : State) (e : Event) : bool :=
  match new_thread_clocks e with
  | Some (now_id, _) => bool_decide (Number_toString now_id ∉ thread_ids s)
  | None => true
  end.

(** The events that end or cancel listening. *)
Definition stops_listening (e : Event) : bool :=
  match e with
  | ClickMic _ | SpeechEnd | SpeechError => true
  | _ => false
  end.

(** Dictated phrases as they end up in an empty input box. *)
Definition phrases (transcripts : list jsstring) : jsstring :=
  match transcripts with
  | [] => []
  | t :: rest => t ++ concat ((fun t' => lit " " ++ t') <$> rest)
  end.

(** *** Copy

    [copiedId] is read by the message buttons only, so it is kept apart
    from the rest of the state, with the texts written to the clipboard
    and the number of [setTimeout] callbacks still to run. *)

Record CopyState := mkCopy {
  copiedId : option jsstring;
  clipboard : list jsstring;
  timeouts : nat
}.

(** [handleCopy(id, text)] *)
Definition handleCopy (id text : jsstring) (s : CopyState) : CopyState :=
  mkCopy (Some id) (clipboard s ++ [text]) (S (timeouts s)).

(** The callback [() => setCopiedId(null)] of a timeout that is due. *)
Definition copy_timeout (s : CopyState) : CopyState :=
  match timeouts s with
  | O => s
  | S n => mkCopy None (clipboard s) n
  end.

Inductive CopyEvent :=
| ClickCopy (id text : jsstring)
| TimeoutDue.

Definition copy_step (s : CopyState) (e : CopyEvent) : CopyState :=
  match e with
  | ClickCopy id text => handleCopy id text s
  | TimeoutDue => copy_timeout s
  end.

Definition copy_run (s : CopyState) (events : list CopyEvent) : CopyState :=
  fold_left copy_step events s.

(** A message is marked as copied only while a timeout is pending. *)
Definition mark_expires (s : CopyState) : Prop :=
  copiedId s <> None -> (0 < timeouts s)%nat.

(** The texts the copy clicks of a sequence of events pass to
    [navigator.clipboard.writeText], in order. *)
Definition copied_texts (events : list CopyEvent) : list jsstring :=
  omap (fun e => match e with
                 | ClickCopy _ text => Some text
                 | TimeoutDue => None
                 end) events.

(** *** Further scenarios *)

(** "Hello" has been typed in a fresh page. *)
Definition typed_hello : State := run (initial ∅) [ChangeInput (lit "Hello")].

(** A request body without [sourceLang]. *)
Definition body_without_source : TranslateBody :=
  mkBody (Some (lit "Hello")) (Some (lit "fr-FR")) None.

(** An upstream service that answers every request with "Bonjour". *)
Definition upstream_bonjour (req : AxiosRequest) : AxiosResult :=
  AxiosResolved 200 [] (Some (lit "Bonjour")).

(** A request is in flight and its thread has been deleted. *)
Definition deleted_in_flight : State :=
  run (initial ∅) [ChangeInput (lit "a");
                   KeyDown (lit "Enter") false 1000 1000 1000;
                   ClickDelete (lit "1000")].

(** * Properties *)

Ltac unfold_handler :=
  unfold mbind, mret, handler_bind, handler_ret, read, act.

Ltac case_eqb c :=
  match goal with
  | |- context [(c =? ?k)%N] => destruct (N.eqb_spec c k) as [->|?]
  end.

(** ** Actions and commits *)

Section Actions.
Implicit Types (s : State) (acts : list Action).

Lemma apply_actions_app acts1 acts2 s :
  apply_actions (acts1 ++ acts2) s
  = apply_actions acts2 (apply_actions acts1 s).
Proof. unfold apply_actions. apply fold_left_app. Qed.

Lemma apply_actions_cons a acts s :
  apply_actions (a :: acts) s = apply_actions acts (apply_action a s).
Proof. reflexivity. Qed.

Lemma sets_chats_app acts1 acts2 :
  sets_chats (acts1 ++ acts2) = sets_chats acts1 || sets_chats acts2.
Proof. unfold sets_chats. apply existsb_app. Qed.

Lemma storage_free_app acts1 acts2 :
  storage_free (acts1 ++ acts2) = storage_free acts1 && storage_free acts2.
Proof. apply forallb_app. Qed.

Lemma apply_actions_storage acts s :
  storage_free acts = true ->
  localStorage (apply_actions acts s) = localStorage s.
Proof.
  revert s. induction acts as [|a acts IH]; intros s H; [reflexivity|].
  cbn [storage_free forallb] in H. apply andb_true_iff in H as [Ha H].
  rewrite apply_actions_cons, IH by exact H.
  destruct a, s; try reflexivity; discriminate.
Qed.

Lemma apply_actions_chats acts s :
  sets_chats acts = false -> chats (apply_actions acts s) = chats s.
Proof.
  revert s. induction acts as [|a acts IH]; intros s H; [reflexivity|].
  cbn [sets_chats existsb] in H. apply orb_false_iff in H as [Ha H].
  rewrite apply_actions_cons, IH by exact H.
  destruct a, s; try reflexivity; discriminate.
Qed.

Lemma save_effect_actions s :
  (save_effect s).1 =
    if save_cond (chats s) (localStorage s !! storage_key)
    then [StorageSetItem storage_key
            (JSON_stringify (encode_chats (chats s)))]
    else [].
Proof.
  unfold save_effect, save_cond; unfold_handler.
  destruct (_ || _); reflexivity.
Qed.

Lemma save_effect_chats s s' :
  chats (apply_actions (save_effect s).1 s') = chats s'.
Proof.
  rewrite save_effect_actions. destruct (save_cond _ _), s'; reflexivity.
Qed.

Lemma save_effect_currentChatId s s' :
  currentChatId (apply_actions (save_effect s).1 s') = currentChatId s'.
Proof.
  rewrite save_effect_actions. destruct (save_cond _ _), s'; reflexivity.
Qed.

Lemma save_effect_isTranslating s s' :
  isTranslating (apply_actions (save_effect s).1 s') = isTranslating s'.
Proof.
  rewrite save_effect_actions. destruct (save_cond _ _), s'; reflexivity.
Qed.

Lemma save_effect_storage s :
  localStorage (apply_actions (save_effect s).1 s) =
    if save_cond (chats s) (localStorage s !! storage_key)
    then <[storage_key := JSON_stringify (encode_chats (chats s))]>
           (localStorage s)
    else localStorage s.
Proof.
  rewrite save_effect_actions. destruct (save_cond _ _), s; reflexivity.
Qed.

Lemma commit_persisted {A} (h : Handler A) s :
  storage_free (h s).1 = true -> persisted s (commit h s).2.
Proof.
  intros Hfree. unfold commit. destruct (h s) as [acts a].
  cbn [fst snd] in *. destruct (sets_chats acts) eqn:Hsets.
  - right. rewrite save_effect_storage, save_effect_chats.
    rewrite !apply_actions_storage by exact Hfree. reflexivity.
  - left. split;
      [apply apply_actions_chats, Hsets | apply apply_actions_storage, Hfree].
Qed.

Lemma persisted_refl s : persisted s s.
Proof. left. split; reflexivity. Qed.
End Actions.

Lemma filter_all {A} (P : A -> Prop) `{!forall x, Decision (P x)} (l : list A) :
  Forall P l -> filter P l = l.
Proof.
  induction 1 as [|x l Hx _ IH]; [reflexivity|].
  rewrite filter_cons_True by assumption. by rewrite IH.
Qed.

Lemma Forall2_fmap_self {A} (R : A -> A -> Prop) (f : A -> A) (l : list A) :
  (forall x, R x (f x)) -> Forall2 R l (f <$> l).
Proof. intros H. induction l; constructor; auto. Qed.

(** ** Thread store *)

Section ThreadStore.
Implicit Types (s : State) (id : jsstring).

Lemma createNewChat_reuse s mostRecent rest now_id now_created :
  chats s = mostRecent :: rest ->
  ChatSession.messages mostRecent = [] ->
  createNewChat now_id now_created s =
    ([SetCurrentChatId (Some (ChatSession.id mostRecent));
      SetIsSidebarOpen false], ChatSession.id mostRecent).
Proof.
  intros Hc Hm. unfold createNewChat; unfold_handler.
  rewrite Hc, Hm. reflexivity.
Qed.

Lemma step_new_chat_reuse s mostRecent rest now_id now_created :
  chats s = mostRecent :: rest ->
  ChatSession.messages mostRecent = [] ->
  chats (step s (ClickNewChat now_id now_created)) = chats s.
Proof.
  intros Hc Hm. cbn [step]. unfold commit.
  rewrite (createNewChat_reuse _ _ _ _ _ Hc Hm). destruct s; reflexivity.
Qed.

Lemma deleteChat_actions s id :
  deleteChat id s =
    (let newChats := filter (fun c => ChatSession.id c <> id) (chats s) in
     SetChats (fun _ => newChats) ::
     (if bool_decide (currentChatId s = Some id)
      then [SetCurrentChatId (head (ChatSession.id <$> newChats))]
      else []), tt).
Proof.
  unfold deleteChat; unfold_handler.
  cbn zeta. case_bool_decide; [|reflexivity].
  destruct (filter _ _); reflexivity.
Qed.
End ThreadStore.

(** C1. When the newest thread (the head of the newest-first list) has
    no messages, [createNewChat] returns its id, makes it the current
    thread and leaves the thread list as it is, so the thread count does
    not grow; the same holds for any number of "new chat" clicks in a
    row. *)
Theorem C1_createNewChat_reuses_empty_thread
    (s : State) (mostRecent : ChatSession.t) (rest : list ChatSession.t)
    (now_id now_created : Z) (clicks : list (Z * Z)) :
  chats s = mostRecent :: rest ->
  ChatSession.messages mostRecent = [] ->
  let r := commit (createNewChat now_id now_created) s in
  r.1 = ChatSession.id mostRecent /\
  currentChatId r.2 = Some (ChatSession.id mostRecent) /\
  chats r.2 = chats s /\
  length (chats r.2) = length (chats s) /\
  chats (run s (map (fun t => ClickNewChat t.1 t.2) clicks)) = chats s.
Proof.
  intros Hc Hm. cbn zeta. unfold commit.
  rewrite (createNewChat_reuse _ _ _ _ _ Hc Hm).
  repeat split; try (destruct s; reflexivity).
  clear now_id now_created.
  revert s Hc. induction clicks as [|[a b] clicks IH]; intros s Hc;
    [reflexivity|].
  pose proof (step_new_chat_reuse s _ _ a b Hc Hm) as Hs.
  change (chats (run (step s (ClickNewChat a b))
                   (map (fun t => ClickNewChat t.1 t.2) clicks)) = chats s).
  rewrite IH; [exact Hs | congruence].
Qed.

Lemma C1_witness :
  chats two_chats = empty_chat :: [hello_chat] /\
  ChatSession.messages empty_chat = [] /\
  let r := commit (createNewChat 2000 2000) two_chats in
  r.1 = ChatSession.id empty_chat /\
  currentChatId r.2 = Some (ChatSession.id empty_chat) /\
  chats r.2 = chats two_chats /\
  length (chats r.2) = length (chats two_chats) /\
  chats (run two_chats
           (map (fun t => ClickNewChat t.1 t.2) [(2001, 2001); (2002, 2002)]))
  = chats two_chats.
Proof.
  split; [reflexivity|]. split; [reflexivity|].
  exact (C1_createNewChat_reuses_empty_thread two_chats empty_chat
           [hello_chat] 2000 2000 [(2001, 2001); (2002, 2002)]
           eq_refl eq_refl).
Defined.

(** C2. For a thread id present in the list, [deleteChat] keeps exactly
    the threads with another id, in their order (with ids unique, as the
    data model has them, that is the list without one element); when the
    deleted thread was the current one, the current thread becomes the
    head of the remaining list, or none when nothing remains; otherwise
    the selection is unchanged. *)
Theorem C2_deleteChat_removes_and_reselects (s : State) (id : jsstring) :
  (id ∈ (ChatSession.id <$> chats s)) ->
  let s' := (commit (deleteChat id) s).2 in
  step s (ClickDelete id) = s' /\
  chats s' = filter (fun c => ChatSession.id c <> id) (chats s) /\
  (id ∉ (ChatSession.id <$> chats s')) /\
  (NoDup (ChatSession.id <$> chats s) ->
   exists l1 c l2, chats s = l1 ++ c :: l2 /\ ChatSession.id c = id /\
                   chats s' = l1 ++ l2) /\
  (currentChatId s = Some id ->
   currentChatId s' = head (ChatSession.id <$> chats s')) /\
  (currentChatId s <> Some id -> currentChatId s' = currentChatId s).
Proof.
  intros Hin s'.
  assert (Hchats : chats s'
                   = filter (fun c => ChatSession.id c <> id) (chats s)).
  { subst s'. unfold commit. rewrite deleteChat_actions. cbn zeta.
    cbn [sets_chats existsb orb snd]. rewrite save_effect_chats.
    case_bool_decide; destruct s; reflexivity. }
  assert (Hcur : currentChatId s' =
                 if bool_decide (currentChatId s = Some id)
                 then head (ChatSession.id <$> chats s')
                 else currentChatId s).
  { rewrite Hchats. subst s'. unfold commit. rewrite deleteChat_actions.
    cbn zeta. cbn [sets_chats existsb orb snd].
    rewrite save_effect_currentChatId.
    case_bool_decide; destruct s; reflexivity. }
  split; [|split; [exact Hchats|split; [|split; [|split]]]].
  - cbn [step]. unfold has_row.
    rewrite bool_decide_eq_true_2 by exact Hin. reflexivity.
  - rewrite Hchats. intros (c & Hc & Hf)%list_elem_of_fmap.
    apply list_elem_of_filter in Hf as [Hne _]. congruence.
  - intros Hnd. apply list_elem_of_fmap in Hin as (c & -> & Hc).
    apply list_elem_of_split in Hc as (l1 & l2 & Heq).
    exists l1, c, l2. split; [exact Heq|split; [reflexivity|]].
    rewrite Hchats, Heq. rewrite Heq, fmap_app, fmap_cons in Hnd.
    apply NoDup_app in Hnd as (_ & Hl1 & Hnd).
    apply NoDup_cons in Hnd as [Hl2 _].
    rewrite filter_app, filter_cons_False by (intros H; apply H; reflexivity).
    rewrite !filter_all; [reflexivity| |].
    + apply Forall_forall. intros x Hx Heqx. apply Hl2. rewrite <- Heqx.
      by apply list_elem_of_fmap_2.
    + apply Forall_forall. intros x Hx Heqx.
      apply (Hl1 (ChatSession.id x)); [by apply list_elem_of_fmap_2|].
      rewrite Heqx. left.
  - intros Heq. rewrite Hcur, bool_decide_eq_true_2 by exact Heq.
    reflexivity.
  - intros Hne. rewrite Hcur, bool_decide_eq_false_2 by exact Hne.
    reflexivity.
Qed.

Lemma C2_witness :
  (lit "900" ∈ (ChatSession.id <$> chats two_chats)) /\
  let id := lit "900" in
  let s' := (commit (deleteChat id) two_chats).2 in
  step two_chats (ClickDelete id) = s' /\
  chats s' = filter (fun c => ChatSession.id c <> id) (chats two_chats) /\
  (id ∉ (ChatSession.id <$> chats s')) /\
  (NoDup (ChatSession.id <$> chats two_chats) ->
   exists l1 c l2, chats two_chats = l1 ++ c :: l2 /\ ChatSession.id c = id /\
                   chats s' = l1 ++ l2) /\
  (currentChatId two_chats = Some id ->
   currentChatId s' = head (ChatSession.id <$> chats s')) /\
  (currentChatId two_chats <> Some id ->
   currentChatId s' = currentChatId two_chats).
Proof.
  assert (Hin : lit "900" ∈ (ChatSession.id <$> chats two_chats))
    by (apply (bool_decide_unpack _); vm_compute; reflexivity).
  split; [exact Hin|].
  exact (C2_deleteChat_removes_and_reselects two_chats (lit "900") Hin).
Defined.

(** ** Submission *)

Section Submission.
Implicit Types (s : State).

Lemma handleTranslate_actions t1 t2 t3 s :
  truthy (trim (inputText s)) = true ->
  handleTranslate t1 t2 t3 s =
    ((ensure_active_chat t1 t2 s).1 ++
     [SetChats (fmap (append_user_message (ensure_active_chat t1 t2 s).2
                        (inputText s)
                        (userMsg_of t3 (inputText s) (sourceLang s))));
      SetInputText (fun _ => []);
      SetIsTranslating true;
      Fetch (mkPending (ensure_active_chat t1 t2 s).2
               (default (LANGUAGES_at 1) (find_language (targetLang s)))
               (mkBody (Some (inputText s)) (Some (targetLang s))
                  (Some (sourceLang s))))], tt).
Proof.
  intros H. unfold handleTranslate; unfold_handler. rewrite H. cbn [negb].
  destruct (ensure_active_chat t1 t2 s) as [acts cid]. reflexivity.
Qed.

(** A blank input is rejected: the handler does nothing. *)
Lemma handleTranslate_blank t1 t2 t3 s :
  truthy (trim (inputText s)) = false ->
  handleTranslate t1 t2 t3 s = ([], tt).
Proof.
  intros H. unfold handleTranslate; unfold_handler. rewrite H. reflexivity.
Qed.

Lemma submit_blank_rejected t1 t2 t3 s key shiftKey :
  truthy (trim (inputText s)) = false ->
  step s (KeyDown key shiftKey t1 t2 t3) = s /\
  step s (ClickSend t1 t2 t3) = s.
Proof.
  intros H. cbn [step]. unfold send_disabled, commit.
  rewrite handleTranslate_blank, H by exact H. cbn.
  destruct (_ && _); split; reflexivity.
Qed.

(** The send button is disabled while a request is in flight. *)
Lemma send_click_guarded t1 t2 t3 s :
  isTranslating s = true -> step s (ClickSend t1 t2 t3) = s.
Proof.
  intros H. cbn [step]. unfold send_disabled. rewrite H, orb_true_r.
  reflexivity.
Qed.

Lemma chats_handleTranslate t1 t2 t3 s :
  truthy (trim (inputText s)) = true ->
  chats (commit (handleTranslate t1 t2 t3) s).2 =
    append_user_message (ensure_active_chat t1 t2 s).2 (inputText s)
      (userMsg_of t3 (inputText s) (sourceLang s))
    <$> chats (apply_actions (ensure_active_chat t1 t2 s).1 s).
Proof.
  intros H. unfold commit. rewrite (handleTranslate_actions _ _ _ _ H).
  rewrite sets_chats_app. cbn [sets_chats existsb orb].
  rewrite orb_true_r. cbn [snd].
  rewrite save_effect_chats, apply_actions_app.
  destruct (apply_actions _ s). reflexivity.
Qed.

Lemma failure_throws o : is_failure o -> exists e, try_response o = inl e.
Proof. destruct o as [| |[]]; cbn; intros H; try contradiction; eauto. Qed.

(** A failure reported by the upstream service, or an upstream call
    that rejects, reaches the page as a failed translation call. *)
Lemma upstream_failure_is_failure axios_get body :
  (forall req, match axios_get req with
               | AxiosResolved 200 _ (Some _) => False
               | _ => True
               end) ->
  is_failure (Resolved (POST axios_get body).2).
Proof.
  intros H. unfold POST.
  destruct (body_text body) as [text|]; [|exact I].
  destruct (body_targetLang body) as [tl|]; [|exact I].
  destruct (negb (truthy text) || negb (truthy tl)); [exact I|].
  destruct (body_sourceLang body) as [sl|]; [|exact I].
  cbn zeta.
  match goal with
  | |- context [axios_get ?r] =>
      specialize (H r); destruct (axios_get r) as [|st d t]
  end; [exact I|].
  case_bool_decide; [exact I|].
  assert (st = 200) as -> by (destruct (decide (st = 200)); congruence).
  destruct t; [contradiction|exact I].
Qed.
End Submission.

(** C9. A submission adds the user message to every thread with the
    active id; a thread that had no messages gets as title the first 30
    code units of the text followed by three dots, a thread that had
    messages keeps its title; the assistant and error messages never
    change a title; and submitting "Hello" in a fresh page gives the
    title "Hello...". *)
Theorem C9_first_message_sets_title
    (s : State) (now_chat_id now_chat_created now_msg : Z) :
  truthy (trim (inputText s)) = true ->
  let activeChatId := (ensure_active_chat now_chat_id now_chat_created s).2 in
  let before :=
    chats (apply_actions
             (ensure_active_chat now_chat_id now_chat_created s).1 s) in
  let s' :=
    (commit (handleTranslate now_chat_id now_chat_created now_msg) s).2 in
  let userMsg := userMsg_of now_msg (inputText s) (sourceLang s) in
  Forall2 (fun chat chat' =>
    if bool_decide (ChatSession.id chat = activeChatId) then
      ChatSession.messages chat' = ChatSession.messages chat ++ [userMsg] /\
      ChatSession.title chat' =
        match ChatSession.messages chat with
        | [] => take 30 (inputText s) ++ lit "..."
        | _ :: _ => ChatSession.title chat
        end
    else chat' = chat) before (chats s') /\
  (forall st i o now,
     Forall2 (fun chat chat' => ChatSession.title chat' = ChatSession.title chat)
       (chats st) (chats (step st (Settle i o now)))) /\
  ChatSession.title <$> chats (run (initial ∅) hello_events) = [lit "Hello..."].
Proof.
  intros H activeChatId before s' userMsg. split; [|split].
  - subst s'. rewrite (chats_handleTranslate _ _ _ _ H).
    apply Forall2_fmap_self. intros chat. unfold append_user_message.
    fold activeChatId. case_bool_decide; [|reflexivity]. cbn.
    split; [reflexivity|]. destruct (ChatSession.messages chat); reflexivity.
  - intros st i o now. cbn [step].
    destruct (inflight st !! i) as [p|];
      [|apply Forall2_same_length_lookup; split;
        [reflexivity|intros; congruence]].
    unfold commit, handleTranslate_settled, try_catch_finally; unfold_handler.
    destruct (try_response o); cbn [fst snd app sets_chats existsb orb];
      rewrite save_effect_chats; destruct st; cbn;
      apply Forall2_fmap_self; intros chat; unfold append_message;
      case_bool_decide; reflexivity.
  - vm_compute. reflexivity.
Qed.

Lemma C9_witness :
  truthy (trim (inputText two_chats)) = true /\
  let s := two_chats in
  let activeChatId := (ensure_active_chat 2000 2000 s).2 in
  let before := chats (apply_actions (ensure_active_chat 2000 2000 s).1 s) in
  let s' := (commit (handleTranslate 2000 2000 2001) s).2 in
  let userMsg := userMsg_of 2001 (inputText s) (sourceLang s) in
  Forall2 (fun chat chat' =>
    if bool_decide (ChatSession.id chat = activeChatId) then
      ChatSession.messages chat' = ChatSession.messages chat ++ [userMsg] /\
      ChatSession.title chat' =
        match ChatSession.messages chat with
        | [] => take 30 (inputText s) ++ lit "..."
        | _ :: _ => ChatSession.title chat
        end
    else chat' = chat) before (chats s') /\
  (forall st i o now,
     Forall2 (fun chat chat' => ChatSession.title chat' = ChatSession.title chat)
       (chats st) (chats (step st (Settle i o now)))) /\
  ChatSession.title <$> chats (run (initial ∅) hello_events) = [lit "Hello..."].
Proof.
  split; [reflexivity|].
  exact (C9_first_message_sets_title two_chats 2000 2000 2001 eq_refl).
Defined.

(** C3. The Enter key submits while a request is in flight.  After a
    first message is sent and a second text typed, [isTranslating] is
    true, one request is in flight and the send button is disabled; the
    Enter key still runs [handleTranslate], which adds the second user
    message and issues a second request. *)
Theorem C3_enter_key_submits_while_in_flight :
  let s := run (initial ∅) two_enter_events in
  let s' := step s (KeyDown (lit "Enter") false 2000 2000 2000) in
  isTranslating s = true /\ length (inflight s) = 1%nat /\
  send_disabled s = true /\
  length (inflight s') = 2%nat /\
  length <$> (ChatSession.messages <$> chats s) = [1%nat] /\
  length <$> (ChatSession.messages <$> chats s') = [2%nat].
Proof. vm_compute. repeat split. Qed.

(** A thread list without the id is left alone by the updater. *)
Lemma fmap_append_message_absent cid m (l : list ChatSession.t) :
  cid ∉ (ChatSession.id <$> l) -> append_message cid m <$> l = l.
Proof.
  induction l as [|c l IH]; [reflexivity|]. cbn [fmap list_fmap].
  intros H. apply not_elem_of_cons in H as [Hc Hl].
  fold (fmap (M:=list) ChatSession.id l) in Hl.
  unfold append_message at 1. rewrite bool_decide_eq_false_2 by congruence.
  f_equal. apply IH, Hl.
Qed.

(** C4, as it is stated, fails.  A message is submitted in a fresh page
    and its thread is deleted while the request is in flight; the
    request then fails.  No thread has the id the continuation captured,
    so the updater of the [catch] block changes nothing: the thread list
    stays as it was and no thread holds the error message. *)
Theorem C4_deleted_thread_gains_no_error_message :
  let s := deleted_in_flight in
  let s' := step s (Settle 0 FetchRejected 1200) in
  inflight s !! 0%nat = Some in_flight_request /\
  is_failure FetchRejected /\
  currentChatId s = None /\
  chats s' = chats s /\
  ~ (exists chat, chat ∈ chats s' /\
                  errorMsg_of 1200 ∈ ChatSession.messages chat).
Proof.
  assert (H : chats (step deleted_in_flight (Settle 0 FetchRejected 1200)) = [])
    by (vm_compute; reflexivity).
  cbn zeta. rewrite H.
  split; [vm_compute; reflexivity|]. split; [exact I|].
  split; [vm_compute; reflexivity|]. split; [vm_compute; reflexivity|].
  intros (chat & Hin & _). inversion Hin.
Qed.

(** C4, corrected.  When the translation call of a request in flight
    fails (the fetch rejects, the body is not JSON, or the response is
    not OK), the continuation ends normally and [isTranslating] is false
    again.  Every thread with the id that was active at submission gains
    exactly the error message (role assistant, the fixed fallback text,
    label "System", which is no language label) and every other thread
    is unchanged: if a thread with that id is still in the list, it is
    in the list afterwards with the error message as its last message;
    if it was deleted meanwhile, the thread list is unchanged and the
    error message is shown nowhere. *)
Theorem C4_failed_translation_appends_error_message
    (s : State) (i : nat) (p : Pending) (o : FetchOutcome) (now : Z) :
  inflight s !! i = Some p ->
  is_failure o ->
  let s' := step s (Settle i o now) in
  let errorMsg := errorMsg_of now in
  (handleTranslate_settled p o now (set_inflight (delete i (inflight s)) s)).2
    = inr tt /\
  Forall2 (fun chat chat' =>
    if bool_decide (ChatSession.id chat = activeChatId p) then
      chat' = ChatSession.mk (ChatSession.id chat) (ChatSession.title chat)
                (ChatSession.messages chat ++ [errorMsg])
                (ChatSession.createdAt chat)
    else chat' = chat) (chats s) (chats s') /\
  (activeChatId p ∈ ChatSession.id <$> chats s ->
   exists chat,
     chat ∈ chats s /\ ChatSession.id chat = activeChatId p /\
     ChatSession.mk (ChatSession.id chat) (ChatSession.title chat)
       (ChatSession.messages chat ++ [errorMsg]) (ChatSession.createdAt chat)
     ∈ chats s') /\
  (activeChatId p ∉ ChatSession.id <$> chats s -> chats s' = chats s) /\
  Message.role errorMsg = assistant /\
  Message.text errorMsg = fallback_error_text /\
  Message.langLabel errorMsg = lit "System" /\
  (lit "System" ∉ (label <$> LANGUAGES)) /\
  isTranslating s' = false.
Proof.
  intros Hp Ho s' errorMsg. destruct (failure_throws o Ho) as [e He].
  subst s'. cbn [step]. rewrite Hp.
  unfold commit, handleTranslate_settled, try_catch_finally; unfold_handler.
  rewrite He. cbn [fst snd app sets_chats existsb orb].
  rewrite save_effect_chats, save_effect_isTranslating.
  match goal with
  | |- context [chats ?st] =>
      lazymatch st with
      | apply_actions _ _ =>
          assert (Hc : chats st
                       = append_message (activeChatId p) errorMsg <$> chats s)
            by (destruct s; reflexivity);
          rewrite !Hc
      end
  end.
  split; [reflexivity|]. split.
  { apply Forall2_fmap_self. intros chat.
    unfold append_message. case_bool_decide; reflexivity. }
  split.
  { intros Hin. apply list_elem_of_fmap in Hin as (chat & Hid & Hin).
    exists chat. split; [exact Hin|]. split; [congruence|].
    apply list_elem_of_fmap. exists chat. split; [|exact Hin].
    unfold append_message. rewrite bool_decide_eq_true_2 by congruence.
    reflexivity. }
  split; [apply fmap_append_message_absent|].
  split; [reflexivity|]. split; [reflexivity|]. split; [reflexivity|].
  split; [|destruct s; reflexivity].
  apply (bool_decide_unpack _). vm_compute. reflexivity.
Qed.

Lemma C4_witness :
  inflight one_in_flight !! 0%nat = Some in_flight_request /\
  is_failure FetchRejected /\
  let s := one_in_flight in
  let p := in_flight_request in
  let s' := step s (Settle 0 FetchRejected 1200) in
  let errorMsg := errorMsg_of 1200 in
  (handleTranslate_settled p FetchRejected 1200
     (set_inflight (delete 0%nat (inflight s)) s)).2 = inr tt /\
  Forall2 (fun chat chat' =>
    if bool_decide (ChatSession.id chat = activeChatId p) then
      chat' = ChatSession.mk (ChatSession.id chat) (ChatSession.title chat)
                (ChatSession.messages chat ++ [errorMsg])
                (ChatSession.createdAt chat)
    else chat' = chat) (chats s) (chats s') /\
  (activeChatId p ∈ ChatSession.id <$> chats s ->
   exists chat,
     chat ∈ chats s /\ ChatSession.id chat = activeChatId p /\
     ChatSession.mk (ChatSession.id chat) (ChatSession.title chat)
       (ChatSession.messages chat ++ [errorMsg]) (ChatSession.createdAt chat)
     ∈ chats s') /\
  (activeChatId p ∉ ChatSession.id <$> chats s -> chats s' = chats s) /\
  Message.role errorMsg = assistant /\
  Message.text errorMsg = fallback_error_text /\
  Message.langLabel errorMsg = lit "System" /\
  (lit "System" ∉ (label <$> LANGUAGES)) /\
  isTranslating s' = false.
Proof.
  split; [vm_compute; reflexivity|]. split; [exact I|].
  exact (C4_failed_translation_appends_error_message one_in_flight 0
           in_flight_request FetchRejected 1200 eq_refl I).
Defined.

(** C10. Message ids collide.  The reply to a first message is stamped
    with its arrival time plus one (1200 + 1); a second message sent one
    millisecond after the reply arrived (1201) gets the same id, so the
    thread holds two messages with id "1201". *)
Theorem C10_message_ids_collide :
  let thread_ids :=
    (fun c => Message.id <$> ChatSession.messages c)
    <$> chats (run (initial ∅) collision_events) in
  thread_ids = [[lit "1000"; lit "1201"; lit "1201"]] /\
  ~ Forall (NoDup (A:=jsstring)) thread_ids.
Proof.
  assert (H : (fun c => Message.id <$> ChatSession.messages c)
              <$> chats (run (initial ∅) collision_events)
              = [[lit "1000"; lit "1201"; lit "1201"]])
    by (vm_compute; reflexivity).
  cbn zeta. rewrite H. split; [reflexivity|].
  intros Hall. apply Forall_cons in Hall as [Hnd _].
  apply NoDup_cons in Hnd as [_ Hnd]. apply NoDup_cons in Hnd as [Hn _].
  apply Hn. left.
Qed.

(** ** The translate route *)

Section Route.
Lemma split_primary_subtag s : nth 0 (split 45 s) [] = primary_subtag s.
Proof.
  induction s as [|c r IH]; [reflexivity|]. cbn [split primary_subtag].
  destruct (c =? 45)%N; [reflexivity|].
  destruct (split 45 r) as [|h t]; cbn in *; rewrite <- IH; reflexivity.
Qed.

Lemma primary_subtag_spec code :
  is_primary_subtag_of (primary_subtag code) code.
Proof.
  induction code as [|c r [Hn Hs]];
    [split; [apply not_elem_of_nil|left; reflexivity]|].
  cbn [primary_subtag]. destruct (N.eqb_spec c 45) as [->|Hc].
  - split; [apply not_elem_of_nil|right; exists r; reflexivity].
  - split.
    + intros [?|?]%elem_of_cons; [congruence|contradiction].
    + destruct Hs as [Hs|[rest Hs]];
        [left; congruence|right; exists rest; cbn; congruence].
Qed.
End Route.

(** C5. For a request with a text and a target code, the route issues
    one upstream request whose [langpair] is [source|target], where
    [target] is the part of the target code before its first hyphen and
    [source] is the same part of the source code, except that the source
    code "auto" gives "en"; "en-US" and "en-GB" both reduce to "en". *)
Theorem C5_langpair_uses_primary_subtags
    (axios_get : AxiosRequest -> AxiosResult)
    (text sourceLang targetLang : jsstring) :
  truthy text = true ->
  truthy targetLang = true ->
  exists source target,
    (POST axios_get (mkBody (Some text) (Some targetLang) (Some sourceLang))).1
    = [mkRequest (lit "https://api.mymemory.translated.net/get") text
         (source ++ lit "|" ++ target)] /\
    is_primary_subtag_of target targetLang /\
    (sourceLang <> lit "auto" -> is_primary_subtag_of source sourceLang) /\
    (sourceLang = lit "auto" -> source = lit "en" /\ source <> lit "auto") /\
    primary_subtag (lit "en-US") = lit "en" /\
    primary_subtag (lit "en-GB") = lit "en" /\
    primary_subtag (lit "fr-FR") = lit "fr".
Proof.
  intros Ht Htl.
  exists (if bool_decide (sourceLang = lit "auto") then lit "en"
          else primary_subtag sourceLang), (primary_subtag targetLang).
  split.
  { unfold POST. cbn [body_text body_targetLang body_sourceLang].
    rewrite Ht, Htl. cbn [negb orb]. rewrite !split_primary_subtag.
    destruct (axios_get _) as [|st d [t|]]; [reflexivity|..];
      case_bool_decide; reflexivity. }
  split; [apply primary_subtag_spec|].
  split; [intros Hne; rewrite bool_decide_eq_false_2 by exact Hne;
          apply primary_subtag_spec|].
  split; [intros ->; rewrite bool_decide_eq_true_2 by reflexivity;
          split; [reflexivity|discriminate]|].
  repeat split.
Qed.

Lemma C5_witness :
  truthy (lit "Hello") = true /\
  truthy (lit "fr-FR") = true /\
  exists source target,
    (POST (fun _ => AxiosRejected)
       (mkBody (Some (lit "Hello")) (Some (lit "fr-FR")) (Some (lit "auto")))).1
    = [mkRequest (lit "https://api.mymemory.translated.net/get") (lit "Hello")
         (source ++ lit "|" ++ target)] /\
    is_primary_subtag_of target (lit "fr-FR") /\
    (lit "auto" <> lit "auto" -> is_primary_subtag_of source (lit "auto")) /\
    (lit "auto" = lit "auto" -> source = lit "en" /\ source <> lit "auto") /\
    primary_subtag (lit "en-US") = lit "en" /\
    primary_subtag (lit "en-GB") = lit "en" /\
    primary_subtag (lit "fr-FR") = lit "fr".
Proof.
  split; [reflexivity|]. split; [reflexivity|].
  exact (C5_langpair_uses_primary_subtags (fun _ => AxiosRejected)
           (lit "Hello") (lit "auto") (lit "fr-FR") eq_refl eq_refl).
Defined.

(** ** [JSON.parse] after [JSON.stringify] *)

Section Strings.
Lemma hex_value_digit d : (d < 16)%N -> hex_value (hex_digit d) = Some d.
Proof.
  intros H.
  assert (Hd : In d (map N.of_nat (seq 0 16))).
  { apply in_map_iff. exists (N.to_nat d). split; [lia|].
    apply in_seq. lia. }
  cbn in Hd. repeat (destruct Hd as [<-|Hd]; [reflexivity|]). destruct Hd.
Qed.

Lemma hex4_value c :
  (c < 65536)%N ->
  ((((c / 4096 mod 16) * 16 + c / 256 mod 16) * 16 + c / 16 mod 16) * 16
   + c mod 16)%N = c.
Proof.
  intros H.
  pose proof (N.div_mod c 16 ltac:(discriminate)) as H0.
  pose proof (N.div_mod (c / 16) 16 ltac:(discriminate)) as H1.
  pose proof (N.div_mod (c / 16 / 16) 16 ltac:(discriminate)) as H2.
  rewrite N.Div0.div_div in H1, H2. rewrite N.Div0.div_div in H2.
  change (16 * 16)%N with 256%N in *.
  change (256 * 16)%N with 4096%N in *.
  assert (c / 4096 < 16)%N by (apply N.Div0.div_lt_upper_bound; lia).
  rewrite (N.mod_small (c / 4096) 16) by assumption.
  lia.
Qed.

Lemma parse_chars_unicode_escape c s :
  (c < 65536)%N ->
  parse_chars (unicode_escape c ++ s) =
    '(str, rest) ← parse_chars s; Some (c :: str, rest).
Proof.
  intros H. unfold unicode_escape. cbn [app parse_chars N.eqb Pos.eqb].
  rewrite !hex_value_digit by (apply N.mod_lt; discriminate).
  cbn [mbind option_bind]. rewrite hex4_value by assumption. reflexivity.
Qed.

Lemma short_escape_simple c e :
  short_escape c = Some e ->
  (e =? 117)%N = false /\ simple_escape e = Some c.
Proof.
  unfold short_escape.
  repeat (case_eqb c; [intros [= <-]; split; reflexivity|]).
  discriminate.
Qed.

Lemma short_escape_None c :
  short_escape c = None -> (c =? 34)%N = false /\ (c =? 92)%N = false.
Proof.
  unfold short_escape.
  repeat (case_eqb c; [discriminate|]).
  intros _. split; first [reflexivity | apply N.eqb_neq; assumption].
Qed.

Lemma parse_chars_literal c s :
  (c =? 34)%N = false -> (c =? 92)%N = false -> (c <? 32)%N = false ->
  parse_chars (c :: s) = '(str, rest) ← parse_chars s; Some (c :: str, rest).
Proof.
  intros H1 H2 H3. cbn [parse_chars]. rewrite H1, H2, H3. reflexivity.
Qed.

Lemma surrogate_lt c :
  is_high_surrogate c || is_low_surrogate c = true -> (c < 65536)%N.
Proof.
  unfold is_high_surrogate, is_low_surrogate. intros H.
  apply orb_true_iff in H as [H|H]; apply andb_true_iff in H as [_ H];
    apply N.leb_le in H; lia.
Qed.

(** Every string is read back from its quoted form, whatever follows
    the closing quote. *)
Lemma parse_chars_quote_units s rest :
  parse_chars (quote_units s ++ 34%N :: rest) = Some (s, rest).
Proof.
  remember (length s) as n eqn:Hn. revert s Hn.
  induction n as [n IH] using lt_wf_ind. intros s Hn.
  destruct s as [|c r]; [reflexivity|].
  assert (IHr : parse_chars (quote_units r ++ 34%N :: rest) = Some (r, rest)).
  { apply (IH (length r)); [cbn in Hn; lia | reflexivity]. }
  cbn [quote_units].
  destruct (short_escape c) as [e|] eqn:He.
  { apply short_escape_simple in He as [He1 He2].
    cbn [app parse_chars N.eqb Pos.eqb]. rewrite He1, He2.
    cbn [mbind option_bind]. rewrite IHr. reflexivity. }
  apply short_escape_None in He as [Hq Hb].
  destruct (c <? 32)%N eqn:Hlt.
  { rewrite <- app_assoc, parse_chars_unicode_escape
      by (apply N.ltb_lt in Hlt; lia).
    rewrite IHr. reflexivity. }
  destruct (is_high_surrogate c) eqn:Hh.
  { destruct r as [|d r'].
    - rewrite parse_chars_unicode_escape
        by (apply surrogate_lt; rewrite Hh; reflexivity).
      reflexivity.
    - destruct (is_low_surrogate d) eqn:Hl.
      + cbn [app]. rewrite parse_chars_literal by assumption.
        rewrite parse_chars_literal
          by (apply andb_true_iff in Hl as [Hl _]; apply N.leb_le in Hl;
              first [apply N.eqb_neq | apply N.ltb_ge]; lia).
        rewrite (IH (length r')); [reflexivity | cbn in Hn; lia | reflexivity].
      + rewrite <- app_assoc, parse_chars_unicode_escape
          by (apply surrogate_lt; rewrite Hh; reflexivity).
        rewrite IHr. reflexivity. }
  destruct (is_low_surrogate c) eqn:Hl.
  { rewrite <- app_assoc, parse_chars_unicode_escape
      by (apply surrogate_lt; rewrite Hl; apply orb_true_r).
    rewrite IHr. reflexivity. }
  cbn [app]. rewrite parse_chars_literal by assumption.
  rewrite IHr. reflexivity.
Qed.

Lemma parse_chars_QuoteJSONString s rest :
  exists tl, QuoteJSONString s ++ rest = 34%N :: tl /\
             parse_chars tl = Some (s, rest).
Proof.
  exists (quote_units s ++ 34%N :: rest). split.
  - unfold QuoteJSONString. cbn [app]. rewrite <- app_assoc. reflexivity.
  - apply parse_chars_quote_units.
Qed.
End Strings.

Section Numbers.
Lemma uint_units_digits d :
  Forall (fun c => is_digit c = true) (uint_units d).
Proof. induction d; constructor; auto. Qed.

Lemma units_uint_units d : units_uint (uint_units d) = d.
Proof. induction d; cbn; congruence. Qed.

Lemma span_digits_app ds rest :
  Forall (fun c => is_digit c = true) ds ->
  match rest with c :: _ => is_digit c = false | [] => True end ->
  span_digits (ds ++ rest) = (ds, rest).
Proof.
  intros Hds Hrest. induction Hds as [|c ds Hc _ IH]; cbn [app span_digits].
  - destruct rest as [|c r]; [reflexivity|]. cbn [span_digits].
    rewrite Hrest. reflexivity.
  - rewrite Hc, IH. reflexivity.
Qed.

Lemma number_terminated_digit rest :
  number_terminated rest = true ->
  match rest with c :: _ => is_digit c = false | [] => True end.
Proof.
  destruct rest as [|c r]; [trivial|]. cbn. intros H.
  apply negb_true_iff in H. repeat (apply orb_false_iff in H as [H _]).
  exact H.
Qed.

Lemma parse_fraction_terminated rest :
  number_terminated rest = true -> parse_fraction rest = Some ([], rest).
Proof.
  destruct rest as [|c r]; [reflexivity|]. cbn. intros H.
  apply negb_true_iff in H. repeat (apply orb_false_iff in H as [H ?]).
  replace (c =? 46)%N with false by congruence. reflexivity.
Qed.

Lemma parse_exponent_terminated rest :
  number_terminated rest = true -> parse_exponent rest = Some ([], rest).
Proof.
  destruct rest as [|c r]; [reflexivity|]. cbn. intros H.
  apply negb_true_iff in H. repeat (apply orb_false_iff in H as [H ?]).
  replace (c =? 101)%N with false by congruence.
  replace (c =? 69)%N with false by congruence. reflexivity.
Qed.

Lemma parse_numeral_units neg d rest :
  d <> Decimal.Nil ->
  (forall d', d = Decimal.D0 d' -> d' = Decimal.Nil) ->
  number_terminated rest = true ->
  parse_numeral neg (uint_units d ++ rest) =
    Some (JNumber (if neg then - Z.of_uint d else Z.of_uint d), rest).
Proof.
  intros Hnil Hzero Hrest. unfold parse_numeral.
  rewrite span_digits_app
    by (apply uint_units_digits || apply number_terminated_digit, Hrest).
  assert (Hlead : match uint_units d with
                  | c :: ds => (c =? 48)%N && truthy ds = false
                  | [] => False
                  end).
  { destruct d as [|d'|d'|d'|d'|d'|d'|d'|d'|d'|d']; try reflexivity;
      [congruence|]. rewrite (Hzero d' eq_refl). reflexivity. }
  destruct (uint_units d) as [|c ds] eqn:Hu; [contradiction|].
  rewrite Hlead, parse_fraction_terminated by exact Hrest.
  cbn [mbind option_bind]. rewrite parse_exponent_terminated by exact Hrest.
  cbn [mbind option_bind truthy orb]. unfold digits_value.
  rewrite <- Hu, units_uint_units. reflexivity.
Qed.

(** The decimal digits of a positive number do not start with 0. *)
Lemma pos_to_uint_shape p :
  Pos.to_uint p <> Decimal.Nil /\ forall d', Pos.to_uint p <> Decimal.D0 d'.
Proof.
  split; [apply Unsigned.to_uint_nonnil|]. intros d' H.
  pose proof (Unsigned.to_of (Pos.to_uint p)) as Hn.
  rewrite Unsigned.of_to in Hn. cbn [N.to_uint] in Hn.
  destruct (Decimal.nzhead (Pos.to_uint p)) eqn:Hz;
    [unfold Decimal.unorm in Hn; rewrite Hz in Hn;
     exact (Unsigned.to_uint_nonzero p Hn) | ..];
    (rewrite unorm_nzhead in Hn by (rewrite Hz; discriminate);
     rewrite H in Hn at 1; symmetry in Hn; exact (nzhead_nonzero _ _ Hn)).
Qed.

Lemma Z_of_uint_pos p : Z.of_uint (Pos.to_uint p) = Z.pos p.
Proof. unfold Z.of_uint. rewrite Unsigned.of_to. reflexivity. Qed.

Lemma uint_units_cons p :
  exists c ds, uint_units (Pos.to_uint p) = c :: ds /\ is_digit c = true.
Proof.
  destruct (pos_to_uint_shape p) as [Hnil _].
  pose proof (uint_units_digits (Pos.to_uint p)) as Hd.
  destruct (Pos.to_uint p); [congruence| ..]; cbn in *;
    eexists _, _; (split; [reflexivity|]);
    apply Forall_cons in Hd as [Hd _]; exact Hd.
Qed.

Lemma Number_toString_head n :
  exists c tl,
    Number_toString n = c :: tl /\ (is_digit c = true \/ c = 45%N).
Proof.
  unfold Number_toString. destruct n as [|p|p]; cbn [Z.to_int].
  - exists 48%N, []. split; [reflexivity|left; reflexivity].
  - destruct (uint_units_cons p) as (c & ds & Hu & Hc). exists c, ds. auto.
  - eexists _, _. split; [reflexivity|right; reflexivity].
Qed.

(** Every integer is read back from its decimal form. *)
Lemma parse_number_toString n rest :
  number_terminated rest = true ->
  parse_number (Number_toString n ++ rest) = Some (JNumber n, rest).
Proof.
  intros Hrest. unfold Number_toString.
  destruct n as [|p|p]; cbn [Z.to_int].
  - change (uint_units (Decimal.D0 Decimal.Nil) ++ rest) with (48%N :: rest).
    cbn [parse_number N.eqb Pos.eqb].
    apply (parse_numeral_units false (Decimal.D0 Decimal.Nil));
      [discriminate | congruence | exact Hrest].
  - destruct (pos_to_uint_shape p) as [Hnil Hz].
    destruct (uint_units_cons p) as (c & ds & Hu & Hc).
    unfold parse_number. rewrite Hu. cbn [app].
    replace (c =? 45)%N with false
      by (symmetry; apply N.eqb_neq; unfold is_digit in Hc;
          apply andb_true_iff in Hc as [Hc _]; apply N.leb_le in Hc; lia).
    change (c :: ds ++ rest) with ((c :: ds) ++ rest). rewrite <- Hu.
    rewrite parse_numeral_units;
      [rewrite Z_of_uint_pos; reflexivity | exact Hnil | | exact Hrest].
    intros d' H. destruct (Hz d' H).
  - destruct (pos_to_uint_shape p) as [Hnil Hz].
    cbn [app parse_number N.eqb Pos.eqb].
    rewrite parse_numeral_units;
      [rewrite Z_of_uint_pos; reflexivity | exact Hnil | | exact Hrest].
    intros d' H. destruct (Hz d' H).
Qed.

Lemma number_head_cases c :
  is_digit c = true \/ c = 45%N ->
  In c (map N.of_nat (45 :: seq 48 10))%nat.
Proof.
  intros [H| ->]; [|left; reflexivity]. right.
  apply andb_true_iff in H as [H1 H2].
  apply N.leb_le in H1, H2. apply in_map_iff. exists (N.to_nat c).
  split; [lia|]. apply in_seq. lia.
Qed.

(** A digit or a minus sign sends [parse_value] to the number parser. *)
Lemma number_head_dispatch c r fuel :
  is_digit c = true \/ c = 45%N ->
  parse_value (S fuel) (c :: r) = parse_number (c :: r).
Proof.
  intros H. apply number_head_cases in H. cbn in H.
  repeat (destruct H as [<-|H]; [reflexivity|]). destruct H.
Qed.
End Numbers.

Section Values.
Lemma json_nested_ind (P : json -> Prop) :
  P JNull -> (forall b, P (JBool b)) -> (forall n, P (JNumber n)) ->
  (forall t, P (JNumeral t)) -> (forall s, P (JString s)) ->
  (forall items, Forall P items -> P (JArray items)) ->
  (forall members, Forall (fun m => P m.2) members -> P (JObject members)) ->
  forall v, P v.
Proof.
  intros Hnull Hbool Hnum Hnumeral Hstr Harr Hobj.
  fix IH 1. intros [ |b|n|t|s|items|members].
  - exact Hnull.
  - apply Hbool.
  - apply Hnum.
  - apply Hnumeral.
  - apply Hstr.
  - apply Harr.
    induction items as [|x xs IHxs]; constructor; [apply IH | exact IHxs].
  - apply Hobj.
    induction members as [|[k x] ms IHms]; constructor;
      [apply IH | exact IHms].
Qed.

(** A printed value starts with a character that is neither white
    space nor a closing bracket. *)
Lemma stringify_head v rest :
  plain v = true ->
  exists c tl, stringify_value v ++ rest = c :: tl /\
               is_json_ws c = false /\
               (c =? 93)%N = false /\ (c =? 125)%N = false.
Proof.
  destruct v as [ |[]|n|t|s|items|members]; cbn [plain]; intros Hp;
    try discriminate;
    try (eexists _, _; split; [reflexivity|repeat split]).
  destruct (Number_toString_head n) as (c & tl & Hn & Hc).
  exists c, (tl ++ rest). cbn [stringify_value]. rewrite Hn.
  split; [reflexivity|].
  apply number_head_cases in Hc. cbn in Hc.
  repeat (destruct Hc as [<-|Hc]; [repeat split|]). destruct Hc.
Qed.

Lemma skip_ws_head c tl : is_json_ws c = false -> skip_ws (c :: tl) = c :: tl.
Proof. intros H. cbn. rewrite H. reflexivity. Qed.

Lemma parse_elements_join x xs fuel rest :
  Forall roundtrips (x :: xs) ->
  forallb plain (x :: xs) = true ->
  (fold_right (fun x acc => S (cost x + acc)) 0 (x :: xs) <= fuel)%nat ->
  parse_elements fuel
    (join_comma (map stringify_value (x :: xs)) ++ 93%N :: rest)
  = Some (x :: xs, rest).
Proof.
  revert x fuel. induction xs as [|y ys IH]; intros x fuel Hall Hp Hfuel.
  - cbn in Hfuel. destruct fuel as [|fuel]; [lia|].
    apply Forall_cons in Hall as [Hx _]. cbn in Hp.
    apply andb_true_iff in Hp as [Hp _].
    cbn [map join_comma parse_elements].
    rewrite (Hx Hp) by (reflexivity || lia). reflexivity.
  - cbn [fold_right] in Hfuel. destruct fuel as [|fuel]; [lia|].
    apply Forall_cons in Hall as [Hx Hall].
    cbn [forallb] in Hp. apply andb_true_iff in Hp as [Hpx Hp].
    change (join_comma (map stringify_value (x :: y :: ys)))
      with (stringify_value x
            ++ 44%N :: join_comma (map stringify_value (y :: ys))).
    rewrite <- app_assoc. cbn [parse_elements].
    rewrite (Hx Hpx) by (reflexivity || lia).
    cbn [mbind option_bind app skip_ws is_json_ws N.eqb Pos.eqb orb].
    rewrite IH by (assumption || (cbn [fold_right]; lia)). reflexivity.
Qed.

Lemma parse_member_head k x tl fuel :
  roundtrips x -> plain x = true -> (cost x <= fuel)%nat ->
  number_terminated tl = true ->
  exists r0,
    stringify_member (k, x) ++ tl = 34%N :: r0 /\
    parse_chars r0 = Some (k, 58%N :: stringify_value x ++ tl) /\
    parse_value fuel (stringify_value x ++ tl) = Some (x, tl).
Proof.
  intros Hx Hp Hfuel Htl.
  destruct (parse_chars_QuoteJSONString k (58%N :: stringify_value x ++ tl))
    as (r0 & Hq & Hr0).
  exists r0. unfold stringify_member. cbn [fst snd].
  rewrite <- app_assoc. cbn [app]. rewrite Hq. split; [reflexivity|].
  split; [exact Hr0|]. apply (Hx Hp); assumption.
Qed.

Lemma parse_members_join m ms fuel rest :
  Forall (fun m => roundtrips m.2) (m :: ms) ->
  forallb (fun m => plain m.2) (m :: ms) = true ->
  (fold_right (fun m acc => S (cost m.2 + acc)) 0 (m :: ms) <= fuel)%nat ->
  parse_members fuel
    (join_comma (map stringify_member (m :: ms)) ++ 125%N :: rest)
  = Some (m :: ms, rest).
Proof.
  revert m fuel.
  induction ms as [|m' ms IH]; intros [k x] fuel Hall Hp Hfuel.
  - cbn in Hfuel. destruct fuel as [|fuel]; [lia|].
    apply Forall_cons in Hall as [Hx _]. cbn in Hp.
    apply andb_true_iff in Hp as [Hp _].
    cbn [map join_comma].
    destruct (parse_member_head k x (125%N :: rest) fuel Hx Hp)
      as (r0 & -> & Hr0 & Hv); [lia|reflexivity|].
    cbn [parse_members skip_ws is_json_ws N.eqb Pos.eqb orb].
    rewrite Hr0.
    cbn [mbind option_bind skip_ws is_json_ws N.eqb Pos.eqb orb].
    rewrite Hv. reflexivity.
  - cbn [fold_right snd] in Hfuel. destruct fuel as [|fuel]; [lia|].
    apply Forall_cons in Hall as [Hx Hall].
    cbn [forallb] in Hp. apply andb_true_iff in Hp as [Hpx Hp].
    change (join_comma (map stringify_member ((k, x) :: m' :: ms)))
      with (stringify_member (k, x)
            ++ 44%N :: join_comma (map stringify_member (m' :: ms))).
    rewrite <- app_assoc. cbn [app].
    destruct (parse_member_head k x
                (44%N :: join_comma (map stringify_member (m' :: ms))
                 ++ 125%N :: rest) fuel Hx Hpx)
      as (r0 & Heq & Hr0 & Hv); [lia|reflexivity|].
    cbn [app] in Heq. rewrite Heq.
    cbn [parse_members skip_ws is_json_ws N.eqb Pos.eqb orb].
    rewrite Hr0.
    cbn [mbind option_bind skip_ws is_json_ws N.eqb Pos.eqb orb].
    rewrite Hv.
    cbn [mbind option_bind skip_ws is_json_ws N.eqb Pos.eqb orb].
    rewrite IH by (assumption || (cbn [fold_right]; lia)). reflexivity.
Qed.

(** Every plain value is read back from its printed form, whatever
    text follows it, given fuel for its nesting. *)
Lemma parse_value_stringify v : roundtrips v.
Proof.
  induction v as [ |b|n|t|s|items IH|members IH] using json_nested_ind;
    intros Hp fuel rest Hfuel Hrest; try discriminate;
    (destruct fuel as [|fuel]; [cbn in Hfuel; lia|]).
  - reflexivity.
  - destruct b; reflexivity.
  - cbn [stringify_value].
    destruct (Number_toString_head n) as (c & tl & Hn & Hc).
    pose proof (parse_number_toString n rest Hrest) as Hparse.
    rewrite Hn in *. cbn [app] in *.
    rewrite number_head_dispatch by exact Hc. exact Hparse.
  - cbn [stringify_value].
    destruct (parse_chars_QuoteJSONString s rest) as (tl & -> & Htl).
    cbn [parse_value skip_ws is_json_ws N.eqb Pos.eqb orb].
    rewrite Htl. reflexivity.
  - cbn [stringify_value app]. rewrite <- app_assoc. cbn [app].
    cbn [parse_value skip_ws is_json_ws N.eqb Pos.eqb orb].
    destruct items as [|x xs]; [reflexivity|].
    cbn [plain] in Hp. cbn [cost] in Hfuel.
    assert (Hpx : plain x = true)
      by (cbn in Hp; apply andb_true_iff in Hp; tauto).
    destruct (stringify_head x
                (match xs with
                 | [] => 93%N :: rest
                 | _ :: _ =>
                     44%N :: join_comma (map stringify_value xs)
                     ++ 93%N :: rest
                 end) Hpx) as (c & tl & Hh & Hws & Hc & _).
    assert (Heq : join_comma (map stringify_value (x :: xs)) ++ 93%N :: rest
                  = c :: tl).
    { rewrite <- Hh. destruct xs; [reflexivity|].
      change (join_comma (map stringify_value (x :: j :: xs)))
        with (stringify_value x
              ++ 44%N :: join_comma (map stringify_value (j :: xs))).
      rewrite <- app_assoc. reflexivity. }
    pose proof (parse_elements_join x xs fuel rest IH Hp ltac:(lia)) as He.
    rewrite Heq in He. rewrite Heq.
    rewrite skip_ws_head by exact Hws. rewrite Hc, He. reflexivity.
  - change (stringify_value (JObject members))
      with (123%N :: join_comma (map stringify_member members) ++ [125%N]).
    cbn [app]. rewrite <- app_assoc. cbn [app].
    cbn [parse_value skip_ws is_json_ws N.eqb Pos.eqb orb].
    destruct members as [|[k x] ms]; [reflexivity|].
    cbn [plain] in Hp. cbn [cost] in Hfuel.
    pose proof (parse_members_join (k, x) ms fuel rest IH Hp ltac:(lia))
      as He.
    assert (Heq : exists tl,
               join_comma (map stringify_member ((k, x) :: ms))
               ++ 125%N :: rest = 34%N :: tl).
    { destruct ms; cbn [map join_comma]; unfold stringify_member at 1;
        unfold QuoteJSONString; cbn [app]; eexists; reflexivity. }
    destruct Heq as (tl & Heq).
    rewrite Heq in He. rewrite Heq.
    cbn [skip_ws is_json_ws N.eqb Pos.eqb orb]. rewrite He. reflexivity.
Qed.

Lemma length_join_comma_cost {A} (f : A -> jsstring) (c : A -> nat)
    (l : list A) :
  Forall (fun x => (c x <= 2 * length (f x))%nat) l ->
  (fold_right (fun x acc => S (c x + acc)) 0 l
   <= 2 * length (join_comma (map f l)) + 1)%nat.
Proof.
  induction 1 as [|x l Hx Hl IH]; [cbn; lia|].
  destruct l as [|y l]; [cbn in *; lia|].
  change (join_comma (map f (x :: y :: l)))
    with (f x ++ 44%N :: join_comma (map f (y :: l))).
  rewrite length_app. cbn [length fold_right] in *. lia.
Qed.

(** The fuel [JSON_parse] starts with is enough for a printed value. *)
Lemma cost_le_length v :
  plain v = true -> (cost v <= 2 * length (stringify_value v))%nat.
Proof.
  induction v as [ |b|n|t|s|items IH|members IH] using json_nested_ind;
    intros Hp; try discriminate.
  - cbn. lia.
  - destruct b; cbn; lia.
  - destruct (Number_toString_head n) as (c & tl & Hn & _).
    cbn [stringify_value cost]. rewrite Hn. cbn [length]. lia.
  - cbn [stringify_value cost QuoteJSONString length]. lia.
  - cbn [stringify_value cost length]. rewrite length_app. cbn [length].
    cbn [plain] in Hp.
    assert (H : Forall (fun x =>
                  (cost x <= 2 * length (stringify_value x))%nat) items).
    { apply Forall_forall. intros x Hx. rewrite Forall_forall in IH.
      apply IH; [exact Hx|]. rewrite forallb_forall in Hp. apply Hp.
      apply list_elem_of_In, Hx. }
    pose proof (length_join_comma_cost stringify_value cost items H). lia.
  - change (stringify_value (JObject members))
      with (123%N :: join_comma (map stringify_member members) ++ [125%N]).
    cbn [cost length]. rewrite length_app. cbn [length]. cbn [plain] in Hp.
    assert (H : Forall (fun m =>
                  (cost m.2 <= 2 * length (stringify_member m))%nat)
                  members).
    { apply Forall_forall. intros m Hm. rewrite Forall_forall in IH.
      unfold stringify_member. rewrite length_app. cbn [length].
      assert (cost m.2 <= 2 * length (stringify_value m.2))%nat; [|lia].
      apply IH; [exact Hm|]. rewrite forallb_forall in Hp. apply Hp.
      apply list_elem_of_In, Hm. }
    pose proof (length_join_comma_cost stringify_member
                  (fun m => cost m.2) members H).
    lia.
Qed.

Lemma JSON_parse_stringify v :
  plain v = true -> JSON_parse (JSON_stringify v) = Some v.
Proof.
  intros Hp. unfold JSON_parse, JSON_stringify.
  pose proof (parse_value_stringify v Hp
                (2 * length (stringify_value v) + 2) [])%nat as H.
  rewrite app_nil_r in H. rewrite H; [reflexivity| |reflexivity].
  pose proof (cost_le_length v Hp). lia.
Qed.
End Values.

Section Fuel.
Lemma skip_ws_length s : (length (skip_ws s) <= length s)%nat.
Proof.
  induction s as [|c r IH]; [reflexivity|]. cbn.
  destruct (is_json_ws c); cbn; lia.
Qed.

Lemma strip_prefix_length p s r :
  strip_prefix p s = Some r -> (length r <= length s)%nat.
Proof.
  revert s. induction p as [|a p IH]; intros [|b s] H; cbn in H;
    try (injection H as <-; reflexivity); try discriminate.
  destruct (a =? b)%N; [|discriminate]. apply IH in H. cbn. lia.
Qed.

Lemma parse_chars_length s str r :
  parse_chars s = Some (str, r) -> (length r < length s)%nat.
Proof.
  remember (length s) as n eqn:Hn. revert s str r Hn.
  induction n as [n IH] using lt_wf_ind. intros s str r Hn H.
  destruct s as [|c s]; [discriminate|]. cbn [parse_chars] in H.
  cbn [length] in Hn.
  destruct (c =? 34)%N; [injection H as <- <-; lia|].
  destruct (c =? 92)%N.
  - destruct s as [|e s]; [discriminate|].
    destruct (e =? 117)%N.
    + destruct s as [|h3 [|h2 [|h1 [|h0 s]]]]; try discriminate.
      destruct (hex_value h3), (hex_value h2), (hex_value h1), (hex_value h0);
        try discriminate. cbn [mbind option_bind] in H.
      destruct (parse_chars s) as [[str' r']|] eqn:Hs; [|discriminate].
      injection H as <- <-. cbn [length] in Hn.
      apply (IH (length s)) in Hs; [lia|lia|reflexivity].
    + destruct (simple_escape e); [|discriminate].
      cbn [mbind option_bind] in H.
      destruct (parse_chars s) as [[str' r']|] eqn:Hs; [|discriminate].
      injection H as <- <-. cbn [length] in Hn.
      apply (IH (length s)) in Hs; [lia|lia|reflexivity].
  - destruct (c <? 32)%N; [discriminate|].
    destruct (parse_chars s) as [[str' r']|] eqn:Hs; [|discriminate].
    injection H as <- <-.
    apply (IH (length s)) in Hs; [lia|lia|reflexivity].
Qed.

Lemma span_digits_length s :
  length s = (length (span_digits s).1 + length (span_digits s).2)%nat.
Proof.
  induction s as [|c r IH]; [reflexivity|]. cbn [span_digits].
  destruct (is_digit c); [|reflexivity].
  destruct (span_digits r) as [ds rest]. cbn in *. lia.
Qed.

Lemma parse_fraction_length s fr r :
  parse_fraction s = Some (fr, r) -> (length r <= length s)%nat.
Proof.
  unfold parse_fraction. destruct s as [|c s]; [intros [= <- <-]; reflexivity|].
  destruct (c =? 46)%N; [|intros [= <- <-]; reflexivity].
  pose proof (span_digits_length s) as Hl.
  destruct (span_digits s) as [fs rest]. cbn in Hl.
  destruct (truthy fs); [|discriminate]. intros [= <- <-]. cbn. lia.
Qed.

Lemma parse_exponent_length s ex r :
  parse_exponent s = Some (ex, r) -> (length r <= length s)%nat.
Proof.
  unfold parse_exponent. destruct s as [|c s]; [intros [= <- <-]; reflexivity|].
  destruct (_ || _); [|intros [= <- <-]; reflexivity].
  assert (Hsign : exists sign r1,
             match s with
             | g :: r' => if (g =? 43)%N || (g =? 45)%N then ([g], r') else ([], s)
             | [] => ([], s)
             end = (sign, r1) /\ (length r1 <= length s)%nat).
  { destruct s as [|g r']; [eexists _, _; split; [reflexivity|cbn; lia]|].
    destruct (_ || _); eexists _, _; (split; [reflexivity|cbn; lia]). }
  destruct Hsign as (sign & r1 & -> & Hr1).
  pose proof (span_digits_length r1) as Hl.
  destruct (span_digits r1) as [es rest]. cbn in Hl.
  destruct (truthy es); [|discriminate]. intros [= <- <-]. cbn. lia.
Qed.

Lemma parse_numeral_length neg s v r :
  parse_numeral neg s = Some (v, r) -> (length r < length s)%nat.
Proof.
  unfold parse_numeral. pose proof (span_digits_length s) as Hl.
  destruct (span_digits s) as [int s2]. cbn in Hl.
  destruct int as [|d ds]; [discriminate|].
  destruct (_ && _); [discriminate|].
  destruct (parse_fraction s2) as [[fr s3]|] eqn:Hf; [|discriminate].
  cbn [mbind option_bind].
  destruct (parse_exponent s3) as [[ex s4]|] eqn:He; [|discriminate].
  cbn [mbind option_bind].
  apply parse_fraction_length in Hf. apply parse_exponent_length in He.
  destruct (_ || _); intros [= <- <-]; cbn in Hl; lia.
Qed.

Lemma parse_number_length s v r :
  parse_number s = Some (v, r) -> (length r < length s)%nat.
Proof.
  unfold parse_number. destruct s as [|c s]; [discriminate|].
  destruct (c =? 45)%N; intros H; apply parse_numeral_length in H; cbn in *; lia.
Qed.

Lemma value_fuel_step f :
  value_fuel f -> elements_fuel f -> members_fuel f -> value_fuel (S f).
Proof.
  intros IHv IHe IHm s v r H. cbn [parse_value] in H.
  pose proof (skip_ws_length s) as Hws.
  destruct (skip_ws s) as [|c r0] eqn:Hs; [discriminate|]. cbn [length] in Hws.
  destruct (c =? 110)%N eqn:E1.
  { destruct (strip_prefix _ r0) as [rest|] eqn:Hp; [|discriminate].
    injection H as ? ?; subst. pose proof (strip_prefix_length _ _ _ Hp).
    split; [lia|]. intros [|f''] Hf'; [lia|].
    cbn [parse_value]. rewrite Hs, E1, Hp. reflexivity. }
  destruct (c =? 116)%N eqn:E2.
  { destruct (strip_prefix _ r0) as [rest|] eqn:Hp; [|discriminate].
    injection H as ? ?; subst. pose proof (strip_prefix_length _ _ _ Hp).
    split; [lia|]. intros [|f''] Hf'; [lia|].
    cbn [parse_value]. rewrite Hs, E1, E2, Hp. reflexivity. }
  destruct (c =? 102)%N eqn:E3.
  { destruct (strip_prefix _ r0) as [rest|] eqn:Hp; [|discriminate].
    injection H as ? ?; subst. pose proof (strip_prefix_length _ _ _ Hp).
    split; [lia|]. intros [|f''] Hf'; [lia|].
    cbn [parse_value]. rewrite Hs, E1, E2, E3, Hp. reflexivity. }
  destruct (c =? 34)%N eqn:E4.
  { destruct (parse_chars r0) as [[str rest]|] eqn:Hp; [|discriminate].
    injection H as ? ?; subst. apply parse_chars_length in Hp as Hl.
    split; [lia|]. intros [|f''] Hf'; [lia|].
    cbn [parse_value]. rewrite Hs, E1, E2, E3, E4, Hp. reflexivity. }
  destruct (c =? 91)%N eqn:E5.
  { pose proof (skip_ws_length r0) as Hws0.
    destruct (skip_ws r0) as [|c' r'] eqn:Hs0; [discriminate|].
    cbn [length] in Hws0.
    destruct (c' =? 93)%N eqn:E6.
    - injection H as ? ?; subst.
      split; [lia|]. intros [|f''] Hf'; [lia|].
      cbn [parse_value]. rewrite Hs, E1, E2, E3, E4, E5, Hs0, E6. reflexivity.
    - destruct (parse_elements f r0) as [[items rest]|] eqn:Hp; [|discriminate].
      injection H as ? ?; subst. destruct (IHe _ _ _ Hp) as [Hl Hf].
      split; [lia|]. intros [|f''] Hf'; [lia|].
      cbn [parse_value]. rewrite Hs, E1, E2, E3, E4, E5, Hs0, E6.
      rewrite Hf by lia. reflexivity. }
  destruct (c =? 123)%N eqn:E7.
  { pose proof (skip_ws_length r0) as Hws0.
    destruct (skip_ws r0) as [|c' r'] eqn:Hs0; [discriminate|].
    cbn [length] in Hws0.
    destruct (c' =? 125)%N eqn:E6.
    - injection H as ? ?; subst.
      split; [lia|]. intros [|f''] Hf'; [lia|].
      cbn [parse_value]. rewrite Hs, E1, E2, E3, E4, E5, E7, Hs0, E6. reflexivity.
    - destruct (parse_members f r0) as [[ms rest]|] eqn:Hp; [|discriminate].
      injection H as ? ?; subst. destruct (IHm _ _ _ Hp) as [Hl Hf].
      split; [lia|]. intros [|f''] Hf'; [lia|].
      cbn [parse_value]. rewrite Hs, E1, E2, E3, E4, E5, E7, Hs0, E6.
      rewrite Hf by lia. reflexivity. }
  apply parse_number_length in H as Hl. cbn [length] in Hl.
  split; [lia|]. intros [|f''] Hf'; [lia|].
  cbn [parse_value]. rewrite Hs, E1, E2, E3, E4, E5, E7. exact H.
Qed.

Lemma elements_fuel_step f :
  value_fuel f -> elements_fuel f -> elements_fuel (S f).
Proof.
  intros IHv IHe s vs r H. cbn [parse_elements] in H.
  destruct (parse_value f s) as [[v r1]|] eqn:Hv; [|discriminate].
  cbn [mbind option_bind] in H. destruct (IHv _ _ _ Hv) as [Hl1 Hf1].
  pose proof (skip_ws_length r1) as Hws.
  destruct (skip_ws r1) as [|c r2] eqn:Hs; [discriminate|]. cbn [length] in Hws.
  destruct (c =? 44)%N eqn:E1.
  - destruct (parse_elements f r2) as [[vs' rest]|] eqn:He; [|discriminate].
    injection H as ? ?; subst. destruct (IHe _ _ _ He) as [Hl2 Hf2].
    split; [lia|]. intros [|f''] Hf'; [lia|]. cbn [parse_elements].
    rewrite Hf1 by lia. cbn [mbind option_bind]. rewrite Hs, E1, Hf2 by lia.
    reflexivity.
  - destruct (c =? 93)%N eqn:E2; [|discriminate]. injection H as ? ?; subst.
    split; [lia|]. intros [|f''] Hf'; [lia|]. cbn [parse_elements].
    rewrite Hf1 by lia. cbn [mbind option_bind]. rewrite Hs, E1, E2.
    reflexivity.
Qed.

Lemma members_fuel_step f :
  value_fuel f -> members_fuel f -> members_fuel (S f).
Proof.
  intros IHv IHm s ms r H. cbn [parse_members] in H.
  pose proof (skip_ws_length s) as Hws0.
  destruct (skip_ws s) as [|q r0] eqn:Hs0; [discriminate|]. cbn [length] in Hws0.
  destruct (q =? 34)%N eqn:E0; [|discriminate].
  destruct (parse_chars r0) as [[key r1]|] eqn:Hk; [|discriminate].
  cbn [mbind option_bind] in H. apply parse_chars_length in Hk as Hlk.
  pose proof (skip_ws_length r1) as Hws1.
  destruct (skip_ws r1) as [|colon r2] eqn:Hs1; [discriminate|].
  cbn [length] in Hws1.
  destruct (colon =? 58)%N eqn:E1; [|discriminate].
  destruct (parse_value f r2) as [[v r3]|] eqn:Hv; [|discriminate].
  cbn [mbind option_bind] in H. destruct (IHv _ _ _ Hv) as [Hl1 Hf1].
  pose proof (skip_ws_length r3) as Hws.
  destruct (skip_ws r3) as [|c r4] eqn:Hs; [discriminate|]. cbn [length] in Hws.
  destruct (c =? 44)%N eqn:E2.
  - destruct (parse_members f r4) as [[ms' rest]|] eqn:He; [|discriminate].
    injection H as ? ?; subst. destruct (IHm _ _ _ He) as [Hl2 Hf2].
    split; [lia|]. intros [|f''] Hf'; [lia|]. cbn [parse_members].
    rewrite Hs0, E0, Hk. cbn [mbind option_bind]. rewrite Hs1, E1.
    rewrite Hf1 by lia. cbn [mbind option_bind]. rewrite Hs, E2, Hf2 by lia.
    reflexivity.
  - destruct (c =? 125)%N eqn:E3; [|discriminate]. injection H as ? ?; subst.
    split; [lia|]. intros [|f''] Hf'; [lia|]. cbn [parse_members].
    rewrite Hs0, E0, Hk. cbn [mbind option_bind]. rewrite Hs1, E1.
    rewrite Hf1 by lia. cbn [mbind option_bind]. rewrite Hs, E2, E3.
    reflexivity.
Qed.

Lemma parser_fuel f : value_fuel f /\ elements_fuel f /\ members_fuel f.
Proof.
  induction f as [|f (IHv & IHe & IHm)].
  - split; [|split]; intros s v r Hnone; discriminate Hnone.
  - split; [|split].
    + apply value_fuel_step; assumption.
    + apply elements_fuel_step; assumption.
    + apply members_fuel_step; assumption.
Qed.

(** A parse that succeeds with some fuel succeeds with the fuel
    [JSON_parse] starts with: [None] is a syntax error, never a lack of
    fuel. *)
Lemma JSON_parse_fuel_enough fuel text v rest :
  parse_value fuel text = Some (v, rest) ->
  parse_value (2 * length text + 2) text = Some (v, rest).
Proof.
  intros H. destruct (parser_fuel fuel) as (Hv & _).
  destruct (Hv _ _ _ H) as [_ Hf]. apply Hf. lia.
Qed.

Lemma JSON_parse_None text :
  JSON_parse text = None ->
  forall fuel v rest,
    parse_value fuel text = Some (v, rest) -> skip_ws rest <> [].
Proof.
  intros H fuel v rest Hp Hr. unfold JSON_parse in H.
  rewrite (JSON_parse_fuel_enough _ _ _ _ Hp) in H.
  cbn [mbind option_bind] in H. rewrite Hr in H. discriminate.
Qed.
End Fuel.

Section Threads.
Lemma plain_encode_chats l : plain (encode_chats l) = true.
Proof.
  cbn [encode_chats plain]. apply forallb_forall. intros v Hv.
  apply list_elem_of_In, list_elem_of_fmap in Hv as (c & -> & _).
  cbn [encode_chat plain forallb snd andb]. rewrite andb_true_r.
  apply forallb_forall. intros v Hv.
  apply list_elem_of_In, list_elem_of_fmap in Hv as (m & -> & _).
  reflexivity.
Qed.

Lemma decode_encode_message m : decode_message (encode_message m) = Some m.
Proof. destruct m as [i [] t ll lc]; reflexivity. Qed.

Lemma decode_encode_chat c : decode_chat (encode_chat c) = Some c.
Proof.
  destruct c as [i t ms n].
  cbn [encode_chat decode_chat ChatSession.id ChatSession.title
         ChatSession.messages ChatSession.createdAt].
  rewrite bool_decide_eq_true_2 by reflexivity.
  rewrite mapM_fmap_Some by apply decode_encode_message. reflexivity.
Qed.

Lemma decode_encode_chats l : decode_chats (encode_chats l) = Some l.
Proof. cbn. apply mapM_fmap_Some, decode_encode_chat. Qed.

Lemma stringify_chats_truthy l :
  truthy (JSON_stringify (encode_chats l)) = true.
Proof. reflexivity. Qed.
End Threads.

(** ** Persistence *)

Section Persistence.
Implicit Types (s : State) (storage : gmap jsstring jsstring).

Lemma load_effect_saved storage l :
  storage !! storage_key = Some (JSON_stringify (encode_chats l)) ->
  load_effect (initial storage) =
    inl (SetChats (fun _ => l) ::
         match l with
         | c :: _ => [SetCurrentChatId (Some (ChatSession.id c))]
         | [] => []
         end).
Proof.
  intros H. unfold load_effect. cbn [localStorage initial]. rewrite H.
  rewrite stringify_chats_truthy, JSON_parse_stringify
    by apply plain_encode_chats.
  rewrite decode_encode_chats. reflexivity.
Qed.

Lemma mount_saved storage l :
  storage !! storage_key = Some (JSON_stringify (encode_chats l)) ->
  exists s', mount storage = Mounted s' /\ chats s' = l.
Proof.
  intros H. unfold mount. rewrite (load_effect_saved _ _ H).
  eexists. split; [reflexivity|]. cbn [sets_chats existsb orb].
  rewrite save_effect_chats, apply_actions_app, save_effect_chats.
  destruct l; reflexivity.
Qed.

Lemma mount_nothing storage :
  item_truthy (storage !! storage_key) = false ->
  exists s', mount storage = Mounted s' /\ chats s' = [].
Proof.
  intros H. unfold mount, load_effect. cbn [localStorage initial].
  destruct (storage !! storage_key) as [blob|]; cbn [item_truthy] in H;
    [rewrite H|]; eexists; (split; [reflexivity|]);
    cbn [sets_chats existsb app]; apply save_effect_chats.
Qed.

Lemma createNewChat_free t1 t2 s : storage_free (createNewChat t1 t2 s).1 = true.
Proof.
  unfold createNewChat; unfold_handler.
  destruct (chats s) as [|c l]; [reflexivity|].
  destruct (_ =? _)%nat; reflexivity.
Qed.

Lemma ensure_active_chat_free t1 t2 s :
  storage_free (ensure_active_chat t1 t2 s).1 = true.
Proof.
  unfold ensure_active_chat; unfold_handler.
  pose proof (createNewChat_free t1 t2 s) as H.
  destruct (currentChatId s) as [id|]; [destruct (truthy id)|];
    first [reflexivity | destruct (createNewChat t1 t2 s); exact H].
Qed.

Lemma handleTranslate_free t1 t2 t3 s :
  storage_free (handleTranslate t1 t2 t3 s).1 = true.
Proof.
  unfold handleTranslate; unfold_handler.
  destruct (negb _); [reflexivity|].
  pose proof (ensure_active_chat_free t1 t2 s) as H.
  destruct (ensure_active_chat t1 t2 s) as [acts cid]. cbn [fst app] in *.
  rewrite storage_free_app, H. reflexivity.
Qed.

Lemma deleteChat_free id s : storage_free (deleteChat id s).1 = true.
Proof.
  unfold deleteChat; unfold_handler. cbn zeta.
  case_bool_decide; reflexivity.
Qed.

Lemma settled_free p o now s :
  storage_free (handleTranslate_settled p o now s).1 = true.
Proof.
  unfold handleTranslate_settled, try_catch_finally; unfold_handler.
  destruct (try_response o); reflexivity.
Qed.

Lemma toggleListening_free b s : storage_free (toggleListening b s).1 = true.
Proof.
  unfold toggleListening; unfold_handler.
  destruct (isListening s), b; reflexivity.
Qed.

(** Every event either leaves the thread list and the storage alone,
    or runs the save effect on the new thread list. *)
Lemma step_persisted s e : persisted s (step s e).
Proof.
  destruct e; cbn [step];
    repeat match goal with
           | |- persisted _ (if ?b then _ else _) => destruct b
           | |- persisted ?s ?s => apply persisted_refl
           end;
    try (apply commit_persisted;
         first [ apply createNewChat_free | apply deleteChat_free
               | apply handleTranslate_free | apply toggleListening_free
               | reflexivity ]).
  destruct (inflight s !! i) as [p|]; [|apply persisted_refl].
  pose proof (commit_persisted (handleTranslate_settled p outcome now)
                (set_inflight (delete i (inflight s)) s)
                (settled_free _ _ _ _)) as H.
  destruct s; exact H.
Qed.
End Persistence.

(** C6. For every valid thread list, the blob the save effect writes is
    parsed back by [JSON.parse] to the value that was printed, that
    value is the thread list again, and a page mounted on the storage
    the save effect leaves starts with the same thread list. *)
Theorem C6_save_load_round_trip (s : State) :
  valid_chats (chats s) = true ->
  let saved := apply_actions (save_effect s).1 s in
  JSON_parse (JSON_stringify (encode_chats (chats s)))
    = Some (encode_chats (chats s)) /\
  decode_chats (encode_chats (chats s)) = Some (chats s) /\
  exists s', mount (localStorage saved) = Mounted s' /\ chats s' = chats s.
Proof.
  intros _ saved.
  split; [apply JSON_parse_stringify, plain_encode_chats|].
  split; [apply decode_encode_chats|].
  subst saved. rewrite save_effect_storage.
  destruct (save_cond _ _) eqn:Hc.
  - apply mount_saved, lookup_insert_eq.
  - unfold save_cond in Hc. destruct (chats s) as [|c l]; [|discriminate].
    apply mount_nothing. exact Hc.
Qed.

Lemma C6_witness :
  valid_chats (chats two_chats) = true /\
  let s := two_chats in
  let saved := apply_actions (save_effect s).1 s in
  JSON_parse (JSON_stringify (encode_chats (chats s)))
    = Some (encode_chats (chats s)) /\
  decode_chats (encode_chats (chats s)) = Some (chats s) /\
  exists s', mount (localStorage saved) = Mounted s' /\ chats s' = chats s.
Proof.
  split; [vm_compute; reflexivity|].
  exact (C6_save_load_round_trip two_chats eq_refl).
Defined.

(** C7 as stated fails for the empty string: it is stored under the key
    and [JSON.parse] rejects it, but the load effect treats it as absent
    and logs nothing. *)
Lemma C7_empty_blob_is_not_logged :
  ~ (forall (storage : gmap jsstring jsstring) (blob : jsstring),
       storage !! storage_key = Some blob ->
       JSON_parse blob = None ->
       exists s, mount storage = Mounted s /\ chats s = [] /\
                 console s = [lit "Failed to load chats"]).
Proof.
  intros H.
  destruct (H {[storage_key := []]} [] (lookup_singleton_eq _ _) eq_refl)
    as (s & Hm & _ & Hc).
  vm_compute in Hm. injection Hm as <-. discriminate Hc.
Qed.

(** C7, amended. For every stored blob that [JSON.parse] rejects, the
    page mounts with an empty thread list and no current thread, and
    shows no alert; when the blob is not the empty string the failure is
    logged to the console, and for the empty string nothing is parsed
    and nothing is logged. *)
Theorem C7_malformed_blob_degrades_to_empty
    (storage : gmap jsstring jsstring) (blob : jsstring) :
  storage !! storage_key = Some blob ->
  JSON_parse blob = None ->
  exists s, mount storage = Mounted s /\
            chats s = [] /\ currentChatId s = None /\ alerts s = [] /\
            console s
            = if truthy blob then [lit "Failed to load chats"] else [].
Proof.
  intros Hb Hp. unfold mount, load_effect. cbn [localStorage initial].
  rewrite Hb, Hp. rewrite save_effect_actions.
  cbn [chats localStorage initial]. rewrite Hb. unfold save_cond.
  cbn [length Nat.ltb Nat.leb Nat.eqb orb andb item_truthy].
  destruct (truthy blob); eexists; (split; [reflexivity|]); repeat split.
Qed.

Lemma C7_witness :
  corrupt_storage !! storage_key = Some (lit "{not json") /\
  JSON_parse (lit "{not json") = None /\
  exists s, mount corrupt_storage = Mounted s /\
            chats s = [] /\ currentChatId s = None /\ alerts s = [] /\
            console s
            = if truthy (lit "{not json")
              then [lit "Failed to load chats"] else [].
Proof.
  split; [vm_compute; reflexivity|]. split; [vm_compute; reflexivity|].
  apply (C7_malformed_blob_degrades_to_empty corrupt_storage
           (lit "{not json")); vm_compute; reflexivity.
Defined.

(** C8. Once the slot holds a blob written by the save effect, it holds
    one after every further event, and every event that changes the
    thread list, also to the empty list, leaves the slot holding the
    print of the new list.  Creating and deleting a thread in a fresh
    page reaches the persisted empty list "[]", while the page that
    never saved has no value under the key. *)
Theorem C8_saved_slot_is_kept_up_to_date
    (s : State) (events : list Event) (e : Event) :
  saved_once s ->
  let s1 := run s events in
  let s2 := step s1 e in
  saved_once s1 /\ saved_once s2 /\
  (chats s2 <> chats s1 ->
   localStorage s2 !! storage_key
   = Some (JSON_stringify (encode_chats (chats s2)))) /\
  (let s0 := run (initial ∅) empty_list_events in
   localStorage (initial ∅) !! storage_key = None /\
   chats s0 = [] /\
   localStorage s0 !! storage_key = Some (lit "[]") /\
   JSON_parse (lit "[]") = Some (JArray [])).
Proof.
  intros Hs s1 s2.
  assert (Hstep : forall st ev, saved_once st ->
            saved_once (step st ev) /\
            (chats (step st ev) <> chats st ->
             localStorage (step st ev) !! storage_key
             = Some (JSON_stringify (encode_chats (chats (step st ev)))))).
  { intros st ev [l Hl]. destruct (step_persisted st ev) as [[Hc Hst]|Hst].
    - split; [exists l; rewrite Hst; exact Hl | intros Hne; destruct (Hne Hc)].
    - unfold save_cond in Hst. rewrite Hl in Hst.
      cbn [item_truthy] in Hst.
      rewrite stringify_chats_truthy, andb_true_r in Hst.
      replace ((0 <? length (chats (step st ev)))%nat
               || (length (chats (step st ev)) =? 0)%nat) with true in Hst
        by (destruct (chats (step st ev)); reflexivity).
      unfold saved_once. rewrite Hst, lookup_insert_eq.
      split; [eexists; reflexivity|reflexivity]. }
  assert (Hs1 : saved_once s1).
  { subst s1. clear s2. revert s Hs.
    induction events as [|ev events IH]; intros s Hs; [exact Hs|].
    apply IH, Hstep, Hs. }
  destruct (Hstep s1 e Hs1) as [Hs2 Hw].
  split; [exact Hs1|]. split; [exact Hs2|]. split; [exact Hw|].
  vm_compute. repeat split.
Qed.

Lemma C8_witness :
  saved_once (run (initial ∅) [ClickNewChat 1000 1000]) /\
  let s := run (initial ∅) [ClickNewChat 1000 1000] in
  let s1 := run s [ChangeInput (lit "Hi")] in
  let s2 := step s1 (ClickDelete (lit "1000")) in
  saved_once s1 /\ saved_once s2 /\
  (chats s2 <> chats s1 ->
   localStorage s2 !! storage_key
   = Some (JSON_stringify (encode_chats (chats s2)))) /\
  (let s0 := run (initial ∅) empty_list_events in
   localStorage (initial ∅) !! storage_key = None /\
   chats s0 = [] /\
   localStorage s0 !! storage_key = Some (lit "[]") /\
   JSON_parse (lit "[]") = Some (JArray [])).
Proof.
  assert (H : saved_once (run (initial ∅) [ClickNewChat 1000 1000]))
    by (exists [empty_chat]; vm_compute; reflexivity).
  split; [exact H|].
  exact (C8_saved_slot_is_kept_up_to_date _ [ChangeInput (lit "Hi")]
           (ClickDelete (lit "1000")) H).
Defined.

(** ** Further properties *)

(** *** The responses of the route *)

Lemma POST_fields (body : TranslateBody) :
  field_truthy (body_text body) = true ->
  field_truthy (body_targetLang body) = true ->
  exists text targetLang,
    body_text body = Some text /\ body_targetLang body = Some targetLang /\
    truthy text = true /\ truthy targetLang = true.
Proof.
  destruct (body_text body) as [text|], (body_targetLang body) as [tl|];
    cbn; try discriminate. eauto 10.
Qed.

(** X1. The route answers 400 with the error of the missing fields,
    without calling the upstream service, exactly when [text] or
    [targetLang] is absent or empty in the request body; whatever the
    body, it calls the upstream service at most once. *)
Theorem X1_route_rejects_missing_fields
    (axios_get : AxiosRequest -> AxiosResult) (body : TranslateBody) :
  (POST axios_get body = ([], route_missing) <->
   field_truthy (body_text body) = false \/
   field_truthy (body_targetLang body) = false) /\
  (status (POST axios_get body).2 = 400 <->
   field_truthy (body_text body) = false \/
   field_truthy (body_targetLang body) = false) /\
  (length (POST axios_get body).1 <= 1)%nat.
Proof.
  unfold POST, route_missing.
  destruct (body_text body) as [text|], (body_targetLang body) as [tl|];
    cbn [field_truthy];
    try (split; [|split]; [split; auto|split; auto|cbn; lia]).
  destruct (truthy text), (truthy tl); cbn [negb orb];
    try (split; [|split]; [split; auto|split; auto|cbn; lia]).
  destruct (body_sourceLang body) as [sl|].
  - cbn zeta.
    destruct (axios_get _) as [|st d [t|]]; [|case_bool_decide..];
      (split; [|split]; [split; [discriminate|intros [|]; discriminate]
                        |split; [discriminate|intros [|]; discriminate]
                        |cbn; lia]).
  - split; [|split]; [split; [discriminate|intros [|]; discriminate]
                     |split; [discriminate|intros [|]; discriminate]
                     |cbn; lia].
Qed.

(** X2. A body with [text] and [targetLang] but no [sourceLang] makes
    [sourceLang.split] throw inside the [try]: the route answers 500 with
    its fixed error and sends nothing upstream. *)
Theorem X2_route_fails_without_source_language
    (axios_get : AxiosRequest -> AxiosResult) (body : TranslateBody) :
  field_truthy (body_text body) = true ->
  field_truthy (body_targetLang body) = true ->
  body_sourceLang body = None ->
  POST axios_get body = ([], route_failed).
Proof.
  intros Ht Htl Hs. destruct (POST_fields body Ht Htl)
    as (text & tl & H1 & H2 & H3 & H4).
  unfold POST. rewrite H1, H2, H3, H4, Hs. reflexivity.
Qed.

Lemma X2_witness :
  field_truthy (body_text body_without_source) = true /\
  field_truthy (body_targetLang body_without_source) = true /\
  body_sourceLang body_without_source = None /\
  POST upstream_bonjour body_without_source = ([], route_failed).
Proof.
  split; [reflexivity|]. split; [reflexivity|]. split; [reflexivity|].
  exact (X2_route_fails_without_source_language upstream_bonjour body_without_source
           eq_refl eq_refl eq_refl).
Defined.



(** *** What a submission and a settled request leave *)

Section Frames.
Implicit Types (s : State).

(** The save effect touches nothing but the storage. *)
Lemma save_effect_frame s0 s :
  let s' := apply_actions (save_effect s0).1 s in
  chats s' = chats s /\ currentChatId s' = currentChatId s /\
  inputText s' = inputText s /\ isTranslating s' = isTranslating s /\
  sourceLang s' = sourceLang s /\ targetLang s' = targetLang s /\
  console s' = console s /\ alerts s' = alerts s /\
  inflight s' = inflight s /\ isListening s' = isListening s.
Proof.
  cbn zeta. rewrite save_effect_actions.
  destruct (save_cond _ _), s; repeat split.
Qed.

Lemma apply_actions_selecting acts s :
  selecting acts = true ->
  let mid := apply_actions acts s in
  inputText mid = inputText s /\ isTranslating mid = isTranslating s /\
  sourceLang mid = sourceLang s /\ targetLang mid = targetLang s /\
  console mid = console s /\ alerts mid = alerts s /\
  inflight mid = inflight s /\ localStorage mid = localStorage s /\
  isListening mid = isListening s.
Proof.
  cbn zeta. revert s. induction acts as [|a acts IH]; intros s H;
    [repeat split|].
  cbn [selecting forallb] in H. apply andb_true_iff in H as [Ha H].
  rewrite apply_actions_cons.
  destruct (IH (apply_action a s) H)
    as (-> & -> & -> & -> & -> & -> & -> & -> & ->).
  destruct a, s; try discriminate; repeat split.
Qed.

Lemma createNewChat_selecting t1 t2 s :
  selecting (createNewChat t1 t2 s).1 = true.
Proof.
  unfold createNewChat; unfold_handler.
  destruct (chats s) as [|c l]; [reflexivity|].
  destruct (_ =? _)%nat; reflexivity.
Qed.

Lemma ensure_active_chat_selecting t1 t2 s :
  selecting (ensure_active_chat t1 t2 s).1 = true.
Proof.
  unfold ensure_active_chat; unfold_handler.
  pose proof (createNewChat_selecting t1 t2 s) as H.
  destruct (currentChatId s) as [id|]; [destruct (truthy id)|];
    first [reflexivity | destruct (createNewChat t1 t2 s); exact H].
Qed.

(** Choosing the active thread touches only the thread list, the
    selection and the sidebar. *)
Lemma ensure_active_chat_frame t1 t2 s :
  let mid := apply_actions (ensure_active_chat t1 t2 s).1 s in
  inputText mid = inputText s /\ isTranslating mid = isTranslating s /\
  sourceLang mid = sourceLang s /\ targetLang mid = targetLang s /\
  console mid = console s /\ alerts mid = alerts s /\
  inflight mid = inflight s /\ localStorage mid = localStorage s /\
  isListening mid = isListening s.
Proof. apply apply_actions_selecting, ensure_active_chat_selecting. Qed.

Lemma commit_handleTranslate t1 t2 t3 s :
  truthy (trim (inputText s)) = true ->
  let mid := apply_actions (ensure_active_chat t1 t2 s).1 s in
  let s' := (commit (handleTranslate t1 t2 t3) s).2 in
  chats s' =
    append_user_message (ensure_active_chat t1 t2 s).2 (inputText s)
      (userMsg_of t3 (inputText s) (sourceLang s)) <$> chats mid /\
  currentChatId s' = currentChatId mid /\
  inputText s' = [] /\ isTranslating s' = true /\
  sourceLang s' = sourceLang s /\ targetLang s' = targetLang s /\
  console s' = console s /\ alerts s' = alerts s /\
  inflight s' = inflight s ++ [pending_of t1 t2 s].
Proof.
  intros H mid s'. subst s'. unfold commit.
  rewrite (handleTranslate_actions _ _ _ _ H).
  rewrite sets_chats_app. cbn [sets_chats existsb orb]. rewrite orb_true_r.
  cbn [snd].
  match goal with
  | |- context [apply_actions (save_effect ?x).1 ?y] =>
      destruct (save_effect_frame x y)
        as (-> & -> & -> & -> & -> & -> & -> & -> & -> & _)
  end.
  rewrite apply_actions_app. fold mid.
  destruct (ensure_active_chat_frame t1 t2 s)
    as (_ & _ & H3 & H4 & H5 & H6 & H7 & _). fold mid in H3, H4, H5, H6, H7.
  destruct mid; cbn in H3, H4, H5, H6, H7; subst; repeat split.
Qed.

Lemma commit_settled p o now s :
  let s' := (commit (handleTranslate_settled p o now) s).2 in
  chats s' =
    append_message (activeChatId p)
      (match try_response o with
       | inr translatedText => aiMsg_of now translatedText (targetObj p)
       | inl _ => errorMsg_of now
       end) <$> chats s /\
  currentChatId s' = currentChatId s /\ inputText s' = inputText s /\
  isTranslating s' = false /\
  sourceLang s' = sourceLang s /\ targetLang s' = targetLang s /\
  console s' = console s ++
    match try_response o with
    | inr _ => []
    | inl _ => [lit "Translation failed:"]
    end /\
  alerts s' = alerts s /\ inflight s' = inflight s.
Proof.
  cbn zeta. unfold commit, handleTranslate_settled, try_catch_finally;
    unfold_handler.
  destruct (try_response o); cbn [fst snd app sets_chats existsb orb];
    match goal with
    | |- context [apply_actions (save_effect ?x).1 ?y] =>
        destruct (save_effect_frame x y)
          as (-> & -> & -> & -> & -> & -> & -> & -> & -> & _)
    end; destruct s; cbn; rewrite ?app_nil_r; repeat split.
Qed.
End Frames.

(** *** Fields an event leaves alone *)

Section Fields.
Implicit Types (s : State) (fld : Field) (acts : list Action).

Lemma same_on_refl fld s : same_on fld s s.
Proof. destruct fld; reflexivity. Qed.

Lemma same_on_trans fld s1 s2 s3 :
  same_on fld s1 s2 -> same_on fld s2 s3 -> same_on fld s1 s3.
Proof. destruct fld; cbn; congruence. Qed.

Lemma apply_action_same_on fld a s :
  written a <> fld -> same_on fld s (apply_action a s).
Proof. destruct a, fld, s; cbn; congruence. Qed.

Lemma apply_actions_same_on fld acts s :
  untouched fld acts = true -> same_on fld s (apply_actions acts s).
Proof.
  revert s. induction acts as [|a acts IH]; intros s H;
    [apply same_on_refl|].
  cbn [untouched forallb] in H. apply andb_true_iff in H as [Ha H].
  apply negb_true_iff, bool_decide_eq_false in Ha.
  rewrite apply_actions_cons.
  eapply same_on_trans; [apply apply_action_same_on, Ha|apply IH, H].
Qed.

Lemma untouched_app fld acts1 acts2 :
  untouched fld (acts1 ++ acts2)
  = untouched fld acts1 && untouched fld acts2.
Proof. apply forallb_app. Qed.

Lemma save_effect_untouched fld s :
  fld <> FLocalStorage -> untouched fld (save_effect s).1 = true.
Proof.
  intros H. rewrite save_effect_actions.
  destruct (save_cond _ _); [|reflexivity].
  destruct fld; try reflexivity. contradiction.
Qed.

(** A handler run leaves alone every field its actions do not write,
    the storage apart. *)
Lemma commit_same_on {A} fld (h : Handler A) s :
  fld <> FLocalStorage ->
  untouched fld (h s).1 = true -> same_on fld s (commit h s).2.
Proof.
  intros Hf Hu. unfold commit. destruct (h s) as [acts a]. cbn [fst snd] in *.
  destruct (sets_chats acts); [|apply apply_actions_same_on, Hu].
  eapply same_on_trans; [apply apply_actions_same_on, Hu|].
  apply apply_actions_same_on, save_effect_untouched, Hf.
Qed.

Lemma createNewChat_untouched fld t1 t2 s :
  fld <> FChats -> fld <> FCurrentChatId -> fld <> FIsSidebarOpen ->
  untouched fld (createNewChat t1 t2 s).1 = true.
Proof.
  intros H1 H2 H3. unfold createNewChat; unfold_handler.
  destruct (chats s) as [|c l]; [|destruct (_ =? _)%nat];
    destruct fld; try reflexivity; contradiction.
Qed.

Lemma ensure_active_chat_untouched fld t1 t2 s :
  fld <> FChats -> fld <> FCurrentChatId -> fld <> FIsSidebarOpen ->
  untouched fld (ensure_active_chat t1 t2 s).1 = true.
Proof.
  intros H1 H2 H3. unfold ensure_active_chat; unfold_handler.
  pose proof (createNewChat_untouched fld t1 t2 s H1 H2 H3) as H.
  destruct (currentChatId s) as [id|]; [destruct (truthy id)|];
    first [reflexivity | destruct (createNewChat t1 t2 s); exact H].
Qed.

Lemma deleteChat_untouched fld id s :
  fld <> FChats -> fld <> FCurrentChatId ->
  untouched fld (deleteChat id s).1 = true.
Proof.
  intros H1 H2. rewrite deleteChat_actions. cbn zeta.
  case_bool_decide; destruct fld; try reflexivity; contradiction.
Qed.

Lemma toggleListening_untouched fld supported s :
  fld <> FIsListening -> fld <> FAlerts ->
  untouched fld (toggleListening supported s).1 = true.
Proof.
  intros H1 H2. unfold toggleListening; unfold_handler.
  destruct (isListening s), supported; destruct fld;
    try reflexivity; contradiction.
Qed.

Lemma handleTranslate_untouched fld t1 t2 t3 s :
  fld <> FChats -> fld <> FCurrentChatId -> fld <> FIsSidebarOpen ->
  fld <> FInputText -> fld <> FIsTranslating -> fld <> FInflight ->
  untouched fld (handleTranslate t1 t2 t3 s).1 = true.
Proof.
  intros H1 H2 H3 H4 H5 H6.
  destruct (truthy (trim (inputText s))) eqn:Hb.
  - rewrite (handleTranslate_actions _ _ _ _ Hb). cbn [fst].
    rewrite untouched_app, ensure_active_chat_untouched by assumption.
    destruct fld; try reflexivity; contradiction.
  - rewrite (handleTranslate_blank _ _ _ _ Hb). reflexivity.
Qed.

Lemma settled_untouched fld p o now s :
  fld <> FChats -> fld <> FConsole -> fld <> FIsTranslating ->
  untouched fld (handleTranslate_settled p o now s).1 = true.
Proof.
  intros H1 H2 H3.
  unfold handleTranslate_settled, try_catch_finally; unfold_handler.
  destruct (try_response o); destruct fld; try reflexivity; contradiction.
Qed.

Lemma set_inflight_same_on fld fl s :
  fld <> FInflight -> same_on fld s (set_inflight fl s).
Proof. intros H. destruct fld, s; try reflexivity. contradiction. Qed.

Lemma step_settle_same_on fld s i o now :
  fld <> FChats -> fld <> FConsole -> fld <> FIsTranslating ->
  fld <> FInflight -> fld <> FLocalStorage ->
  same_on fld s (step s (Settle i o now)).
Proof.
  intros H1 H2 H3 H4 H5. cbn [step].
  destruct (inflight s !! i) as [p|]; [|apply same_on_refl].
  eapply same_on_trans; [apply set_inflight_same_on, H4|].
  apply commit_same_on; [exact H5|]. apply settled_untouched; assumption.
Qed.
End Fields.

(** Solves [same_on fld s (step s e)] for an event that does not write
    [fld]. *)
Ltac step_same_on :=
  try (apply step_settle_same_on; discriminate);
  cbn [step];
  repeat match goal with
         | |- same_on _ _ (if ?b then _ else _) => destruct b
         | |- same_on _ ?s ?s => apply same_on_refl
         end;
  try (apply commit_same_on; [discriminate|];
       first [ apply createNewChat_untouched; discriminate
             | apply deleteChat_untouched; discriminate
             | apply handleTranslate_untouched; discriminate
             | apply toggleListening_untouched; discriminate
             | reflexivity ]).

(** *** The busy flag *)

Ltac by_frame F :=
  match goal with
  | |- _ (?st' ) = _ ?st =>
      change (same_on F st st'); solve [step_same_on]
  end.

Section Steps.
Implicit Types (s : State) (e : Event).

Lemma step_settle s i p o now :
  inflight s !! i = Some p ->
  step s (Settle i o now)
  = (commit (handleTranslate_settled p o now)
       (set_inflight (delete i (inflight s)) s)).2.
Proof. intros H. cbn [step]. rewrite H. reflexivity. Qed.

Lemma step_enter s t1 t2 t3 :
  step s (KeyDown (lit "Enter") false t1 t2 t3)
  = (commit (handleTranslate t1 t2 t3) s).2.
Proof. reflexivity. Qed.

(** What an event does to the busy flag and to the requests in flight:
    nothing, or it submits, or it settles a request. *)
Lemma step_busy s e :
  (isTranslating (step s e) = isTranslating s /\
   inflight (step s e) = inflight s) \/
  (isTranslating (step s e) = true /\
   exists p, inflight (step s e) = inflight s ++ [p]) \/
  (isTranslating (step s e) = false /\
   exists i p, inflight s !! i = Some p /\
               inflight (step s e) = delete i (inflight s)).
Proof.
  assert (Hsubmit : forall t1 t2 t3,
            (isTranslating (commit (handleTranslate t1 t2 t3) s).2
             = isTranslating s /\
             inflight (commit (handleTranslate t1 t2 t3) s).2 = inflight s) \/
            (isTranslating (commit (handleTranslate t1 t2 t3) s).2 = true /\
             exists p, inflight (commit (handleTranslate t1 t2 t3) s).2
                       = inflight s ++ [p])).
  { intros t1 t2 t3. destruct (truthy (trim (inputText s))) eqn:Hb.
    - right. destruct (commit_handleTranslate t1 t2 t3 s Hb)
        as (_ & _ & _ & Ht & _ & _ & _ & _ & Hf). eauto.
    - left. unfold commit. rewrite (handleTranslate_blank _ _ _ _ Hb).
      split; reflexivity. }
  destruct e; cbn [step];
    try (left; split; [by_frame FIsTranslating|by_frame FInflight]).
  - match goal with |- context [if ?b then _ else _] => destruct b end;
      [apply or_assoc; left; apply Hsubmit|left; split; reflexivity].
  - destruct (send_disabled s); [left; split; reflexivity|].
    apply or_assoc; left; apply Hsubmit.
  - destruct (inflight s !! i) as [p|] eqn:Hp; [|left; split; reflexivity].
    right; right.
    destruct (commit_settled p outcome now
                (set_inflight (delete i (inflight s)) s))
      as (_ & _ & _ & Ht & _ & _ & _ & _ & Hf).
    split; [exact Ht|]. exists i, p. split; [exact Hp|].
    rewrite Hf. destruct s; reflexivity.
Qed.

End Steps.

(** X4. Whenever the busy flag [isTranslating] is set, a request is in
    flight: if this holds of a state, it holds after any sequence of
    events. *)
Theorem X4_busy_flag_has_a_request (s : State) (events : list Event) :
  (isTranslating s = true -> inflight s <> []) ->
  isTranslating (run s events) = true -> inflight (run s events) <> [].
Proof.
  revert s. induction events as [|e events IH]; intros s Hs; [exact Hs|].
  apply (IH (step s e)).
  destruct (step_busy s e) as [[Ht Hf]|[[Ht [p Hf]]|[Ht _]]].
  - rewrite Ht, Hf. exact Hs.
  - intros _. rewrite Hf. intros H. apply app_eq_nil in H as [_ H].
    discriminate.
  - rewrite Ht. discriminate.
Qed.

Lemma X4_witness :
  (isTranslating (initial ∅) = true -> inflight (initial ∅) <> []) /\
  isTranslating (run (initial ∅) hello_events) = true /\
  inflight (run (initial ∅) hello_events) <> [].
Proof.
  assert (H0 : isTranslating (initial ∅) = true -> inflight (initial ∅) <> [])
    by discriminate.
  assert (H1 : isTranslating (run (initial ∅) hello_events) = true)
    by (vm_compute; reflexivity).
  split; [exact H0|]. split; [exact H1|].
  exact (X4_busy_flag_has_a_request (initial ∅) hello_events H0 H1).
Defined.

(** *** Replies *)

(** X5. When a request settles whose thread is no longer in the list
    (it was deleted meanwhile), the reply or error message is dropped: the
    thread list is unchanged, the busy flag is cleared and the request
    leaves the requests in flight. *)
Theorem X5_reply_for_deleted_thread_is_dropped
    (s : State) (i : nat) (p : Pending) (o : FetchOutcome) (now : Z) :
  inflight s !! i = Some p ->
  activeChatId p ∉ thread_ids s ->
  let s' := step s (Settle i o now) in
  chats s' = chats s /\ isTranslating s' = false /\
  inflight s' = delete i (inflight s).
Proof.
  intros Hp Hid. cbn zeta. rewrite (step_settle _ _ _ _ _ Hp).
  destruct (commit_settled p o now (set_inflight (delete i (inflight s)) s))
    as (Hc & _ & _ & Ht & _ & _ & _ & _ & Hf).
  rewrite Hc, Ht, Hf. split; [|split; [reflexivity|destruct s; reflexivity]].
  replace (chats (set_inflight (delete i (inflight s)) s)) with (chats s)
    by (destruct s; reflexivity).
  apply fmap_append_message_absent, Hid.
Qed.

Lemma X5_witness :
  inflight deleted_in_flight !! 0%nat = Some in_flight_request /\
  (activeChatId in_flight_request ∉ thread_ids deleted_in_flight) /\
  let s' := step deleted_in_flight (Settle 0 FetchRejected 1200) in
  chats s' = chats deleted_in_flight /\ isTranslating s' = false /\
  inflight s' = delete 0%nat (inflight deleted_in_flight).
Proof.
  assert (H0 : inflight deleted_in_flight !! 0%nat = Some in_flight_request)
    by (vm_compute; reflexivity).
  assert (H1 : activeChatId in_flight_request ∉ thread_ids deleted_in_flight)
    by (vm_compute; apply not_elem_of_nil).
  split; [exact H0|]. split; [exact H1|].
  exact (X5_reply_for_deleted_thread_is_dropped deleted_in_flight 0
           in_flight_request FetchRejected 1200 H0 H1).
Defined.

(** A request settles after its submission, whatever happened in
    between to the fields it does not read. *)
Lemma settle_after_submit (s s2 : State) (t1 t2 t3 : Z) (o : FetchOutcome)
    (now : Z) :
  truthy (trim (inputText s)) = true ->
  let s1 := step s (KeyDown (lit "Enter") false t1 t2 t3) in
  chats s2 = chats s1 -> inflight s2 = inflight s1 ->
  console s2 = console s1 ->
  let s3 := step s2 (Settle (length (inflight s)) o now) in
  chats s3
  = append_message (ensure_active_chat t1 t2 s).2
      (match try_response o with
       | inr translatedText =>
           aiMsg_of now translatedText
             (default (LANGUAGES_at 1) (find_language (targetLang s)))
       | inl _ => errorMsg_of now
       end) <$> chats s1 /\
  isTranslating s3 = false /\ inflight s3 = inflight s /\
  console s3 = console s ++ match try_response o with
                            | inr _ => []
                            | inl _ => [lit "Translation failed:"]
                            end.
Proof.
  intros Hb s1 Hc2 Hf2 Hcon2 s3.
  destruct (commit_handleTranslate t1 t2 t3 s Hb)
    as (_ & _ & _ & _ & _ & _ & Hcon1 & _ & Hfl1).
  rewrite <- (step_enter s t1 t2 t3) in Hcon1, Hfl1.
  change (step s (KeyDown (lit "Enter") false t1 t2 t3)) with s1 in Hcon1, Hfl1.
  assert (Hp : inflight s2 !! length (inflight s) = Some (pending_of t1 t2 s)).
  { rewrite Hf2, Hfl1. apply list_lookup_middle. reflexivity. }
  subst s3. rewrite (step_settle _ _ _ _ _ Hp).
  destruct (commit_settled (pending_of t1 t2 s) o now
              (set_inflight (delete (length (inflight s)) (inflight s2)) s2))
    as (Hc & _ & _ & Ht & _ & _ & Hcon & _ & Hf).
  rewrite Hc, Ht, Hf, Hcon.
  replace (chats (set_inflight _ s2)) with (chats s2) by (destruct s2; reflexivity).
  replace (console (set_inflight _ s2)) with (console s2) by (destruct s2; reflexivity).
  replace (inflight (set_inflight (delete (length (inflight s)) (inflight s2)) s2))
    with (delete (length (inflight s)) (inflight s2)) by (destruct s2; reflexivity).
  rewrite Hc2, Hcon2, Hcon1, Hf2, Hfl1.
  repeat split. rewrite (delete_middle (inflight s) []). apply app_nil_r.
Qed.

(** X6. A reply is labelled with the target language selected when the
    message was submitted: changing the target selector while the request
    is in flight changes neither the label nor the code of the assistant
    message, which is appended to the thread that was active at
    submission. *)
Theorem X6_reply_labelled_with_language_at_submission
    (s : State) (t1 t2 t3 : Z) (value translatedText : jsstring) (now : Z) :
  truthy (trim (inputText s)) = true ->
  let s1 := step s (KeyDown (lit "Enter") false t1 t2 t3) in
  let s2 := step s1 (ChangeTargetLang value) in
  let s3 :=
    step s2 (Settle (length (inflight s)) (Resolved (Ok200 translatedText)) now) in
  let targetObj := default (LANGUAGES_at 1) (find_language (targetLang s)) in
  let aiMsg := aiMsg_of now translatedText targetObj in
  chats s3 = append_message (ensure_active_chat t1 t2 s).2 aiMsg <$> chats s1 /\
  Message.langLabel aiMsg = label targetObj /\
  Message.langCode aiMsg = code targetObj /\
  isTranslating s3 = false /\ inflight s3 = inflight s /\
  console s3 = console s.
Proof.
  intros Hb s1 s2 s3 targetObj aiMsg.
  assert (Hc2 : chats s2 = chats s1) by (subst s2; by_frame FChats).
  assert (Hf2 : inflight s2 = inflight s1) by (subst s2; by_frame FInflight).
  assert (Hcon2 : console s2 = console s1) by (subst s2; by_frame FConsole).
  destruct (settle_after_submit s s2 t1 t2 t3
              (Resolved (Ok200 translatedText)) now Hb Hc2 Hf2 Hcon2)
    as (Hc & Ht & Hf & Hcon).
  cbn [try_response] in Hc, Hcon. rewrite app_nil_r in Hcon.
  repeat split; assumption.
Qed.

Lemma X6_witness :
  truthy (trim (inputText typed_hello)) = true /\
  let s := typed_hello in
  let s1 := step s (KeyDown (lit "Enter") false 1000 1000 1001) in
  let s2 := step s1 (ChangeTargetLang (lit "de-DE")) in
  let s3 :=
    step s2 (Settle (length (inflight s)) (Resolved (Ok200 (lit "Bonjour")))
               1200) in
  let targetObj := default (LANGUAGES_at 1) (find_language (targetLang s)) in
  let aiMsg := aiMsg_of 1200 (lit "Bonjour") targetObj in
  chats s3
  = append_message (ensure_active_chat 1000 1000 s).2 aiMsg <$> chats s1 /\
  Message.langLabel aiMsg = label targetObj /\
  Message.langCode aiMsg = code targetObj /\
  isTranslating s3 = false /\ inflight s3 = inflight s /\
  console s3 = console s.
Proof.
  split; [reflexivity|].
  exact (X6_reply_labelled_with_language_at_submission typed_hello
           1000 1000 1001 (lit "de-DE") (lit "Bonjour") 1200 eq_refl).
Defined.

(** X7. While no translation is in flight, clicking the send button and
    pressing Enter without Shift do the same thing. *)
Theorem X7_send_button_is_the_enter_key_when_idle
    (s : State) (t1 t2 t3 : Z) :
  isTranslating s = false ->
  step s (ClickSend t1 t2 t3) = step s (KeyDown (lit "Enter") false t1 t2 t3).
Proof.
  intros H. cbn [step]. unfold send_disabled. rewrite H, orb_false_r.
  rewrite bool_decide_eq_true_2 by reflexivity. cbn [andb negb].
  destruct (truthy (trim (inputText s))) eqn:Hb; [reflexivity|].
  cbn [negb]. unfold commit. rewrite (handleTranslate_blank _ _ _ _ Hb).
  reflexivity.
Qed.

Lemma X7_witness :
  isTranslating typed_hello = false /\
  step typed_hello (ClickSend 1000 1000 1001)
  = step typed_hello (KeyDown (lit "Enter") false 1000 1000 1001).
Proof.
  split; [reflexivity|].
  exact (X7_send_button_is_the_enter_key_when_idle typed_hello
           1000 1000 1001 eq_refl).
Defined.

(** X8. A submission clears the input box, so pressing Enter again, or
    clicking send, without typing does nothing. *)
Theorem X8_second_enter_without_typing_does_nothing
    (s : State) (t1 t2 t3 t1' t2' t3' : Z) :
  truthy (trim (inputText s)) = true ->
  let s1 := step s (KeyDown (lit "Enter") false t1 t2 t3) in
  inputText s1 = [] /\
  step s1 (KeyDown (lit "Enter") false t1' t2' t3') = s1 /\
  step s1 (ClickSend t1' t2' t3') = s1.
Proof.
  intros Hb s1.
  destruct (commit_handleTranslate t1 t2 t3 s Hb) as (_ & _ & Hin & _).
  rewrite <- (step_enter s t1 t2 t3) in Hin.
  change (step s (KeyDown (lit "Enter") false t1 t2 t3)) with s1 in Hin.
  split; [exact Hin|].
  apply (submit_blank_rejected t1' t2' t3' s1 (lit "Enter") false).
  rewrite Hin. reflexivity.
Qed.

Lemma X8_witness :
  truthy (trim (inputText typed_hello)) = true /\
  let s1 := step typed_hello (KeyDown (lit "Enter") false 1000 1000 1001) in
  inputText s1 = [] /\
  step s1 (KeyDown (lit "Enter") false 2000 2000 2001) = s1 /\
  step s1 (ClickSend 2000 2000 2001) = s1.
Proof.
  split; [reflexivity|].
  exact (X8_second_enter_without_typing_does_nothing typed_hello
           1000 1000 1001 2000 2000 2001 eq_refl).
Defined.

(** *** Blank input and the request posted *)

Section Blank.
Lemma trimStart_nil s :
  trimStart s = [] <-> Forall (fun c => is_white_space c = true) s.
Proof.
  induction s as [|c r IH]; [split; [constructor|reflexivity]|].
  cbn [trimStart]. destruct (is_white_space c) eqn:Hc.
  - rewrite IH. split; [intros H; constructor; assumption|].
    intros H. apply Forall_cons in H as [_ H]. exact H.
  - split; [discriminate|]. intros H. apply Forall_cons in H as [H _].
    congruence.
Qed.

Lemma trimStart_head s c r :
  trimStart s = c :: r -> is_white_space c = false.
Proof.
  induction s as [|d s IH]; [discriminate|]. cbn [trimStart].
  destruct (is_white_space d) eqn:Hd; [exact IH|]. intros [= -> _]. exact Hd.
Qed.

Lemma truthy_rev (s : jsstring) : truthy (rev s) = truthy s.
Proof.
  destruct s as [|c r]; [reflexivity|]. cbn [rev truthy].
  destruct (rev r); reflexivity.
Qed.

(** A string trims to the empty string exactly when all of it is white
    space. *)
Lemma trim_blank s :
  truthy (trim s) = false <-> Forall (fun c => is_white_space c = true) s.
Proof.
  unfold trim. rewrite truthy_rev. rewrite <- trimStart_nil.
  destruct (trimStart s) as [|c r] eqn:Hs.
  - split; reflexivity.
  - split; [|discriminate]. intros H.
    assert (Hn : trimStart (rev (c :: r)) = []) by
      (destruct (trimStart (rev (c :: r))); [reflexivity|discriminate]).
    apply trimStart_nil in Hn. cbn [rev] in Hn.
    apply Forall_app in Hn as [_ Hn]. apply Forall_cons in Hn as [Hc _].
    apply trimStart_head in Hs. congruence.
Qed.

Lemma truthy_trim s : truthy (trim s) = true -> truthy s = true.
Proof. destruct s; [discriminate|reflexivity]. Qed.
End Blank.

(** X9. Pressing Enter without Shift leaves the page state unchanged
    exactly when the input consists of white space only (the empty input
    included). *)
Theorem X9_submission_rejected_iff_white_space
    (s : State) (t1 t2 t3 : Z) :
  step s (KeyDown (lit "Enter") false t1 t2 t3) = s <->
  Forall (fun c => is_white_space c = true) (inputText s).
Proof.
  rewrite <- trim_blank. split.
  - intros H. destruct (truthy (trim (inputText s))) eqn:Hb; [|reflexivity].
    destruct (commit_handleTranslate t1 t2 t3 s Hb)
      as (_ & _ & _ & _ & _ & _ & _ & _ & Hf).
    rewrite <- step_enter, H in Hf.
    apply (f_equal length) in Hf. rewrite length_app in Hf. cbn in Hf. lia.
  - intros Hb. apply (submit_blank_rejected t1 t2 t3 s _ _ Hb).
Qed.

Section Languages.
Lemma has_option_cases v :
  has_option v = true ->
  truthy v = true /\ v <> lit "auto" /\
  exists l, find_language v = Some l /\ code l = v.
Proof.
  unfold has_option. intros H. apply bool_decide_eq_true in H.
  cbn in H. repeat (apply elem_of_cons in H as [->|H];
                    [split; [reflexivity|split; [discriminate|]];
                     eexists; split; reflexivity|]).
  apply elem_of_nil in H. destruct H.
Qed.
End Languages.

(** X10. The request a submission posts passes the validation of the
    route when both selected languages are options of the selectors: the
    route sends one upstream request, with [q] the text as typed and
    [langpair] the primary subtags of the two selected languages, and
    does not answer 400. *)
Theorem X10_page_request_passes_route_validation
    (axios_get : AxiosRequest -> AxiosResult) (s : State) (t1 t2 t3 : Z) :
  truthy (trim (inputText s)) = true ->
  languages_selected s = true ->
  let s1 := step s (KeyDown (lit "Enter") false t1 t2 t3) in
  exists p req,
    inflight s1 = inflight s ++ [p] /\
    (POST axios_get (request p)).1 = [req] /\
    q req = inputText s /\
    langpair req
    = primary_subtag (sourceLang s) ++ lit "|" ++ primary_subtag (targetLang s) /\
    status (POST axios_get (request p)).2 <> 400.
Proof.
  intros Hb Hl s1. apply andb_true_iff in Hl as [Hsl Htl].
  destruct (has_option_cases _ Hsl) as (_ & Hauto & _).
  destruct (has_option_cases _ Htl) as (Htt & _ & _).
  destruct (commit_handleTranslate t1 t2 t3 s Hb)
    as (_ & _ & _ & _ & _ & _ & _ & _ & Hf).
  rewrite <- step_enter in Hf. fold s1 in Hf.
  exists (pending_of t1 t2 s). unfold pending_of at 2 3. cbn [request].
  unfold POST. cbn [body_text body_targetLang body_sourceLang].
  rewrite (truthy_trim _ Hb), Htt. cbn [negb orb]. cbn zeta.
  rewrite bool_decide_eq_false_2 by exact Hauto.
  rewrite !split_primary_subtag.
  eexists. split; [exact Hf|].
  destruct (axios_get _) as [|st d [t|]]; [|case_bool_decide..];
    repeat split; discriminate.
Qed.

Lemma X10_witness :
  truthy (trim (inputText typed_hello)) = true /\
  languages_selected typed_hello = true /\
  let s := typed_hello in
  let s1 := step s (KeyDown (lit "Enter") false 1000 1000 1001) in
  exists p req,
    inflight s1 = inflight s ++ [p] /\
    (POST upstream_bonjour (request p)).1 = [req] /\
    q req = inputText s /\
    langpair req
    = primary_subtag (sourceLang s) ++ lit "|" ++ primary_subtag (targetLang s) /\
    status (POST upstream_bonjour (request p)).2 <> 400.
Proof.
  split; [reflexivity|]. split; [vm_compute; reflexivity|].
  exact (X10_page_request_passes_route_validation upstream_bonjour typed_hello
           1000 1000 1001 eq_refl eq_refl).
Defined.

(** *** Reloading *)

Section Reload.
Implicit Types (s : State) (storage : gmap jsstring jsstring).

Lemma save_effect_storage_on s0 s :
  localStorage (apply_actions (save_effect s0).1 s) =
    if save_cond (chats s0) (localStorage s0 !! storage_key)
    then <[storage_key := JSON_stringify (encode_chats (chats s0))]>
           (localStorage s)
    else localStorage s.
Proof.
  rewrite save_effect_actions. destruct (save_cond _ _), s; reflexivity.
Qed.

Lemma mount_saved_state storage l :
  storage !! storage_key = Some (JSON_stringify (encode_chats l)) ->
  exists s', mount storage = Mounted s' /\ chats s' = l /\
             currentChatId s' = head (ChatSession.id <$> l) /\
             localStorage s' = storage.
Proof.
  intros H. unfold mount. rewrite (load_effect_saved _ _ H).
  eexists. split; [reflexivity|]. cbn [sets_chats existsb orb].
  rewrite save_effect_chats, save_effect_currentChatId.
  rewrite apply_actions_app, save_effect_chats, save_effect_currentChatId.
  split; [destruct l; reflexivity|]. split; [destruct l; reflexivity|].
  rewrite save_effect_storage, save_effect_chats, save_effect_storage_on.
  cbn [chats localStorage initial]. rewrite H.
  unfold save_cond at 2.
  cbn [length Nat.ltb Nat.leb Nat.eqb orb andb item_truthy].
  rewrite stringify_chats_truthy.
  replace (chats (apply_actions _ (initial storage))) with l
    by (destruct l; reflexivity).
  replace (localStorage (apply_actions _ (initial storage))) with storage
    by (destruct l; reflexivity).
  unfold save_cond. rewrite lookup_insert_eq. cbn [item_truthy truthy].
  replace ((0 <? length l)%nat || (length l =? 0)%nat && _) with true
    by (destruct l; reflexivity).
  rewrite stringify_chats_truthy.
  cbn [length Nat.ltb Nat.leb Nat.eqb orb andb].
  rewrite insert_insert_eq. apply insert_id, H.
Qed.

Lemma mount_nothing_state storage :
  item_truthy (storage !! storage_key) = false ->
  mount storage = Mounted (initial storage).
Proof.
  intros H. unfold mount, load_effect. cbn [localStorage initial].
  rewrite save_effect_actions. cbn [chats localStorage initial].
  unfold save_cond. rewrite H.
  destruct (storage !! storage_key) as [blob|]; cbn [item_truthy] in H;
    [rewrite H|]; reflexivity.
Qed.

Lemma step_synced s e : synced s -> synced (step s e).
Proof.
  intros Hs. destruct (step_persisted s e) as [[Hc Hst]|Hst].
  - unfold synced. rewrite Hc, Hst. exact Hs.
  - unfold synced. rewrite Hst. unfold save_cond.
    destruct (chats (step s e)) as [|c l] eqn:Hc.
    + cbn [length Nat.ltb Nat.leb Nat.eqb orb andb].
      destruct (item_truthy (localStorage s !! storage_key)) eqn:Hi.
      * left. apply lookup_insert_eq.
      * right. split; [reflexivity|exact Hi].
    + left. apply lookup_insert_eq.
Qed.

Lemma mount_synced storage s : mount storage = Mounted s -> synced s.
Proof.
  destruct (item_truthy (storage !! storage_key)) eqn:Hi.
  - destruct (storage !! storage_key) as [blob|] eqn:Hb; [|discriminate].
    cbn [item_truthy] in Hi. unfold mount, load_effect.
    cbn [localStorage initial]. rewrite Hb, Hi.
    assert (Hsave : (save_effect (initial storage)).1
                    = [StorageSetItem storage_key (lit "[]")]).
    { rewrite save_effect_actions. cbn [chats localStorage initial].
      rewrite Hb. unfold save_cond. cbn [item_truthy]. rewrite Hi.
      reflexivity. }
    rewrite Hsave. destruct (JSON_parse blob) as [parsed|].
    + destruct (decode_chats parsed) as [l|]; [|discriminate].
      intros [= <-]. cbn [sets_chats existsb orb]. left.
      rewrite save_effect_storage, save_effect_chats.
      try rewrite apply_actions_app.
      match goal with
      | |- context [apply_actions [StorageSetItem _ _] ?m] => set (mid := m)
      end.
      assert (Hc : chats mid = l) by (subst mid; destruct l; reflexivity).
      assert (Hs : localStorage mid = storage)
        by (subst mid; destruct l; reflexivity).
      replace (chats (apply_actions [StorageSetItem storage_key (lit "[]")] mid))
        with l by (rewrite <- Hc; destruct mid; reflexivity).
      replace (localStorage
                 (apply_actions [StorageSetItem storage_key (lit "[]")] mid))
        with (<[storage_key := lit "[]"]> storage)
        by (rewrite <- Hs; destruct mid; reflexivity).
      unfold save_cond. rewrite lookup_insert_eq. cbn [item_truthy].
      replace ((0 <? length l)%nat || (length l =? 0)%nat && _) with true
        by (destruct l; reflexivity).
      apply lookup_insert_eq.
    + intros [= <-]. cbn [sets_chats existsb orb app]. left.
      apply lookup_insert_eq.
  - intros Hm. rewrite (mount_nothing_state _ Hi) in Hm.
    injection Hm as <-. right. split; [reflexivity|exact Hi].
Qed.
End Reload.

(** X11. Mounting the page on a non-empty blob that [JSON.parse] rejects
    overwrites it: after the mount the slot holds the empty list, written
    by the save effect, which sees an empty [chats] and a truthy slot. *)
Theorem X11_corrupt_blob_is_overwritten
    (storage : gmap jsstring jsstring) (blob : jsstring) :
  storage !! storage_key = Some blob ->
  truthy blob = true ->
  JSON_parse blob = None ->
  exists s, mount storage = Mounted s /\
            localStorage s = <[storage_key := lit "[]"]> storage.
Proof.
  intros Hb Ht Hp. unfold mount, load_effect. cbn [localStorage initial].
  rewrite Hb, Ht, Hp. eexists. split; [reflexivity|].
  cbn [sets_chats existsb orb app]. rewrite apply_actions_cons.
  rewrite save_effect_actions. cbn [chats localStorage initial].
  rewrite Hb. unfold save_cond.
  cbn [length Nat.ltb Nat.leb Nat.eqb orb andb item_truthy]. rewrite Ht.
  reflexivity.
Qed.

Lemma X11_witness :
  corrupt_storage !! storage_key = Some (lit "{not json") /\
  truthy (lit "{not json") = true /\
  JSON_parse (lit "{not json") = None /\
  exists s, mount corrupt_storage = Mounted s /\
            localStorage s = <[storage_key := lit "[]"]> corrupt_storage.
Proof.
  assert (H0 : corrupt_storage !! storage_key = Some (lit "{not json"))
    by (vm_compute; reflexivity).
  assert (H1 : JSON_parse (lit "{not json") = None)
    by (vm_compute; reflexivity).
  split; [exact H0|]. split; [reflexivity|]. split; [exact H1|].
  exact (X11_corrupt_blob_is_overwritten corrupt_storage (lit "{not json")
           H0 eq_refl H1).
Defined.

(** X12. After any sequence of events on a mounted page a reload
    restores the threads: the slot holds [JSON.stringify(chats)] (or, with
    an empty list, nothing the load effect would read), and a page
    mounted on that storage has the same thread list and selects its
    first thread. *)
Theorem X12_reload_restores_the_threads
    (storage : gmap jsstring jsstring) (s0 : State) (events : list Event) :
  mount storage = Mounted s0 ->
  let s := run s0 events in
  valid_chats (chats s) = true ->
  synced s /\
  exists s', mount (localStorage s) = Mounted s' /\
             chats s' = chats s /\
             currentChatId s' = head (thread_ids s).
Proof.
  intros Hm s _.
  assert (Hs : synced s).
  { subst s. apply mount_synced in Hm. revert s0 Hm.
    induction events as [|e events IH]; intros s0 Hm; [exact Hm|].
    apply (IH (step s0 e)), step_synced, Hm. }
  split; [exact Hs|]. destruct Hs as [Hs|[Hc Hs]].
  - destruct (mount_saved_state _ _ Hs) as (s' & H1 & H2 & H3 & _). eauto.
  - rewrite (mount_nothing_state _ Hs). eexists. split; [reflexivity|].
    unfold thread_ids. rewrite Hc. split; reflexivity.
Qed.

Lemma X12_witness :
  mount ∅ = Mounted (initial ∅) /\
  let s := run (initial ∅) hello_events in
  valid_chats (chats s) = true /\
  synced s /\
  exists s', mount (localStorage s) = Mounted s' /\
             chats s' = chats s /\
             currentChatId s' = head (thread_ids s).
Proof.
  assert (H0 : mount ∅ = Mounted (initial ∅)) by (vm_compute; reflexivity).
  assert (H1 : valid_chats (chats (run (initial ∅) hello_events)) = true)
    by (vm_compute; reflexivity).
  split; [exact H0|]. split; [exact H1|].
  exact (X12_reload_restores_the_threads ∅ (initial ∅) hello_events H0 H1).
Defined.

(** X13. Nothing is written before a thread exists: while the key is
    absent, an event that leaves the thread list empty leaves
    [localStorage] unchanged. *)
Theorem X13_nothing_is_written_before_a_thread_exists
    (s : State) (e : Event) :
  localStorage s !! storage_key = None ->
  chats (step s e) = [] ->
  localStorage (step s e) = localStorage s.
Proof.
  intros Hk Hc. destruct (step_persisted s e) as [[_ Hst]|Hst]; [exact Hst|].
  rewrite Hst, Hc, Hk. reflexivity.
Qed.

Lemma X13_witness :
  localStorage (initial ∅) !! storage_key = None /\
  chats (step (initial ∅) (ChangeInput (lit "Hello"))) = [] /\
  localStorage (step (initial ∅) (ChangeInput (lit "Hello")))
  = localStorage (initial ∅).
Proof.
  assert (H0 : localStorage (initial ∅) !! storage_key = None)
    by (vm_compute; reflexivity).
  split; [exact H0|]. split; [reflexivity|].
  exact (X13_nothing_is_written_before_a_thread_exists (initial ∅)
           (ChangeInput (lit "Hello")) H0 eq_refl).
Defined.

(** *** The thread list after an event *)

Section ThreadList.
Implicit Types (s : State) (e : Event) (c : ChatSession.t).

Lemma chats_set_inflight fl s : chats (set_inflight fl s) = chats s.
Proof. destruct s; reflexivity. Qed.

Lemma currentChatId_set_inflight fl s :
  currentChatId (set_inflight fl s) = currentChatId s.
Proof. destruct s; reflexivity. Qed.

(** What [createNewChat] leaves before the re-render: the newest thread
    reused, or a new thread in front; the id it returns is selected. *)
Lemma createNewChat_mid t1 t2 s :
  let mid := apply_actions (createNewChat t1 t2 s).1 s in
  let r := (createNewChat t1 t2 s).2 in
  currentChatId mid = Some r /\
  ((newest_in_use s = false /\ chats mid = chats s /\
    exists c l, chats s = c :: l /\ ChatSession.messages c = [] /\
                r = ChatSession.id c) \/
   (newest_in_use s = true /\ chats mid = newChat_of t1 t2 :: chats s /\
    r = Number_toString t1)).
Proof.
  cbn zeta. unfold createNewChat, newest_in_use; unfold_handler.
  destruct (chats s) as [|c l] eqn:Hc.
  - cbn. split; [destruct s; reflexivity|]. right.
    split; [reflexivity|]. split; [|reflexivity].
    destruct s; cbn in *; subst; reflexivity.
  - destruct (length (ChatSession.messages c) =? 0)%nat eqn:Hm.
    + cbn. split; [destruct s; reflexivity|]. left.
      split; [reflexivity|]. split; [destruct s; cbn in *; congruence|].
      exists c, l. split; [reflexivity|]. split; [|reflexivity].
      apply Nat.eqb_eq in Hm. destruct (ChatSession.messages c);
        [reflexivity|discriminate].
    + cbn. split; [destruct s; reflexivity|]. right.
      split; [reflexivity|]. split; [|reflexivity].
      destruct s; cbn in *; subst; reflexivity.
Qed.

(** The same for the choice of the active thread at a submission. *)
Lemma ensure_active_chat_mid t1 t2 s :
  let mid := apply_actions (ensure_active_chat t1 t2 s).1 s in
  let r := (ensure_active_chat t1 t2 s).2 in
  (mid = s /\ currentChatId s = Some r) \/
  (currentChatId mid = Some r /\
   ((chats mid = chats s /\
     exists c l, chats s = c :: l /\ r = ChatSession.id c) \/
    (chats mid = newChat_of t1 t2 :: chats s /\ r = Number_toString t1))).
Proof.
  cbn zeta. unfold ensure_active_chat; unfold_handler.
  pose proof (createNewChat_mid t1 t2 s) as H. cbn zeta in H.
  assert (Hnew :
    currentChatId (apply_actions (createNewChat t1 t2 s).1 s)
    = Some (createNewChat t1 t2 s).2 /\
    ((chats (apply_actions (createNewChat t1 t2 s).1 s) = chats s /\
      exists c l, chats s = c :: l /\
                  (createNewChat t1 t2 s).2 = ChatSession.id c) \/
     (chats (apply_actions (createNewChat t1 t2 s).1 s)
      = newChat_of t1 t2 :: chats s /\
      (createNewChat t1 t2 s).2 = Number_toString t1))).
  { destruct H as [H1 [(_ & H2 & c & l & H3 & _ & H4)|(_ & H2 & H3)]].
    - split; [exact H1|]. left. split; [exact H2|]. exists c, l. auto.
    - split; [exact H1|]. right. auto. }
  destruct (currentChatId s) as [id|] eqn:Hcur.
  - destruct (truthy id).
    + left. split; reflexivity.
    + right. destruct (createNewChat t1 t2 s). exact Hnew.
  - right. destruct (createNewChat t1 t2 s). exact Hnew.
Qed.

Lemma filter_deleted_none e (l : list ChatSession.t) :
  deleted e = None ->
  filter (fun c => deleted e <> Some (ChatSession.id c)) l = l.
Proof.
  intros H. apply filter_all, Forall_forall. intros c _. rewrite H.
  discriminate.
Qed.

Lemma fresh_threads_none e : fresh_threads e [].
Proof. left. reflexivity. Qed.

(** The thread list after an event: the threads of before, without the
    deleted one, behind at most one new thread, each passed through one
    updater. *)
Lemma step_chats s e :
  exists new f,
    fresh_threads e new /\ appends f /\
    chats (step s e)
    = f <$> (new ++ filter (fun c => deleted e <> Some (ChatSession.id c))
                      (chats s)).
Proof.
  assert (Hsame : deleted e = None -> chats (step s e) = chats s ->
    exists new f,
      fresh_threads e new /\ appends f /\
      chats (step s e)
      = f <$> (new ++ filter (fun c => deleted e <> Some (ChatSession.id c))
                        (chats s))).
  { intros Hd Hc. exists [], (fun chat => chat).
    split; [apply fresh_threads_none|]. split; [constructor|].
    rewrite Hc, (filter_deleted_none _ _ Hd). cbn [app].
    symmetry. apply list_fmap_id. }
  assert (Hsubmit : forall t1 t2 t3,
    new_thread_clocks e = Some (t1, t2) -> deleted e = None ->
    exists new f,
      fresh_threads e new /\ appends f /\
      chats (commit (handleTranslate t1 t2 t3) s).2
      = f <$> (new ++ filter (fun c => deleted e <> Some (ChatSession.id c))
                        (chats s))).
  { intros t1 t2 t3 Hk Hd. rewrite (filter_deleted_none _ _ Hd).
    destruct (truthy (trim (inputText s))) eqn:Hb.
    - rewrite (chats_handleTranslate _ _ _ _ Hb).
      destruct (ensure_active_chat_mid t1 t2 s)
        as [[-> _]|[_ [[-> _]|[-> _]]]].
      + exists [], (append_user_message (ensure_active_chat t1 t2 s).2
                      (inputText s)
                      (userMsg_of t3 (inputText s) (sourceLang s))).
        split; [apply fresh_threads_none|]. split; [constructor|reflexivity].
      + exists [], (append_user_message (ensure_active_chat t1 t2 s).2
                      (inputText s)
                      (userMsg_of t3 (inputText s) (sourceLang s))).
        split; [apply fresh_threads_none|]. split; [constructor|reflexivity].
      + exists [newChat_of t1 t2],
          (append_user_message (ensure_active_chat t1 t2 s).2
             (inputText s) (userMsg_of t3 (inputText s) (sourceLang s))).
        split; [right; eauto|]. split; [constructor|reflexivity].
    - unfold commit. rewrite (handleTranslate_blank _ _ _ _ Hb).
      exists [], (fun chat => chat).
      split; [apply fresh_threads_none|]. split; [constructor|].
      symmetry. apply list_fmap_id. }
  destruct e;
    try (apply Hsame; [reflexivity|by_frame FChats]).
  - (* ClickNewChat *)
    cbn [step]. unfold commit.
    destruct (createNewChat_mid now_id now_created s)
      as [_ [(_ & Hc & _)|(_ & Hc & _)]];
      destruct (createNewChat now_id now_created s) as [acts r];
      cbn [fst snd] in *;
      (destruct (sets_chats acts); [rewrite save_effect_chats|]);
      rewrite Hc, filter_deleted_none by reflexivity.
    1,2: exists [], (fun chat => chat);
      (split; [apply fresh_threads_none|]); (split; [constructor|]);
      symmetry; apply list_fmap_id.
    1,2: exists [newChat_of now_id now_created], (fun chat => chat);
      (split; [right; exists now_id, now_created; split; reflexivity|]);
      (split; [constructor|]); symmetry; apply list_fmap_id.
  - (* ClickDelete *)
    cbn [step]. unfold has_row. case_bool_decide as Hrow.
    + unfold commit. rewrite deleteChat_actions. cbn zeta.
      cbn [fst snd sets_chats existsb orb]. rewrite save_effect_chats.
      exists [], (fun chat => chat).
      split; [apply fresh_threads_none|]. split; [constructor|].
      rewrite list_fmap_id. cbn [app deleted].
      replace (chats (apply_actions _ s))
        with (filter (fun c => ChatSession.id c <> id) (chats s))
        by (case_bool_decide; destruct s; reflexivity).
      apply list_filter_iff. intros c. split; congruence.
    + exists [], (fun chat => chat).
      split; [apply fresh_threads_none|]. split; [constructor|].
      rewrite list_fmap_id. cbn [app deleted]. symmetry.
      apply filter_all, Forall_forall. intros c Hc Heq.
      apply Hrow. injection Heq as ->. apply list_elem_of_fmap_2, Hc.
  - (* KeyDown *)
    cbn [step].
    match goal with |- context [if ?b then _ else _] => destruct b end.
    + apply Hsubmit; reflexivity.
    + exists [], (fun chat => chat).
      split; [apply fresh_threads_none|]. split; [constructor|].
      rewrite filter_deleted_none by reflexivity. symmetry.
      apply list_fmap_id.
  - (* ClickSend *)
    cbn [step]. destruct (send_disabled s).
    + exists [], (fun chat => chat).
      split; [apply fresh_threads_none|]. split; [constructor|].
      rewrite filter_deleted_none by reflexivity. symmetry.
      apply list_fmap_id.
    + apply Hsubmit; reflexivity.
  - (* Settle *)
    cbn [step]. destruct (inflight s !! i) as [p|] eqn:Hp.
    + destruct (commit_settled p outcome now
                  (set_inflight (delete i (inflight s)) s)) as (Hc & _).
      rewrite Hc, chats_set_inflight, filter_deleted_none by reflexivity.
      eexists [], _. split; [apply fresh_threads_none|].
      split; [constructor|reflexivity].
    + exists [], (fun chat => chat).
      split; [apply fresh_threads_none|]. split; [constructor|].
      rewrite filter_deleted_none by reflexivity. symmetry.
      apply list_fmap_id.
Qed.
End ThreadList.

(** *** Threads are extended, never edited *)

Section Invariants.
Implicit Types (s : State) (e : Event) (c : ChatSession.t).

Lemma appends_id f c : appends f -> ChatSession.id (f c) = ChatSession.id c.
Proof.
  intros []; [reflexivity|..];
    unfold append_user_message, append_message; case_bool_decide; reflexivity.
Qed.

Lemma appends_ids f (l : list ChatSession.t) :
  appends f -> ChatSession.id <$> (f <$> l) = ChatSession.id <$> l.
Proof.
  intros H. rewrite <- list_fmap_compose. apply list_fmap_ext.
  intros i c _. apply appends_id, H.
Qed.

Lemma extends_refl c : extends c c.
Proof. repeat split. reflexivity. Qed.

Lemma extends_trans c1 c2 c3 : extends c1 c2 -> extends c2 c3 -> extends c1 c3.
Proof.
  intros (H1 & H2 & H3 & H4) (H5 & H6 & H7 & H8).
  split; [congruence|]. split; [congruence|].
  split; [etrans; eassumption|]. intros Hne. rewrite H8, H4; [reflexivity|exact Hne|].
  intros Hnil. rewrite Hnil in H3. apply prefix_nil_inv in H3. contradiction.
Qed.

Lemma appends_extends f c : appends f -> extends c (f c).
Proof.
  intros []; [apply extends_refl|..];
    unfold append_user_message, append_message; case_bool_decide;
    try apply extends_refl; cbn.
  - repeat split; [apply prefix_app_r; reflexivity|].
    intros Hne. destruct (ChatSession.messages c); [contradiction|reflexivity].
  - repeat split. apply prefix_app_r. reflexivity.
Qed.

Lemma step_keeps s e c :
  c ∈ chats s -> deleted e <> Some (ChatSession.id c) ->
  exists c', c' ∈ chats (step s e) /\ extends c c'.
Proof.
  intros Hc Hd. destruct (step_chats s e) as (new & f & _ & Hf & ->).
  exists (f c). split; [|apply appends_extends, Hf].
  apply list_elem_of_fmap_2, elem_of_app. right.
  apply list_elem_of_filter. split; assumption.
Qed.

Lemma thread_ids_step s e :
  exists new,
    fresh_threads e new /\
    thread_ids (step s e)
    = (ChatSession.id <$> new)
      ++ (ChatSession.id <$>
            filter (fun c => deleted e <> Some (ChatSession.id c)) (chats s)).
Proof.
  destruct (step_chats s e) as (new & f & Hn & Hf & Hc).
  exists new. split; [exact Hn|]. unfold thread_ids.
  rewrite Hc, (appends_ids _ _ Hf). apply fmap_app.
Qed.
End Invariants.

(** X14. A thread is only lost by deleting it: through any sequence of
    events that does not delete its id, a thread stays in the list with
    its id and [createdAt], its messages a prefix of the later ones and,
    once it has a message, its title. *)
Theorem X14_thread_kept_until_deleted
    (s : State) (events : list Event) (c : ChatSession.t) :
  c ∈ chats s ->
  Forall (fun e => deleted e <> Some (ChatSession.id c)) events ->
  exists c', c' ∈ chats (run s events) /\ extends c c'.
Proof.
  intros Hc He.
  assert (H : forall c0, ChatSession.id c0 = ChatSession.id c ->
            c0 ∈ chats s ->
            exists c', c' ∈ chats (run s events) /\ extends c0 c').
  { clear Hc. revert s.
    induction He as [|e events He _ IH]; intros s c0 Hid Hc0.
    - exists c0. split; [exact Hc0|apply extends_refl].
    - rewrite <- Hid in He.
      destruct (step_keeps s e c0 Hc0 He) as (c1 & Hc1 & He1).
      destruct (IH (step s e) c1) as (c' & Hc' & He').
      + rewrite <- Hid. apply He1.
      + exact Hc1.
      + exists c'. split; [exact Hc'|]. eapply extends_trans; eassumption. }
  apply H; [reflexivity|exact Hc].
Qed.

Lemma X14_witness :
  hello_chat ∈ chats two_chats /\
  Forall (fun e => deleted e <> Some (ChatSession.id hello_chat))
    [ClickDelete (lit "1000"); ClickNewChat 2000 2000] /\
  exists c',
    c' ∈ chats (run two_chats [ClickDelete (lit "1000"); ClickNewChat 2000 2000])
    /\ extends hello_chat c'.
Proof.
  assert (H0 : hello_chat ∈ chats two_chats)
    by (apply list_elem_of_further, list_elem_of_here).
  assert (H1 : Forall (fun e => deleted e <> Some (ChatSession.id hello_chat))
                 [ClickDelete (lit "1000"); ClickNewChat 2000 2000])
    by (repeat constructor; discriminate).
  split; [exact H0|]. split; [exact H1|].
  exact (X14_thread_kept_until_deleted two_chats _ hello_chat H0 H1).
Defined.

(** *** The selection *)

Section Selection.
Implicit Types (s : State) (e : Event) (c : ChatSession.t).

Lemma not_elem_of_ids_filter (P : ChatSession.t -> Prop)
    `{!forall c, Decision (P c)} (l : list ChatSession.t) (x : jsstring) :
  x ∉ ChatSession.id <$> l -> x ∉ ChatSession.id <$> filter P l.
Proof.
  intros Hx Hin. apply Hx. apply list_elem_of_fmap in Hin as (c & -> & Hc).
  apply list_elem_of_filter in Hc as [_ Hc]. apply list_elem_of_fmap_2, Hc.
Qed.

Lemma current_valid_eq s s' :
  thread_ids s' = thread_ids s -> currentChatId s' = currentChatId s ->
  current_valid s -> current_valid s'.
Proof. unfold current_valid. intros -> ->. auto. Qed.

Lemma current_valid_head s :
  currentChatId s = head (thread_ids s) -> current_valid s.
Proof.
  unfold current_valid. intros ->.
  destruct (thread_ids s) as [|x l]; [exact I|]. cbn. apply list_elem_of_here.
Qed.

Lemma submit_current_valid t1 t2 t3 s :
  current_valid s -> current_valid (commit (handleTranslate t1 t2 t3) s).2.
Proof.
  intros Hs. destruct (truthy (trim (inputText s))) eqn:Hb.
  - destruct (commit_handleTranslate t1 t2 t3 s Hb) as (Hc & Hcur & _).
    unfold current_valid, thread_ids. rewrite Hcur, Hc.
    rewrite appends_ids by constructor.
    destruct (ensure_active_chat_mid t1 t2 s)
      as [[-> _]|[-> [[-> (c & l & -> & ->)]|[-> ->]]]].
    + exact Hs.
    + apply list_elem_of_here.
    + apply list_elem_of_here.
  - unfold commit. rewrite (handleTranslate_blank _ _ _ _ Hb). exact Hs.
Qed.

(** Every event keeps the selection inside the thread list. *)
Lemma step_current_valid s e : current_valid s -> current_valid (step s e).
Proof.
  intros Hs.
  destruct e;
    try (apply (current_valid_eq s); [|by_frame FCurrentChatId|exact Hs];
         unfold thread_ids; f_equal; by_frame FChats).
  - (* ClickNewChat *)
    cbn [step]. unfold commit.
    destruct (createNewChat_mid now_id now_created s)
      as [Hcur [(_ & Hc & c & l & Hl & _ & Hr)|(_ & Hc & Hr)]];
      destruct (createNewChat now_id now_created s) as [acts r];
      cbn [fst snd] in *;
      (destruct (sets_chats acts);
       [unfold current_valid, thread_ids;
        rewrite save_effect_chats, save_effect_currentChatId|
        unfold current_valid, thread_ids]);
      rewrite Hcur, Hc, Hr; rewrite ?Hl; apply list_elem_of_here.
  - (* ClickChat *)
    cbn [step]. unfold has_row. case_bool_decide as Hrow; [|exact Hs].
    unfold current_valid, thread_ids. destruct s; exact Hrow.
  - (* ClickDelete *)
    cbn [step]. unfold has_row. case_bool_decide as Hrow; [|exact Hs].
    unfold commit. rewrite deleteChat_actions. cbn zeta.
    cbn [fst snd sets_chats existsb orb].
    unfold current_valid, thread_ids.
    rewrite save_effect_chats, save_effect_currentChatId.
    case_bool_decide as Hcur.
    + apply current_valid_head. destruct s; reflexivity.
    + replace (currentChatId (apply_actions _ s)) with (currentChatId s)
        by (destruct s; reflexivity).
      replace (chats (apply_actions _ s))
        with (filter (fun c => ChatSession.id c <> id) (chats s))
        by (destruct s; reflexivity).
      unfold current_valid, thread_ids in Hs.
      destruct (currentChatId s) as [cur|]; [|exact I].
      apply list_elem_of_fmap in Hs as (c & -> & Hc).
      apply list_elem_of_fmap_2, list_elem_of_filter.
      split; [congruence|exact Hc].
  - (* KeyDown *)
    cbn [step].
    match goal with |- context [if ?b then _ else _] => destruct b end;
      [apply submit_current_valid, Hs|exact Hs].
  - (* ClickSend *)
    cbn [step]. destruct (send_disabled s);
      [exact Hs|apply submit_current_valid, Hs].
  - (* Settle *)
    cbn [step]. destruct (inflight s !! i) as [p|]; [|exact Hs].
    destruct (commit_settled p outcome now
                (set_inflight (delete i (inflight s)) s)) as (Hc & Hcur & _).
    unfold current_valid, thread_ids.
    rewrite Hc, Hcur, chats_set_inflight, currentChatId_set_inflight.
    rewrite appends_ids by constructor. exact Hs.
Qed.

Lemma mount_current_valid storage s :
  mount storage = Mounted s -> current_valid s.
Proof.
  unfold mount, load_effect. cbn [localStorage initial].
  destruct (storage !! storage_key) as [blob|];
    [destruct (truthy blob);
     [destruct (JSON_parse blob) as [parsed|];
      [destruct (decode_chats parsed) as [l|]; [|discriminate]|]|]|];
    intros [= <-]; cbn [sets_chats existsb orb];
    unfold current_valid;
    rewrite ?save_effect_currentChatId, ?save_effect_chats;
    rewrite ?apply_actions_app; unfold thread_ids;
    rewrite ?save_effect_currentChatId, ?save_effect_chats;
    try exact I.
  destruct l as [|c l]; [exact I|]. apply list_elem_of_here.
Qed.

Lemma getCurrentChat_Some s id :
  currentChatId s = Some id -> id ∈ thread_ids s ->
  exists c, getCurrentChat s = Some c /\ ChatSession.id c = id /\ c ∈ chats s.
Proof.
  unfold getCurrentChat, thread_ids. intros -> Hin.
  induction (chats s) as [|c l IH]; [inversion Hin|].
  cbn [List.find]. case_bool_decide as Hc.
  - exists c. split; [reflexivity|]. split; [congruence|apply list_elem_of_here].
  - apply elem_of_cons in Hin as [->|Hin]; [contradiction Hc; reflexivity|].
    destruct (IH Hin) as (c' & H1 & H2 & H3). exists c'.
    split; [exact H1|]. split; [exact H2|]. apply list_elem_of_further, H3.
Qed.
End Selection.

(** X15. On a mounted page the selected thread always exists: after
    any sequence of events, if [currentChatId] is set then
    [getCurrentChat()] finds a thread with that id. *)
Theorem X15_selected_thread_exists
    (storage : gmap jsstring jsstring) (s0 : State) (events : list Event)
    (id : jsstring) :
  mount storage = Mounted s0 ->
  currentChatId (run s0 events) = Some id ->
  exists c, getCurrentChat (run s0 events) = Some c /\ ChatSession.id c = id.
Proof.
  intros Hm Hcur.
  assert (Hv : current_valid (run s0 events)).
  { apply mount_current_valid in Hm. clear Hcur. revert s0 Hm.
    induction events as [|e events IH]; intros s0 Hm; [exact Hm|].
    apply (IH (step s0 e)), step_current_valid, Hm. }
  unfold current_valid in Hv. rewrite Hcur in Hv.
  destruct (getCurrentChat_Some _ _ Hcur Hv) as (c & H1 & H2 & _). eauto.
Qed.

Lemma X15_witness :
  mount ∅ = Mounted (initial ∅) /\
  currentChatId (run (initial ∅) hello_events) = Some (lit "1000") /\
  exists c, getCurrentChat (run (initial ∅) hello_events) = Some c /\
            ChatSession.id c = lit "1000".
Proof.
  assert (H0 : mount ∅ = Mounted (initial ∅)) by (vm_compute; reflexivity).
  assert (H1 : currentChatId (run (initial ∅) hello_events) = Some (lit "1000"))
    by (vm_compute; reflexivity).
  split; [exact H0|]. split; [exact H1|].
  exact (X15_selected_thread_exists ∅ (initial ∅) hello_events (lit "1000")
           H0 H1).
Defined.

(** X16. Thread ids stay unique through an event as long as the clock
    reading [createNewChat] would take for it is not the id of a thread
    of the list. *)
Theorem X16_thread_ids_stay_unique (s : State) (e : Event) :
  NoDup (thread_ids s) -> fresh_clock s e = true ->
  NoDup (thread_ids (step s e)).
Proof.
  intros Hnd Hfr. destruct (thread_ids_step s e) as (new & Hn & ->).
  assert (Hold : NoDup (ChatSession.id <$>
            filter (fun c => deleted e <> Some (ChatSession.id c)) (chats s))).
  { eapply sublist_NoDup; [exact Hnd|]. apply fmap_sublist, sublist_filter. }
  destruct Hn as [->|(t1 & t2 & Hk & ->)]; [exact Hold|].
  cbn [fmap list_fmap app]. apply NoDup_cons. split; [|exact Hold].
  unfold fresh_clock in Hfr. rewrite Hk in Hfr.
  apply bool_decide_eq_true in Hfr.
  apply (not_elem_of_ids_filter _ _ _ Hfr).
Qed.

Lemma X16_witness :
  NoDup (thread_ids (run (initial ∅) hello_events)) /\
  fresh_clock (run (initial ∅) hello_events) (ClickNewChat 2000 2000) = true /\
  NoDup (thread_ids (step (run (initial ∅) hello_events)
                       (ClickNewChat 2000 2000))).
Proof.
  assert (H0 : NoDup (thread_ids (run (initial ∅) hello_events))).
  { apply (bool_decide_unpack _). vm_compute. exact I. }
  assert (H1 : fresh_clock (run (initial ∅) hello_events)
                 (ClickNewChat 2000 2000) = true)
    by (vm_compute; reflexivity).
  split; [exact H0|]. split; [exact H1|].
  exact (X16_thread_ids_stay_unique (run (initial ∅) hello_events)
           (ClickNewChat 2000 2000) H0 H1).
Defined.

(** X17. Every thread of the list after an event extends a thread of
    the list before it, or the thread [createNewChat] builds for that
    event, whose id and [createdAt] are the clock readings. *)
Theorem X17_threads_come_from_createNewChat
    (s : State) (e : Event) (c' : ChatSession.t) :
  c' ∈ chats (step s e) ->
  (exists c, c ∈ chats s /\ extends c c') \/
  (exists t1 t2, new_thread_clocks e = Some (t1, t2) /\
                 extends (newChat_of t1 t2) c').
Proof.
  intros Hc'. destruct (step_chats s e) as (new & f & Hn & Hf & Hc).
  rewrite Hc in Hc'. apply list_elem_of_fmap in Hc' as (c & -> & Hin).
  apply elem_of_app in Hin as [Hin|Hin].
  - right. destruct Hn as [->|(t1 & t2 & Hk & ->)]; [inversion Hin|].
    apply list_elem_of_singleton in Hin as ->. exists t1, t2.
    split; [exact Hk|apply appends_extends, Hf].
  - left. apply list_elem_of_filter in Hin as [_ Hin]. exists c.
    split; [exact Hin|apply appends_extends, Hf].
Qed.

Lemma X17_witness :
  hello_chat ∈ chats (step two_chats ClickMenu) /\
  ((exists c, c ∈ chats two_chats /\ extends c hello_chat) \/
   (exists t1 t2, new_thread_clocks ClickMenu = Some (t1, t2) /\
                  extends (newChat_of t1 t2) hello_chat)).
Proof.
  assert (H0 : hello_chat ∈ chats (step two_chats ClickMenu))
    by (apply list_elem_of_further, list_elem_of_here).
  split; [exact H0|].
  exact (X17_threads_come_from_createNewChat two_chats ClickMenu hello_chat H0).
Defined.

(** *** The conversation shown and new threads *)

Section Conversation.
Implicit Types (s : State) (e : Event) (c : ChatSession.t).

Lemma run_current_valid s events :
  current_valid s -> current_valid (run s events).
Proof.
  revert s. induction events as [|e events IH]; intros s Hs; [exact Hs|].
  apply (IH (step s e)), step_current_valid, Hs.
Qed.

Lemma find_fmap_appends f r (l : list ChatSession.t) :
  appends f ->
  List.find (fun c => bool_decide (Some (ChatSession.id c) = Some r)) (f <$> l)
  = f <$> List.find (fun c => bool_decide (Some (ChatSession.id c) = Some r)) l.
Proof.
  intros Hf. induction l as [|c l IH]; [reflexivity|].
  cbn [fmap list_fmap List.find]. rewrite (appends_id f c Hf).
  case_bool_decide; [reflexivity|exact IH].
Qed.

Lemma find_id_Some r (l : list ChatSession.t) :
  r ∈ ChatSession.id <$> l ->
  exists c,
    List.find (fun c => bool_decide (Some (ChatSession.id c) = Some r)) l
    = Some c /\ ChatSession.id c = r.
Proof.
  induction l as [|c l IH]; intros Hin; [inversion Hin|].
  cbn [List.find]. case_bool_decide as Hc.
  - exists c. split; [reflexivity|congruence].
  - apply elem_of_cons in Hin as [->|Hin]; [contradiction Hc; reflexivity|].
    apply IH, Hin.
Qed.

Lemma submit_active_valid t1 t2 s :
  current_valid s ->
  let mid := apply_actions (ensure_active_chat t1 t2 s).1 s in
  currentChatId mid = Some (ensure_active_chat t1 t2 s).2 /\
  (ensure_active_chat t1 t2 s).2 ∈ ChatSession.id <$> chats mid.
Proof.
  intros Hs. cbn zeta.
  destruct (ensure_active_chat_mid t1 t2 s)
    as [[-> Hcur]|[Hcur [[-> (c & l & -> & Hr)]|[-> Hr]]]].
  - split; [exact Hcur|]. unfold current_valid in Hs. rewrite Hcur in Hs.
    exact Hs.
  - split; [exact Hcur|]. rewrite Hr. apply list_elem_of_here.
  - split; [exact Hcur|]. rewrite Hr. apply list_elem_of_here.
Qed.
End Conversation.

Section NewChat.
Implicit Types (s : State).

Lemma createNewChat_fresh t1 t2 s :
  newest_in_use s = true ->
  createNewChat t1 t2 s =
    ([SetChats (fun prev => newChat_of t1 t2 :: prev);
      SetCurrentChatId (Some (Number_toString t1));
      SetIsSidebarOpen false], Number_toString t1).
Proof.
  unfold newest_in_use, createNewChat; unfold_handler.
  destruct (chats s) as [|c l]; [reflexivity|].
  destruct (_ =? _)%nat; [discriminate|reflexivity].
Qed.
End NewChat.

(** X19. When the list is empty or its newest thread has messages, New
    chat puts a thread without messages, with id [Date.now().toString()]
    and the title of a new translation, in front of the list, selects it
    and closes the sidebar, and the save effect persists the new list. *)
Theorem X19_createNewChat_builds_a_thread (s : State) (t1 t2 : Z) :
  newest_in_use s = true ->
  let s' := step s (ClickNewChat t1 t2) in
  chats s' = newChat_of t1 t2 :: chats s /\
  currentChatId s' = Some (Number_toString t1) /\
  isSidebarOpen s' = false /\
  localStorage s'
  = <[storage_key := JSON_stringify (encode_chats (chats s'))]>
      (localStorage s).
Proof.
  intros H. cbn zeta. cbn [step]. unfold commit.
  rewrite (createNewChat_fresh _ _ _ H). cbn [sets_chats existsb orb snd].
  rewrite save_effect_chats, save_effect_currentChatId, save_effect_storage.
  set (mid := apply_actions _ s).
  assert (Hc : chats mid = newChat_of t1 t2 :: chats s)
    by (destruct s; reflexivity).
  assert (Hst : localStorage mid = localStorage s) by (destruct s; reflexivity).
  rewrite Hc, Hst. split; [reflexivity|]. split; [destruct s; reflexivity|].
  split; [|reflexivity].
  rewrite save_effect_actions. destruct (save_cond _ _), s; reflexivity.
Qed.

Lemma X19_witness :
  newest_in_use (initial ∅) = true /\
  let s' := step (initial ∅) (ClickNewChat 1000 1000) in
  chats s' = newChat_of 1000 1000 :: chats (initial ∅) /\
  currentChatId s' = Some (Number_toString 1000) /\
  isSidebarOpen s' = false /\
  localStorage s'
  = <[storage_key := JSON_stringify (encode_chats (chats s'))]>
      (localStorage (initial ∅)).
Proof.
  split; [reflexivity|].
  exact (X19_createNewChat_builds_a_thread (initial ∅) 1000 1000 eq_refl).
Defined.

(** *** Speech, selectors and the round trip *)

(** X20. The listening indicator is on after an event exactly when the
    event is the [onstart] of the recogniser, or the indicator was on and
    the event is neither a click on the microphone nor the [onend] or
    [onerror] of the recogniser.  In particular a click on the
    microphone never turns it on by itself. *)
Theorem X20_only_the_recogniser_turns_listening_on (s : State) (e : Event) :
  isListening (step s e) = true <->
  e = SpeechStart \/ (isListening s = true /\ stops_listening e = false).
Proof.
  assert (Hframe : isListening (step s e) = isListening s ->
                   e <> SpeechStart -> stops_listening e = false ->
                   isListening (step s e) = true <->
                   e = SpeechStart \/
                   (isListening s = true /\ stops_listening e = false)).
  { intros -> Hne Hst. split; [auto|]. intros [?|[? _]]; [contradiction|auto]. }
  destruct e;
    try (apply Hframe; [by_frame FIsListening|discriminate|reflexivity]).
  - (* ClickMic *)
    cbn [step stops_listening]. unfold commit, toggleListening; unfold_handler.
    destruct (isListening s) eqn:Hl, supported, s; cbn in *; subst;
      (split; [discriminate|intros [|[]]; discriminate]).
  - (* SpeechStart *)
    split; [auto|]. intros _. destruct s; reflexivity.
  - (* SpeechEnd *)
    cbn [stops_listening]. split; [destruct s; discriminate|].
    intros [|[]]; discriminate.
  - (* SpeechError *)
    cbn [stops_listening]. split; [destruct s; discriminate|].
    intros [|[]]; discriminate.
Qed.

Section Dictation.
Implicit Types (s : State).

Lemma step_speech_result s transcript :
  inputText (step s (SpeechResult transcript))
  = (if truthy (inputText s) then inputText s ++ lit " " ++ transcript
     else transcript).
Proof. destruct s; reflexivity. Qed.

Lemma run_dictation ts : forall s,
  inputText s <> [] ->
  inputText (run s (SpeechResult <$> ts))
  = inputText s ++ concat ((fun t' => lit " " ++ t') <$> ts).
Proof.
  induction ts as [|t ts IH]; intros s Hne.
  - cbn. symmetry. apply app_nil_r.
  - cbn [fmap list_fmap run fold_left]. change (fold_left step ?l ?x) with (run x l).
    rewrite IH; rewrite step_speech_result;
      (destruct (inputText s) as [|c l]; [contradiction|]); cbn [truthy].
    + cbn [concat]. rewrite <- !app_assoc. reflexivity.
    + discriminate.
Qed.
End Dictation.

(** X21. Dictated phrases are joined by single spaces: from an empty
    input, a sequence of non-empty speech results leaves the phrases,
    separated by one space, in the input box, and touches neither the
    threads, the requests in flight nor the storage. *)
Theorem X21_dictated_phrases_are_joined_by_spaces
    (s : State) (transcripts : list jsstring) :
  inputText s = [] ->
  Forall (fun t => t <> []) transcripts ->
  let s' := run s (SpeechResult <$> transcripts) in
  inputText s' = phrases transcripts /\
  chats s' = chats s /\ inflight s' = inflight s /\
  localStorage s' = localStorage s.
Proof.
  intros Hin Hts s'. split.
  - subst s'. destruct Hts as [|t ts Ht Hts]; [exact Hin|].
    cbn [fmap list_fmap run fold_left].
    change (fold_left step ?l ?x) with (run x l).
    assert (H1 : inputText (step s (SpeechResult t)) = t)
      by (rewrite step_speech_result, Hin; reflexivity).
    rewrite run_dictation by (rewrite H1; exact Ht).
    rewrite H1. reflexivity.
  - subst s'. clear Hin Hts. revert s.
    induction transcripts as [|t ts IH]; intros s; [repeat split|].
    cbn [fmap list_fmap run fold_left].
    change (fold_left step ?l ?x) with (run x l).
    destruct (IH (step s (SpeechResult t))) as (-> & -> & ->).
    split; [by_frame FChats|]. split; [by_frame FInflight|].
    destruct s; reflexivity.
Qed.

Lemma X21_witness :
  inputText (initial ∅) = [] /\
  Forall (fun t => t <> []) [lit "good"; lit "morning"] /\
  let s' := run (initial ∅) (SpeechResult <$> [lit "good"; lit "morning"]) in
  inputText s' = phrases [lit "good"; lit "morning"] /\
  chats s' = chats (initial ∅) /\ inflight s' = inflight (initial ∅) /\
  localStorage s' = localStorage (initial ∅).
Proof.
  assert (H1 : Forall (fun t : jsstring => t <> [])
                 [lit "good"; lit "morning"])
    by (repeat constructor; discriminate).
  split; [reflexivity|]. split; [exact H1|].
  exact (X21_dictated_phrases_are_joined_by_spaces (initial ∅) _ eq_refl H1).
Defined.

Section Selectors.
Implicit Types (s : State) (e : Event).

Lemma step_languages_selected s e :
  languages_selected s = true -> languages_selected (step s e) = true.
Proof.
  intros Hs. unfold languages_selected in *.
  apply andb_true_iff in Hs as [H1 H2].
  destruct e;
    try (replace (sourceLang (step s _)) with (sourceLang s)
           by (symmetry; by_frame FSourceLang);
         replace (targetLang (step s _)) with (targetLang s)
           by (symmetry; by_frame FTargetLang);
         rewrite H1, H2; reflexivity).
  - cbn [step]. destruct (has_option value) eqn:Hv;
      [|rewrite H1, H2; reflexivity].
    destruct s; cbn in *. rewrite Hv, H2. reflexivity.
  - cbn [step]. destruct (has_option value) eqn:Hv;
      [|rewrite H1, H2; reflexivity].
    destruct s; cbn in *. rewrite Hv, H1. reflexivity.
Qed.

Lemma load_effect_untouched fld s acts :
  fld <> FChats -> fld <> FCurrentChatId -> fld <> FConsole ->
  load_effect s = inl acts -> untouched fld acts = true.
Proof.
  intros H1 H2 H3. unfold load_effect.
  destruct (localStorage s !! storage_key) as [blob|];
    [destruct (truthy blob);
     [destruct (JSON_parse blob) as [parsed|];
      [destruct (decode_chats parsed) as [l|]; [destruct l|]|]|]|];
    intros [= <-]; destruct fld; try reflexivity; contradiction.
Qed.

(** Mounting leaves alone what the load effect does not set. *)
Lemma mount_same_on fld storage s :
  fld <> FChats -> fld <> FCurrentChatId -> fld <> FConsole ->
  fld <> FLocalStorage ->
  mount storage = Mounted s -> same_on fld (initial storage) s.
Proof.
  intros H1 H2 H3 H4. unfold mount.
  destruct (load_effect (initial storage)) as [acts|] eqn:Hl; [|discriminate].
  intros [= <-].
  assert (Hmid : same_on fld (initial storage)
                   (apply_actions (acts ++ (save_effect (initial storage)).1)
                      (initial storage))).
  { apply apply_actions_same_on. rewrite untouched_app.
    rewrite (load_effect_untouched _ _ _ H1 H2 H3 Hl).
    apply save_effect_untouched, H4. }
  destruct (sets_chats acts); [|exact Hmid].
  eapply same_on_trans; [exact Hmid|].
  apply apply_actions_same_on, save_effect_untouched, H4.
Qed.
End Selectors.

(** X22. On a mounted page the selected source and target languages
    are always entries of [LANGUAGES]: both [LANGUAGES.find] calls of
    [handleTranslate] succeed, so its two fallbacks are never taken. *)
Theorem X22_selected_languages_are_options
    (storage : gmap jsstring jsstring) (s0 : State) (events : list Event) :
  mount storage = Mounted s0 ->
  let s := run s0 events in
  exists sourceObj targetObj,
    find_language (sourceLang s) = Some sourceObj /\
    code sourceObj = sourceLang s /\
    find_language (targetLang s) = Some targetObj /\
    code targetObj = targetLang s.
Proof.
  intros Hm s.
  assert (Hs : languages_selected s = true).
  { subst s.
    assert (H0 : languages_selected s0 = true).
    { unfold languages_selected.
      rewrite (mount_same_on FSourceLang _ _ ltac:(discriminate)
                 ltac:(discriminate) ltac:(discriminate) ltac:(discriminate)
                 Hm).
      rewrite (mount_same_on FTargetLang _ _ ltac:(discriminate)
                 ltac:(discriminate) ltac:(discriminate) ltac:(discriminate)
                 Hm).
      reflexivity. }
    clear Hm. revert s0 H0.
    induction events as [|e events IH]; intros s0 H0; [exact H0|].
    apply (IH (step s0 e)), step_languages_selected, H0. }
  apply andb_true_iff in Hs as [H1 H2].
  destruct (has_option_cases _ H1) as (_ & _ & so & Hso & Hco).
  destruct (has_option_cases _ H2) as (_ & _ & to & Hto & Hct).
  exists so, to. auto.
Qed.

Lemma X22_witness :
  mount ∅ = Mounted (initial ∅) /\
  let s := run (initial ∅) [ChangeTargetLang (lit "de-DE")] in
  exists sourceObj targetObj,
    find_language (sourceLang s) = Some sourceObj /\
    code sourceObj = sourceLang s /\
    find_language (targetLang s) = Some targetObj /\
    code targetObj = targetLang s.
Proof.
  assert (H0 : mount ∅ = Mounted (initial ∅)) by (vm_compute; reflexivity).
  split; [exact H0|].
  exact (X22_selected_languages_are_options ∅ (initial ∅)
           [ChangeTargetLang (lit "de-DE")] H0).
Defined.

Section Shown.
Implicit Types (s : State).

Lemma run_languages_selected s events :
  languages_selected s = true -> languages_selected (run s events) = true.
Proof.
  revert s. induction events as [|e events IH]; intros s Hs; [exact Hs|].
  apply (IH (step s e)), step_languages_selected, Hs.
Qed.

Lemma mount_languages_selected storage s :
  mount storage = Mounted s -> languages_selected s = true.
Proof.
  intros Hm. unfold languages_selected.
  rewrite (mount_same_on FSourceLang _ _ ltac:(discriminate)
             ltac:(discriminate) ltac:(discriminate) ltac:(discriminate) Hm).
  rewrite (mount_same_on FTargetLang _ _ ltac:(discriminate)
             ltac:(discriminate) ltac:(discriminate) ltac:(discriminate) Hm).
  reflexivity.
Qed.

(** The two message literals of [handleTranslate], with the selected
    languages found in [LANGUAGES]. *)
Lemma userMsg_of_fields now text sourceLang sourceObj :
  find_language sourceLang = Some sourceObj -> code sourceObj = sourceLang ->
  userMsg_of now text sourceLang
  = Message.mk (Number_toString now) user text (label sourceObj) sourceLang.
Proof. intros H <-. unfold userMsg_of. rewrite H. reflexivity. Qed.

Lemma aiMsg_of_fields now text targetLang targetObj :
  find_language targetLang = Some targetObj -> code targetObj = targetLang ->
  aiMsg_of now text (default (LANGUAGES_at 1) (find_language targetLang))
  = Message.mk (Number_toString (now + 1)) assistant text (label targetObj)
      targetLang.
Proof. intros H <-. unfold aiMsg_of. rewrite H. reflexivity. Qed.

(** After a submission the selected thread is the active one, and it
    shows its earlier messages followed by the user message. *)
Lemma submit_conversation t1 t2 t3 s :
  current_valid s -> truthy (trim (inputText s)) = true ->
  let s1 := step s (KeyDown (lit "Enter") false t1 t2 t3) in
  let active := (ensure_active_chat t1 t2 s).2 in
  let userMsg := userMsg_of t3 (inputText s) (sourceLang s) in
  exists c,
    currentChatId s1 = Some active /\
    List.find
      (fun c => bool_decide (Some (ChatSession.id c) = Some active))
      (chats s1)
    = Some (ChatSession.mk active
              (ChatSession.title (append_user_message active (inputText s)
                                    userMsg c))
              (ChatSession.messages c ++ [userMsg])
              (ChatSession.createdAt c)) /\
    activeMessages s1 = ChatSession.messages c ++ [userMsg].
Proof.
  intros Hv Hb s1 active userMsg. subst active userMsg.
  destruct (commit_handleTranslate t1 t2 t3 s Hb) as (Hc & Hcur & _).
  rewrite <- (step_enter s t1 t2 t3) in Hc, Hcur.
  change (step s (KeyDown (lit "Enter") false t1 t2 t3)) with s1 in Hc, Hcur.
  destruct (submit_active_valid t1 t2 s Hv) as [Hcur' Hin].
  destruct (find_id_Some _ _ Hin) as (c & Hfind & Hid).
  exists c. rewrite Hcur' in Hcur.
  match goal with
  | |- _ /\ ?F = ?R /\ _ => assert (Hf : F = R)
  end.
  { rewrite Hc, find_fmap_appends by constructor. rewrite Hfind.
    cbn [fmap option_fmap option_map]. unfold append_user_message.
    rewrite bool_decide_eq_true_2 by exact Hid.
    cbn [ChatSession.title ChatSession.messages ChatSession.createdAt].
    rewrite Hid. reflexivity. }
  split; [exact Hcur|]. split; [exact Hf|].
  unfold activeMessages, getCurrentChat. rewrite Hcur, Hf. reflexivity.
Qed.
End Shown.

(** X18. After a submission on a mounted page the conversation shown
    ends with the submitted message: the last of [activeMessages] has
    the id [Date.now().toString()], the role user, the text as typed
    and the label and code of the selected source language, and
    [hasMessages] is true. *)
Theorem X18_submitted_message_is_shown_last
    (storage : gmap jsstring jsstring) (s0 : State) (events : list Event)
    (t1 t2 t3 : Z) :
  mount storage = Mounted s0 ->
  let s := run s0 events in
  truthy (trim (inputText s)) = true ->
  let s1 := step s (KeyDown (lit "Enter") false t1 t2 t3) in
  exists sourceObj,
    find_language (sourceLang s) = Some sourceObj /\
    last (activeMessages s1)
    = Some (Message.mk (Number_toString t3) user (inputText s)
              (label sourceObj) (sourceLang s)) /\
    hasMessages s1 = true.
Proof.
  intros Hm s Hb s1.
  assert (Hv : current_valid s)
    by (apply run_current_valid, (mount_current_valid _ _ Hm)).
  assert (Hl : languages_selected s = true)
    by (apply run_languages_selected, (mount_languages_selected _ _ Hm)).
  apply andb_true_iff in Hl as [Hsl _].
  destruct (has_option_cases _ Hsl) as (_ & _ & so & Hso & Hco).
  destruct (submit_conversation t1 t2 t3 s Hv Hb) as (c & _ & _ & Ha).
  fold s1 in Ha. exists so. split; [exact Hso|].
  unfold hasMessages. rewrite Ha, last_snoc, length_app.
  rewrite (userMsg_of_fields _ _ _ _ Hso Hco).
  split; [reflexivity|]. cbn [length]. apply Nat.ltb_lt. lia.
Qed.

Lemma X18_witness :
  mount ∅ = Mounted (initial ∅) /\
  let s := run (initial ∅) [ChangeInput (lit "Hello")] in
  truthy (trim (inputText s)) = true /\
  let s1 := step s (KeyDown (lit "Enter") false 1000 1000 1001) in
  exists sourceObj,
    find_language (sourceLang s) = Some sourceObj /\
    last (activeMessages s1)
    = Some (Message.mk (Number_toString 1001) user (inputText s)
              (label sourceObj) (sourceLang s)) /\
    hasMessages s1 = true.
Proof.
  assert (H0 : mount ∅ = Mounted (initial ∅)) by (vm_compute; reflexivity).
  split; [exact H0|]. split; [reflexivity|].
  exact (X18_submitted_message_is_shown_last ∅ (initial ∅)
           [ChangeInput (lit "Hello")] 1000 1000 1001 H0 eq_refl).
Defined.

(** X23. End to end: when the upstream service answers with status 200
    and a translation, the route answers 200 with it to the request the
    page posted.  Settling the request with that response adds, after
    the user message, an assistant message with id
    [(Date.now() + 1).toString()], the translation as text and the label
    and code of the selected target language: it is the last message of
    the conversation shown, every thread with the active id gains it and
    no other thread changes; the busy flag is cleared, the request
    leaves the requests in flight and nothing is logged. *)
Theorem X23_translation_round_trip
    (axios_get : AxiosRequest -> AxiosResult) (s : State) (t1 t2 t3 now : Z)
    (details translatedText : jsstring) :
  current_valid s ->
  truthy (trim (inputText s)) = true ->
  languages_selected s = true ->
  (forall req, q req = inputText s ->
     axios_get req = AxiosResolved 200 details (Some translatedText)) ->
  let s1 := step s (KeyDown (lit "Enter") false t1 t2 t3) in
  let p := pending_of t1 t2 s in
  let response := (POST axios_get (request p)).2 in
  let s2 := step s1 (Settle (length (inflight s)) (Resolved response) now) in
  response = Ok200 translatedText /\
  exists before sourceObj targetObj,
    find_language (sourceLang s) = Some sourceObj /\
    find_language (targetLang s) = Some targetObj /\
    let userMsg :=
      Message.mk (Number_toString t3) user (inputText s) (label sourceObj)
        (sourceLang s) in
    let aiMsg :=
      Message.mk (Number_toString (now + 1)) assistant translatedText
        (label targetObj) (targetLang s) in
    activeMessages s1 = before ++ [userMsg] /\
    activeMessages s2 = before ++ [userMsg; aiMsg] /\
    Forall2 (fun chat chat' =>
      if bool_decide (ChatSession.id chat = activeChatId p) then
        chat' = ChatSession.mk (ChatSession.id chat) (ChatSession.title chat)
                  (ChatSession.messages chat ++ [aiMsg])
                  (ChatSession.createdAt chat)
      else chat' = chat) (chats s1) (chats s2) /\
    currentChatId s2 = Some (activeChatId p) /\
    isTranslating s2 = false /\ inflight s2 = inflight s /\
    console s2 = console s.
Proof.
  intros Hv Hb Hl Hax s1 p response s2.
  assert (Hr : response = Ok200 translatedText).
  { subst response p. unfold pending_of. cbn [request]. unfold POST.
    cbn [body_text body_targetLang body_sourceLang].
    pose proof Hl as Hl'. apply andb_true_iff in Hl' as [_ Htl].
    destruct (has_option_cases _ Htl) as (Htt & _ & _).
    rewrite (truthy_trim _ Hb), Htt. cbn [negb orb]. cbn zeta.
    rewrite Hax by reflexivity. reflexivity. }
  split; [exact Hr|]. clearbody response. subst response.
  try subst s2. try subst s1.
  apply andb_true_iff in Hl as [Hsl Htl].
  destruct (has_option_cases _ Hsl) as (_ & _ & so & Hso & Hco).
  destruct (has_option_cases _ Htl) as (_ & _ & to & Hto & Hct).
  destruct (submit_conversation t1 t2 t3 s Hv Hb) as (c & Hcur1 & Hf1 & Ha1).
  destruct (settle_after_submit s
              (step s (KeyDown (lit "Enter") false t1 t2 t3)) t1 t2 t3
              (Resolved (Ok200 translatedText)) now Hb
              eq_refl eq_refl eq_refl) as (Hc & Ht & Hf & Hcon).
  cbn [try_response] in Hc, Hcon.
  rewrite app_nil_r in Hcon.
  rewrite (aiMsg_of_fields _ _ _ _ Hto Hct) in Hc.
  rewrite (userMsg_of_fields _ _ _ _ Hso Hco) in Hf1, Ha1.
  match type of Hc with
  | chats ?st2 = _ <$> chats ?st1 =>
      assert (Hcur2 : currentChatId st2 = currentChatId st1)
        by (by_frame FCurrentChatId)
  end.
  exists (ChatSession.messages c), so, to.
  split; [exact Hso|]. split; [exact Hto|]. cbn zeta.
  split; [exact Ha1|]. split.
  { unfold activeMessages, getCurrentChat. rewrite Hcur2, Hcur1, Hc.
    rewrite find_fmap_appends by constructor. rewrite Hf1.
    cbn [fmap option_fmap option_map]. unfold append_message.
    rewrite bool_decide_eq_true_2 by reflexivity.
    cbn [ChatSession.messages]. rewrite <- app_assoc. reflexivity. }
  split.
  { rewrite Hc. apply Forall2_fmap_self. intros chat.
    unfold append_message, p, pending_of. cbn [activeChatId].
    case_bool_decide; reflexivity. }
  split; [rewrite Hcur2; exact Hcur1|].
  split; [exact Ht|]. split; [exact Hf|exact Hcon].
Qed.

Lemma X23_witness :
  current_valid typed_hello /\
  truthy (trim (inputText typed_hello)) = true /\
  languages_selected typed_hello = true /\
  (forall req, q req = inputText typed_hello ->
     upstream_bonjour req = AxiosResolved 200 [] (Some (lit "Bonjour"))) /\
  let s := typed_hello in
  let s1 := step s (KeyDown (lit "Enter") false 1000 1000 1001) in
  let p := pending_of 1000 1000 s in
  let response := (POST upstream_bonjour (request p)).2 in
  let s2 := step s1 (Settle (length (inflight s)) (Resolved response) 1200) in
  response = Ok200 (lit "Bonjour") /\
  exists before sourceObj targetObj,
    find_language (sourceLang s) = Some sourceObj /\
    find_language (targetLang s) = Some targetObj /\
    let userMsg :=
      Message.mk (Number_toString 1001) user (inputText s) (label sourceObj)
        (sourceLang s) in
    let aiMsg :=
      Message.mk (Number_toString (1200 + 1)) assistant (lit "Bonjour")
        (label targetObj) (targetLang s) in
    activeMessages s1 = before ++ [userMsg] /\
    activeMessages s2 = before ++ [userMsg; aiMsg] /\
    Forall2 (fun chat chat' =>
      if bool_decide (ChatSession.id chat = activeChatId p) then
        chat' = ChatSession.mk (ChatSession.id chat) (ChatSession.title chat)
                  (ChatSession.messages chat ++ [aiMsg])
                  (ChatSession.createdAt chat)
      else chat' = chat) (chats s1) (chats s2) /\
    currentChatId s2 = Some (activeChatId p) /\
    isTranslating s2 = false /\ inflight s2 = inflight s /\
    console s2 = console s.
Proof.
  assert (H0 : current_valid typed_hello) by exact I.
  assert (H2 : forall req, q req = inputText typed_hello ->
                 upstream_bonjour req
                 = AxiosResolved 200 [] (Some (lit "Bonjour")))
    by (intros; reflexivity).
  split; [exact H0|]. split; [reflexivity|].
  split; [vm_compute; reflexivity|]. split; [exact H2|].
  exact (X23_translation_round_trip upstream_bonjour typed_hello
           1000 1000 1001 1200 [] (lit "Bonjour") H0 eq_refl eq_refl H2).
Defined.

(** *** Titles *)

Section Titles.
Implicit Types (s : State) (e : Event) (c : ChatSession.t).

Lemma length_lit_dots : length (lit "...") = 3%nat.
Proof. reflexivity. Qed.

Lemma appends_title_ok f c : appends f -> title_ok c -> title_ok (f c).
Proof.
  intros [] Hc; [exact Hc|..];
    unfold append_user_message, append_message; case_bool_decide;
    try exact Hc.
  destruct (_ =? _)%nat; [|exact Hc]. unfold title_ok, slice0. cbn [ChatSession.title].
  rewrite length_app, length_take, length_lit_dots. lia.
Qed.

Lemma step_titles s e :
  Forall title_ok (chats s) -> Forall title_ok (chats (step s e)).
Proof.
  intros Hs. destruct (step_chats s e) as (new & f & Hn & Hf & ->).
  apply Forall_fmap, Forall_app. split.
  - destruct Hn as [->|(t1 & t2 & _ & ->)]; [constructor|].
    constructor; [|constructor]. apply (appends_title_ok f _ Hf).
    unfold title_ok. cbn. lia.
  - apply Forall_forall. intros c Hc.
    apply list_elem_of_filter in Hc as [_ Hc].
    apply (appends_title_ok f _ Hf). revert c Hc. apply Forall_forall, Hs.
Qed.
End Titles.

(** X24. Titles stay between 1 and 33 code units: if every title of the
    list is, it remains so after any sequence of events (a new thread
    gets the fixed title, a first message the first 30 code units of its
    text followed by three dots). *)
Theorem X24_titles_stay_short (s : State) (events : list Event) :
  Forall title_ok (chats s) -> Forall title_ok (chats (run s events)).
Proof.
  revert s. induction events as [|e events IH]; intros s Hs; [exact Hs|].
  apply (IH (step s e)), step_titles, Hs.
Qed.

Lemma X24_witness :
  Forall title_ok (chats two_chats) /\
  Forall title_ok (chats (run two_chats hello_events)).
Proof.
  assert (H0 : Forall title_ok (chats two_chats))
    by (repeat constructor; cbn; lia).
  split; [exact H0|].
  exact (X24_titles_stay_short two_chats hello_events H0).
Defined.

(** *** The copied mark *)

Section Copy.
Implicit Types (s : CopyState) (e : CopyEvent).

Lemma copy_step_expires s e : mark_expires s -> mark_expires (copy_step s e).
Proof.
  unfold mark_expires. intros Hs. destruct e as [id text|]; cbn.
  - intros _. lia.
  - unfold copy_timeout. destruct (timeouts s) as [|n] eqn:Hn; cbn.
    + rewrite Hn. exact Hs.
    + intros H. contradiction H. reflexivity.
Qed.

Lemma copy_run_clipboard events : forall s,
  clipboard (copy_run s events) = clipboard s ++ copied_texts events.
Proof.
  induction events as [|e events IH]; intros s.
  - symmetry. apply app_nil_r.
  - cbn [copy_run fold_left].
    change (fold_left copy_step ?l ?x) with (copy_run x l). rewrite IH.
    destruct e as [id text|];
      cbn [copied_texts omap list_omap copy_step handleCopy clipboard].
    + rewrite <- app_assoc. reflexivity.
    + unfold copy_timeout. destruct (timeouts s); reflexivity.
Qed.

Lemma copy_run_expires events : forall s,
  mark_expires s -> mark_expires (copy_run s events).
Proof.
  induction events as [|e events IH]; intros s Hs; [exact Hs|].
  apply (IH (copy_step s e)), copy_step_expires, Hs.
Qed.
End Copy.

(** X25. The mark of the copied message expires: if a message is
    marked as copied only while a timeout is pending, this stays so
    after any sequence of copy clicks and timeouts, and the clipboard
    was handed the texts of the copy clicks, in order. *)
Theorem X25_copied_mark_expires (s : CopyState) (events : list CopyEvent) :
  mark_expires s ->
  let s' := copy_run s events in
  mark_expires s' /\ clipboard s' = clipboard s ++ copied_texts events.
Proof.
  intros Hs. split; [apply copy_run_expires, Hs|apply copy_run_clipboard].
Qed.

Lemma X25_witness :
  mark_expires (mkCopy None [] 0) /\
  let s' := copy_run (mkCopy None [] 0)
              [ClickCopy (lit "1001") (lit "Hello"); TimeoutDue] in
  mark_expires s' /\
  clipboard s'
  = [] ++ copied_texts [ClickCopy (lit "1001") (lit "Hello"); TimeoutDue].
Proof.
  assert (H0 : mark_expires (mkCopy None [] 0))
    by (intros H; contradiction H; reflexivity).
  split; [exact H0|].
  exact (X25_copied_mark_expires (mkCopy None [] 0)
           [ClickCopy (lit "1001") (lit "Hello"); TimeoutDue] H0).
Defined.

